(** * TypedCRF: type schema, validators and unary potentials

    A shallow embedding of [pystruct/models/typed_crf.py] (class [TypedCRF]):
    the constructor with its offset tables, the instance validator
    [_check_size_x], the label validator [_check_size_xy], the potential
    computer [_get_unary_potentials], and [initialize], which calls the
    two validators.

    Conventions of the embedding.
    - The code is Python 2 (setup.py lists 2.6, 2.7 and 3.3): a generator
      that ends with [raise StopIteration] simply stops.
    - Exceptions are values of [Py.exn]; a method that may raise returns a
      [Py.result].  Messages are kept as structured data, one constructor
      per [raise] of the source.
    - Counts (the constructor's "how many ...?" arguments) are binary
      naturals [N]; positions in Python lists are [nat]; labels and edge
      endpoints, which may be negative, are [Z].
    - A numpy array whose number of dimensions the code inspects (an edge
      table) is an [Np.ndarray]: a shape and a flat row-major buffer.  A
      table that the code treats as two-dimensional throughout (node
      features, weights reshaped, potentials, the offset table) is an
      [Np.matrix]: its rows, and a column count that is kept when there
      are no rows.  One-dimensional vectors (labels, weights, class
      weights) are lists.
    - Scalars (features, weights, class weights) are an abstract carrier.
      The class does no arithmetic on them: it hands two tables to
      numpy's matrix product.  The shape of a product is modelled; its
      entries are a parameter of the embedding, [dot_entry], the number
      that numpy's routine for the arrays' type of numbers computes at a
      position.  How that routine rounds, in which order it sums and
      where it wraps around is not the class's matter, and nothing is
      assumed of it. *)

From stdpp Require Import base list numbers strings.
From Stdlib Require Import ZArith NArith Lia.
From Stdlib Require Import Floats.PrimFloat.

#[local] Open Scope nat_scope.

(** ** Python: exceptions, results, loops *)

Module Py.

(** The texts of the source's [raise] statements, with their [%d]
    arguments, and the numpy errors the code can run into. *)
Inductive message : Set :=
| MsgStatesPerType
    (* "Expected 1 number of states per node type." *)
| MsgFeaturesPerType
    (* "Expected 1 number pf features per node type." *)
| MsgClassWeightListPerType
    (* "Expected 1 class weight list per node type." *)
| MsgClassWeightPerState (i : nat)
    (* "Expected 1 class weight per state per node type. Wrong for type %d" *)
| MsgNodeFeatureArrayPerType
    (* "Expected one node feature array per node type." *)
| MsgExpectedFeatures (n : N) (typ : nat)
    (* "Expected %d features for type %d" *)
| MsgEdge2Dimensions
    (* "Expected a 2 dimensions edge arrays" *)
| MsgEdge2Columns
    (* "Expected 2 columns in edge arrays" *)
| MsgEdgeNegativeIndex (typ1 typ2 : nat)
    (* "At least one edge points to negative and therefore invalid node
       index: type %d to type %d" *)
| MsgEdgeStartsNonExisting (typ1 typ2 : nat)
    (* "At least one edge starts from a non-existing node index: type %d
       to type %d" *)
| MsgEdgePointsNonExisting (typ1 typ2 : nat)
    (* "At least one edge points to a non-existing node index: type %d to
       type %d" *)
| MsgLabelPerNode (nb_nodes got : nat)
    (* "Expected 1 label for each of the %d nodes. Gopt %d labels." *)
| MsgNegativeLabel (typ : nat)
    (* "Got a negative label for type %d" *)
| MsgLabelsStartAt (typ : nat) (start : N)
    (* "labels of type %d start at %d" *)
| MsgLabelsEndAt (typ : nat) (last : Z)
    (* "labels of type %d end at %d" *)
| MsgWeightShape (expected : N) (got : nat)
    (* "Got w of wrong shape. Expected %s, got %s" *)
| MsgZeroSizeReduction
    (* numpy: "zero-size array to reduction operation ... which has no
       identity" *)
| MsgEmptySequence
    (* builtin min/max: "... arg is an empty sequence" *)
| MsgNeedArrayToConcatenate
    (* numpy: "need at least one array to concatenate" *)
| MsgCannotReshape
    (* numpy: "cannot reshape array of size ... into shape ..." *)
| MsgShapesNotAligned.
    (* numpy: "shapes ... and ... not aligned" *)

Inductive exn : Set :=
| ValueError (m : message)
| InconsistentLabel (m : message)   (* class InconsistentLabel(Exception) *)
| TypeError
| AttributeError
| IndexError
| AssertionError.

Inductive result (A : Type) : Type :=
| Ok (a : A)
| Raise (e : exn).
Arguments Ok {A} a.
Arguments Raise {A} e.

#[global] Instance result_ret : MRet result := @Ok.
#[global] Instance result_bind : MBind result :=
  λ A B f m, match m with Ok a => f a | Raise e => Raise e end.

(** [for a in l: body], where the body may raise; [continue] is [Ok ()]. *)
Fixpoint for_ {A} (l : list A) (body : A → result ()) : result () :=
  match l with
  | [] => Ok ()
  | a :: l' => body a ≫= λ _, for_ l' body
  end.

(** The same loop around variables that the body assigns to. *)
Fixpoint for_acc {A S} (l : list A) (s : S) (body : S → A → result S)
    : result S :=
  match l with
  | [] => Ok s
  | a :: l' => body s a ≫= λ s', for_acc l' s' body
  end.

Definition enumerate {A} (l : list A) : list (nat * A) :=
  zip (seq 0 (length l)) l.

Definition zip3 {A B C} (la : list A) (lb : list B) (lc : list C)
    : list (A * B * C) :=
  zip (zip la lb) lc.

(** [l[i]] on a Python list, for a position that is not negative. *)
Definition getitem {A} (l : list A) (i : nat) : result A :=
  match l !! i with Some a => Ok a | None => Raise IndexError end.

(** [sum(l)]: a left fold from 0. *)
Definition sum (l : list N) : N := foldl N.add 0%N l.

(** [l[a:b]] for bounds that are not negative; a bound past the end is
    clipped. *)
Definition slice {A} (l : list A) (a b : nat) : list A :=
  take (b - a) (drop a l).

(** Builtin [min] and [max] over a sequence of integers. *)
Definition min (l : list Z) : result Z :=
  match l with
  | [] => Raise (ValueError MsgEmptySequence)
  | a :: l' => Ok (foldl Z.min a l')
  end.
Definition max (l : list Z) : result Z :=
  match l with
  | [] => Raise (ValueError MsgEmptySequence)
  | a :: l' => Ok (foldl Z.max a l')
  end.

(** [map(f, l)] of Python 2: the list of the results, computed in
    order; the first exception ends the calls. *)
Definition map1 {A B} (f : A → result B) (l : list A) : result (list B) :=
  mapM f l.

(** The arguments of the calls that [map(f, la, lb)] of Python 2
    makes: the shorter list is extended with [None]. *)
Fixpoint zip_longest {A B} (la : list A) (lb : list B)
    : list (option A * option B) :=
  match la, lb with
  | a :: la', b :: lb' => (Some a, Some b) :: zip_longest la' lb'
  | a :: la', [] => (Some a, None) :: zip_longest la' []
  | [], _ => (λ b, (None, Some b)) <$> lb
  end.
Definition map2 {A B C} (f : option A → option B → result C)
    (la : list A) (lb : list B) : result (list C) :=
  mapM (λ '(a, b), f a b) (zip_longest la lb).

End Py.
Import Py.

(** ** numpy: the arrays and operations the class uses *)

Module Np.

(** An array of any dimension: [shape] and the elements in row-major
    order. *)
Record ndarray (A : Type) : Type := mk_ndarray {
  shape : list nat;
  data : list A
}.
Arguments mk_ndarray {A} shape data.
Arguments shape {A} _.
Arguments data {A} _.

(** A two-dimensional array: [shape = (length rows, ncols)]. *)
Record matrix (A : Type) : Type := mk_matrix {
  ncols : nat;
  rows : list (list A)
}.
Arguments mk_matrix {A} ncols rows.
Arguments ncols {A} _.
Arguments rows {A} _.

Section Arrays.
Context {A : Type}.

Definition ndim (a : ndarray A) : nat := length (shape a).

(** [a.shape[k]] *)
Definition shape_at (a : ndarray A) (k : nat) : result nat :=
  getitem (shape a) k.

(** [len(a)]; a 0-dimensional array has no length. *)
Definition len (a : ndarray A) : result nat :=
  match shape a with
  | n :: _ => Ok n
  | [] => Raise TypeError
  end.

(** [a[:, j]] of a two-dimensional array.  (For more dimensions numpy
    returns a sub-array; [_check_size_x] only takes columns of tables
    it has checked to be two-dimensional.) *)
Definition column (a : ndarray A) (j : nat) : result (list A) :=
  match shape a with
  | [n; c] =>
      if bool_decide (j < c)
      then Ok (i ← seq 0 n; option_list (data a !! (i * c + j)))
      else Raise IndexError
  | _ => Raise IndexError
  end.

(** [np.empty((0, 0))] *)
Definition empty_0_0 : ndarray A := mk_ndarray [0; 0] [].

Definition nrows (m : matrix A) : nat := length (rows m).

(** The rows all have [ncols] cells. *)
Definition wf_matrix (m : matrix A) : Prop :=
  Forall (λ r, length r = ncols m) (rows m).

(** [np.empty((0, c))] *)
Definition empty_rows (c : nat) : matrix A := mk_matrix c [].

(** [m[i, j]] *)
Definition getitem2 (m : matrix A) (i j : nat) : result A :=
  match rows m !! i with
  | Some r => getitem r j
  | None => Raise IndexError
  end.

(** [m[i, j] = v] *)
Definition setitem2 (m : matrix A) (i j : nat) (v : A)
    : result (matrix A) :=
  match rows m !! i with
  | Some r =>
      if bool_decide (j < length r)
      then Ok (mk_matrix (ncols m) (<[i := <[j := v]> r]> (rows m)))
      else Raise IndexError
  | None => Raise IndexError
  end.

(** Column [j] of a matrix, top to bottom. *)
Definition col (m : matrix A) (j : nat) : list A :=
  r ← rows m; option_list (r !! j).

(** [m.T] *)
Definition transpose (m : matrix A) : matrix A :=
  mk_matrix (nrows m) ((λ j, col m j) <$> seq 0 (ncols m)).

(** [n] consecutive runs of [c] elements. *)
Fixpoint chunks (c n : nat) (l : list A) : list (list A) :=
  match n with
  | 0 => []
  | S n' => take c l :: chunks c n' (drop c l)
  end.

(** [v.reshape(n, c)] of a vector *)
Definition reshape (v : list A) (n c : nat) : result (matrix A) :=
  if bool_decide (length v = n * c)
  then Ok (mk_matrix c (chunks c n v))
  else Raise (ValueError MsgCannotReshape).

(** [np.hstack] of vectors: their concatenation; numpy refuses an
    empty sequence of arrays. *)
Definition hstack (l : list (list A)) : result (list A) :=
  match l with
  | [] => Raise (ValueError MsgNeedArrayToConcatenate)
  | _ => Ok (concat l)
  end.

(** An array holds as many elements as its shape says. *)
Definition wf_ndarray (a : ndarray A) : Prop :=
  length (data a) = foldr Nat.mul 1 (shape a).

End Arrays.

(** [np.min] and [np.max] of a vector of integers. *)
Definition min (v : list Z) : result Z :=
  match v with
  | [] => Raise (ValueError MsgZeroSizeReduction)
  | a :: v' => Ok (foldl Z.min a v')
  end.
Definition max (v : list Z) : result Z :=
  match v with
  | [] => Raise (ValueError MsgZeroSizeReduction)
  | a :: v' => Ok (foldl Z.max a v')
  end.

(** A value stored into an array of dtype [np.uint32] keeps its low 32
    bits: the numpy releases that run under Python 2 convert an integer
    that does not fit without a word. *)
Definition uint32 (v : N) : N := (v mod 2 ^ 32)%N.

(** [np.zeros((n, c), dtype=np.uint32)] *)
Definition zeros (n c : nat) : matrix N :=
  mk_matrix c (replicate n (replicate c 0%N)).

Section Scalars.
Context {R : Type} (rone : R).

(** [np.ones(n)] *)
Definition ones (n : N) : list R := replicate (N.to_nat n) rone.
End Scalars.

Section Product.
Context {R : Type} (dot_entry : matrix R → matrix R → nat → nat → R).

(** [np.dot(a, b)] of two-dimensional arrays.  The shapes must agree,
    and the product has the rows of [a] and the columns of [b].  Its
    entry (i, j) is [dot_entry a b i j]: what numpy's product routine
    for the arrays' type of numbers makes of the two arrays at that
    position.  The routine is numpy's and its BLAS library's: it may
    round every product and partial sum or fuse them, sum in any
    order, and wrap around in integers. *)
Definition dot (a b : matrix R) : result (matrix R) :=
  if bool_decide (ncols a = nrows b)
  then Ok (mk_matrix (ncols b)
             ((λ i, (λ j, dot_entry a b i j) <$> seq 0 (ncols b))
                <$> seq 0 (nrows a)))
  else Raise (ValueError MsgShapesNotAligned).
End Product.

Section Arithmetic.
Context {R : Type} (rzero : R) (radd rmul : R → R → R).

(** The dot product of two vectors in an arithmetic: the sum of the
    products of their entries, from the first to the last; 0 for
    vectors without entries. *)
Definition dot_product (u v : list R) : R :=
  match zip_with rmul u v with
  | [] => rzero
  | p :: l => foldl radd p l
  end.
End Arithmetic.

(** A value of dtype [np.int64]: the integer modulo 2^64 that lies
    between -2^63 and 2^63 - 1. *)
Definition int64 (v : Z) : Z := ((v + 2 ^ 63) mod 2 ^ 64 - 2 ^ 63)%Z.

(** The entries of [np.dot] on arrays of dtype [np.int64]: numpy
    multiplies and adds 64-bit integers, which wrap around.  Wrapping
    commutes with sums and products, so whatever the order of the
    operations the entry is the dot product of the row and the column,
    wrapped once. *)
Definition int64_dot_entry (a b : matrix Z) (i j : nat) : Z :=
  int64 (dot_product 0%Z Z.add Z.mul (default [] (rows a !! i)) (col b j)).

End Np.

(** ** The class TypedCRF *)

Module TypedCRF.
Import Np.

(** [if cond: raise e] *)
Definition raise_if (cond : bool) (e : exn) : result () :=
  if cond then Raise e else Ok ().

(** Truth value of an optional list: [None] and [[]] are false. *)
Definition truthy {A} (o : option (list A)) : bool :=
  match o with
  | Some (_ :: _) => true
  | _ => false
  end.

(** [sum] over node counts. *)
Definition sum_counts (l : list nat) : nat := foldl Nat.add 0 l.

(** [_iter_type_pairs]: the pairs the generator yields, in order. *)
Definition iter_pairs (n : nat) : list (nat * nat) :=
  typ1 ← seq 0 n; typ2 ← seq 0 n; [(typ1, typ2)].

(** [_set_size_joint_feature]: the value it stores in [size_unaries] and
    [size_joint_feature]. *)
Definition _set_size_joint_feature (l_n_states l_n_features : list N) : N :=
  Py.sum (zip_with N.mul l_n_states l_n_features).

(** Lines 105-111 of [__init__]: the table of first edge states, filled
    pair by pair from a running sum. *)
Definition fill_startindex (n_types : nat) (l_n_states : list N)
    : result (matrix N * N) :=
  for_acc (enumerate l_n_states) (zeros n_types n_types, 0%N)
    (λ '(a, i_state_start) '(typ1, typ1_n_states),
       for_acc (enumerate l_n_states) (a, i_state_start)
         (λ '(a, i_state_start) '(typ2, typ2_n_states),
            a ← setitem2 a typ1 typ2 (uint32 i_state_start);
            Ok (a, (i_state_start + typ1_n_states * typ2_n_states)%N))).

Section Model.
Context {R : Type} (rone : R)
  (dot_entry : matrix R → matrix R → nat → nat → R).

(** The attributes of [self] once [__init__] has returned. *)
Record t : Type := mk {
  inference_method : string;
  inference_calls : N;
  inference_exception : bool;
  n_types : nat;
  l_n_states : list N;
  _n_states : N;
  l_n_features : list N;
  _n_features : N;
  l_n_edge_states : list N;
  l_class_weight : list (list R);
  class_weight : list R;
  size_unaries : N;
  size_joint_feature : N;
  _l_type_startindex : list N;
  _a_feature_slice_by_typ : list (N * N);
  a_startindex_by_typ_typ : matrix N
}.

(** An instance [x]: [x[0]] holds one table of node features per type
    (or [None]), [x[1]] one table of edges per pair of types (or
    [None]). *)
Record instance : Type := mk_instance {
  x0 : list (option (matrix R));
  x1 : list (option (ndarray Z))
}.

(** Lines 74-84 of [__init__]: the class weights by type. *)
Definition init_class_weight (n_types : nat) (l_n_states : list N)
    (l_class_weight : option (list (list R))) : result (list (list R)) :=
  if truthy l_class_weight then
    let cw := default [] l_class_weight in
    raise_if (bool_decide (length cw ≠ n_types))
      (ValueError MsgClassWeightListPerType);;
    for_ (enumerate l_n_states) (λ '(i, n_states),
      cw_i ← getitem cw i;
      raise_if (bool_decide (N.of_nat (length cw_i) ≠ n_states))
        (ValueError (MsgClassWeightPerState i)));;
    Ok cw
  else Ok (ones rone <$> l_n_states).

(** [TypedCRF.__init__].  [inference_method] is taken as given: the
    choice among the installed solvers when it is [None] comes before
    any check of the schema and depends on [get_installed] of
    pystruct.inference only. *)
Definition __init__ (n_types : nat) (l_n_states : list N)
    (l_n_features : option (list N)) (inference_method : string)
    (l_class_weight : option (list (list R))) : result t :=
  raise_if (bool_decide (length l_n_states ≠ n_types))
    (ValueError MsgStatesPerType);;
  match l_n_features with
  | Some f => raise_if (bool_decide (length f ≠ n_types))
                (ValueError MsgFeaturesPerType)
  | None => Ok ()
  end;;
  let _n_states := Py.sum l_n_states in
  (* sum(None) is a TypeError *)
  feats ← match l_n_features with
          | Some f => Ok f
          | None => Raise TypeError
          end;
  let _n_features := Py.sum feats in
  let l_n_edge_states :=
    n1 ← l_n_states; n2 ← l_n_states; [(n1 * n2)%N] in
  l_cw ← init_class_weight n_types l_n_states l_class_weight;
  class_weight ← hstack l_cw;
  let size_unaries := _set_size_joint_feature l_n_states feats in
  let _l_type_startindex :=
    (λ i, Py.sum (take i l_n_states)) <$> seq 0 (n_types + 1) in
  let _a_feature_slice_by_typ :=
    (λ i, (Py.sum (take i feats), Py.sum (take (i + 1) feats)))
      <$> seq 0 n_types in
  '(a, _) ← fill_startindex n_types l_n_states;
  Ok {| inference_method := inference_method;
        inference_calls := 0;
        inference_exception := false;
        n_types := n_types;
        l_n_states := l_n_states;
        _n_states := _n_states;
        l_n_features := feats;
        _n_features := _n_features;
        l_n_edge_states := l_n_edge_states;
        l_class_weight := l_cw;
        class_weight := class_weight;
        size_unaries := size_unaries;
        size_joint_feature := size_unaries;
        _l_type_startindex := _l_type_startindex;
        _a_feature_slice_by_typ := _a_feature_slice_by_typ;
        a_startindex_by_typ_typ := a |}.

(** [_get_node_features] *)
Definition _get_node_features (self : t) (x : instance) (bClean : bool)
    : list (option (matrix R)) :=
  if bClean then
    (λ '(node_features, _n_feat),
       match node_features with
       | None => Some (empty_rows (N.to_nat _n_feat))
       | Some nf => Some nf
       end) <$> zip (x0 x) (l_n_features self)
  else x0 x.

(** [_get_edges] *)
Definition _get_edges (self : t) (x : instance) (bClean : bool)
    : result (list (option (ndarray Z))) :=
  if bClean then
    mapM (λ edges,
            match edges with
            | None => Ok (Some empty_0_0)
            | Some e =>
                n ← len e;
                Ok (Some (if bool_decide (n = 0) then empty_0_0 else e))
            end) (x1 x)
  else Ok (x1 x).

(** [_get_edges_by_type] *)
Definition _get_edges_by_type (self : t) (x : instance) (typ1 typ2 : nat)
    : result (option (ndarray Z)) :=
  getitem (x1 x) (typ1 * n_types self + typ2).

(** [_iter_type_pairs] *)
Definition _iter_type_pairs (self : t) : list (nat * nat) :=
  iter_pairs (n_types self).

(** [nf.shape[0]] and [nf.shape[1]] of an entry of the node feature
    list; [None] has no shape. *)
Definition shape0 (nf : option (matrix R)) : result nat :=
  match nf with Some m => Ok (nrows m) | None => Raise AttributeError end.
Definition shape1 (nf : option (matrix R)) : result nat :=
  match nf with Some m => Ok (ncols m) | None => Raise AttributeError end.

(** The body of the last loop of [_check_size_x], for one pair of
    types. *)
Definition check_edges_of_pair (self : t) (x : instance)
    (l_node_features : list (option (matrix R))) (typ1 typ2 : nat)
    : result () :=
  edges ← _get_edges_by_type self x typ1 typ2;
  match edges with
  | None => Ok ()
  | Some e =>
      n ← len e;
      if bool_decide (n = 0) then Ok () else
      nodes1 ← column e 0;
      nodes2 ← column e 1;
      m1 ← Py.min nodes1;
      negative ← (if bool_decide (m1 < 0)%Z then Ok true
                  else m2 ← Py.min nodes2; Ok (bool_decide (m2 < 0)%Z));
      raise_if negative (ValueError (MsgEdgeNegativeIndex typ1 typ2));;
      M1 ← Py.max nodes1;
      n1 ← getitem l_node_features typ1 ≫= shape0;
      raise_if (bool_decide (M1 >= Z.of_nat n1)%Z)
        (ValueError (MsgEdgeStartsNonExisting typ1 typ2));;
      M2 ← Py.max nodes2;
      n2 ← getitem l_node_features typ2 ≫= shape0;
      raise_if (bool_decide (M2 >= Z.of_nat n2)%Z)
        (ValueError (MsgEdgePointsNonExisting typ1 typ2))
  end.

(** The body of the loop over all edge tables. *)
Definition check_edge_shape (edges : option (ndarray Z)) : result () :=
  match edges with
  | None => Ok ()
  | Some e =>
      raise_if (bool_decide (ndim e ≠ 2)) (ValueError MsgEdge2Dimensions);;
      c ← shape_at e 1;
      raise_if (bool_decide (c ≠ 2)) (ValueError MsgEdge2Columns)
  end.

(** The body of the loop over the node feature tables. *)
Definition check_features_of_type (self : t) (typ : nat)
    (typ_features : option (matrix R)) : result () :=
  c ← shape1 typ_features;
  n ← getitem (l_n_features self) typ;
  raise_if (bool_decide (N.of_nat c ≠ n))
    (ValueError (MsgExpectedFeatures n typ)).

(** [_check_size_x] *)
Definition _check_size_x (self : t) (x : instance) : result bool :=
  let l_node_features := _get_node_features self x false in
  raise_if (bool_decide (length l_node_features ≠ n_types self))
    (ValueError MsgNodeFeatureArrayPerType);;
  for_ (enumerate l_node_features) (λ '(typ, typ_features),
    check_features_of_type self typ typ_features);;
  l_edges ← _get_edges self x false;
  for_ l_edges check_edge_shape;;
  for_ (_iter_type_pairs self) (λ '(typ1, typ2),
    check_edges_of_pair self x l_node_features typ1 typ2);;
  Ok true.

(** The body of the loop of [_check_size_xy]; the loop assigns to
    [i_start]. *)
Definition check_labels_of_type (self : t) (Y : list Z) (i_start : nat)
    (typ : nat) (nf : option (matrix R)) (n_states : N) : result nat :=
  nb_nodes ← shape0 nf;
  let Y_typ := Py.slice Y i_start (i_start + nb_nodes) in
  m ← Np.min Y_typ;
  raise_if (bool_decide (m < 0)%Z) (ValueError (MsgNegativeLabel typ));;
  lo ← getitem (_l_type_startindex self) typ;
  raise_if (bool_decide (m < Z.of_N lo)%Z)
    (InconsistentLabel (MsgLabelsStartAt typ lo));;
  M ← Np.max Y_typ;
  hi ← getitem (_l_type_startindex self) (typ + 1);
  raise_if (bool_decide (M >= Z.of_N hi)%Z)
    (InconsistentLabel (MsgLabelsEndAt typ (Z.of_N hi - 1)));;
  Ok (i_start + nb_nodes).

(** [_check_size_xy]; the result is Python's [None] when [Y] is
    [None] and [True] otherwise. *)
Definition _check_size_xy (self : t) (X : instance) (Y : option (list Z))
    : result (option bool) :=
  match Y with
  | None => Ok None
  | Some Y =>
      let l_node_features := _get_node_features self X true in
      counts ← mapM shape0 l_node_features;
      let nb_nodes := sum_counts counts in
      raise_if (bool_decide (length Y ≠ nb_nodes))
        (ValueError (MsgLabelPerNode nb_nodes (length Y)));;
      for_acc (zip3 (seq 0 (n_types self)) l_node_features
                 (l_n_states self)) 0
        (λ i_start '(typ, nf, n_states),
           check_labels_of_type self Y i_start typ nf n_states);;
      Ok (Some true)
  end.

(** Modelled from the spec: [_check_size_w] is inherited from
    [StructuredModel] (pystruct/models/base.py), which is not among the
    sources.  Section 4.5: "Preconditions: len(weights) ==
    size_unary_weights (WeightSizeMismatch otherwise)". *)
Definition _check_size_w (self : t) (w : list R) : result () :=
  raise_if (bool_decide (N.of_nat (length w) ≠ size_unaries self))
    (ValueError (MsgWeightShape (size_unaries self) (length w))).

(** The table the loop of [_get_unary_potentials] appends for one
    type: [np.dot(features, w[i_w:i_w+n_w].reshape(n_states,
    n_features).T)].  The arguments are evaluated before the call. *)
Definition potentials_of_type (w : list R) (i_w : N)
    (features : option (matrix R)) (n_states n_features : N)
    : result (matrix R) :=
  let n_w := (n_states * n_features)%N in
  W ← reshape (Py.slice w (N.to_nat i_w) (N.to_nat (i_w + n_w)))
        (N.to_nat n_states) (N.to_nat n_features);
  features ← match features with
             | Some f => Ok f
             | None => Raise TypeError
             end;
  dot dot_entry features (transpose W).

(** The loop of [_get_unary_potentials]; it appends to
    [l_unary_potentials] and advances [i_w]. *)
Definition unary_potentials_loop (self : t)
    (l_node_features : list (option (matrix R))) (w : list R)
    : result (list (matrix R) * N) :=
  for_acc (zip3 l_node_features (l_n_states self) (l_n_features self))
    ([], 0%N)
    (λ '(l_unary_potentials, i_w) '(features, n_states, n_features),
       let n_w := (n_states * n_features)%N in
       P ← potentials_of_type w i_w features n_states n_features;
       Ok (l_unary_potentials ++ [P], (i_w + n_w)%N)).

(** [_get_unary_potentials] *)
Definition _get_unary_potentials (self : t) (x : instance) (w : list R)
    : result (list (matrix R)) :=
  _check_size_w self w;;
  let l_node_features := _get_node_features self x true in
  '(l_unary_potentials, i_w) ← unary_potentials_loop self l_node_features w;
  raise_if (bool_decide (i_w ≠ size_unaries self)) AssertionError;;
  Ok l_unary_potentials.

(** The data [initialize] is called with: an instance and its label
    vector, or a list of instances and the list of their label
    vectors; the labels may be [None]. *)
Inductive dataset : Type :=
| One (X : instance) (Y : option (list Z))
| Many (X : list instance) (Y : option (list (list Z))).

(** [initialize].  In the branch of a list, [map] calls
    [_check_size_xy] on the instances and label vectors side by side;
    where it has filled in [None] for an instance, [x[0]] raises
    [TypeError], and where it has filled in [None] for the labels,
    [_check_size_xy] returns at once. *)
Definition initialize (self : t) (d : dataset) : result () :=
  match d with
  | Many X Y =>
      map1 (_check_size_x self) X;;
      match Y with
      | Some Y =>
          map2 (λ x y,
                  match x, y with
                  | Some x, _ => _check_size_xy self x y
                  | None, None => Ok None
                  | None, Some _ => Raise TypeError
                  end) X Y;;
          Ok ()
      | None => Ok ()
      end
  | One X Y =>
      _check_size_x self X;;
      _check_size_xy self X Y;;
      Ok ()
  end.

End Model.

Arguments t R : clear implicits.
Arguments instance R : clear implicits.
Arguments dataset R : clear implicits.

(** The error kinds of the specification, by the [raise] that stands for
    each in the code.  [InconsistentLabel] is a class of the code; the
    others are [ValueError]s told apart by their message. *)
Inductive error_kind : Set :=
| InvalidSchema
| StructuralMismatch
| DanglingEdge
| LabelCountMismatch
| InconsistentLabelKind
| WeightSizeMismatch.

Definition kind_of (e : exn) : option error_kind :=
  match e with
  | ValueError MsgStatesPerType
  | ValueError MsgFeaturesPerType
  | ValueError MsgClassWeightListPerType
  | ValueError (MsgClassWeightPerState _) => Some InvalidSchema
  | ValueError MsgNodeFeatureArrayPerType
  | ValueError (MsgExpectedFeatures _ _)
  | ValueError MsgEdge2Dimensions
  | ValueError MsgEdge2Columns => Some StructuralMismatch
  | ValueError (MsgEdgeNegativeIndex _ _)
  | ValueError (MsgEdgeStartsNonExisting _ _)
  | ValueError (MsgEdgePointsNonExisting _ _) => Some DanglingEdge
  | ValueError (MsgLabelPerNode _ _) => Some LabelCountMismatch
  | InconsistentLabel _ => Some InconsistentLabelKind
  | ValueError (MsgWeightShape _ _) => Some WeightSizeMismatch
  | _ => None
  end.

(** *** Notions the properties are stated with *)

(** A schema is validly constructed when [__init__] returned it. *)
Definition constructed {R} (rone : R) (s : t R) : Prop :=
  ∃ n_types l_n_states l_n_features inference_method l_class_weight,
    __init__ rone n_types l_n_states l_n_features inference_method
      l_class_weight = Ok s.

(** [edge_pair_start_offset[t1][t2]] *)
Definition edge_pair_start_offset {R} (s : t R) (t1 t2 : nat) : result N :=
  getitem2 (a_startindex_by_typ_typ s) t1 t2.

(** [k] lies in the sub-range reserved for the pair (t1, t2): from the
    pair's offset, [states(t1) * states(t2)] values. *)
Definition in_sub_range {R} (s : t R) (t1 t2 : nat) (k : N) : Prop :=
  ∃ o n1 n2,
    edge_pair_start_offset s t1 t2 = Ok o ∧
    l_n_states s !! t1 = Some n1 ∧ l_n_states s !! t2 = Some n2 ∧
    (o ≤ k < o + n1 * n2)%N.

(** [nodes1] and [nodes2] of an edge table: [edges[:,0]] and
    [edges[:,1]]. *)
Definition sources (e : ndarray Z) : list Z :=
  match column e 0 with Ok l => l | Raise _ => [] end.
Definition targets (e : ndarray Z) : list Z :=
  match column e 1 with Ok l => l | Raise _ => [] end.

(** An edge table is missing, or it is a table of pairs: [m] rows of two
    columns. *)
Definition edge_table_shaped (edges : option (ndarray Z)) : Prop :=
  match edges with
  | None => True
  | Some e => ∃ m, shape e = [m; 2] ∧ length (data e) = m * 2
  end.

Section Notions.
Context {R : Type}.

(** The number of nodes of a type in an instance. *)
Definition node_count (x : instance R) (typ : nat) : nat :=
  match x0 x !! typ with
  | Some (Some m) => nrows m
  | _ => 0
  end.

(** One table of node features per type, the table of type [typ] with
    [l_n_features[typ]] columns. *)
Definition node_tables_fit (s : t R) (x : instance R) : Prop :=
  length (x0 x) = n_types s ∧
  ∀ typ nf, x0 x !! typ = Some nf →
    ∃ m, nf = Some m ∧ l_n_features s !! typ = Some (N.of_nat (ncols m)).

(** One well-shaped edge table (or [None]) per pair of types. *)
Definition edge_tables_shaped (s : t R) (x : instance R) : Prop :=
  n_types s * n_types s ≤ length (x1 x) ∧
  Forall edge_table_shaped (x1 x).

(** The edge table of the pair (typ1, typ2) is [e], and has edges. *)
Definition has_edges (s : t R) (x : instance R) (typ1 typ2 : nat)
    (e : ndarray Z) : Prop :=
  x1 x !! (typ1 * n_types s + typ2) = Some (Some e) ∧ len e ≠ Ok 0.

(** The three defects of the edges of a pair. *)
Definition negative_endpoint (e : ndarray Z) : Prop :=
  Exists (λ v, v < 0)%Z (sources e) ∨ Exists (λ v, v < 0)%Z (targets e).
Definition source_out_of_range (x : instance R) (typ1 : nat)
    (e : ndarray Z) : Prop :=
  Exists (λ v, Z.of_nat (node_count x typ1) ≤ v)%Z (sources e).
Definition target_out_of_range (x : instance R) (typ2 : nat)
    (e : ndarray Z) : Prop :=
  Exists (λ v, Z.of_nat (node_count x typ2) ≤ v)%Z (targets e).

#[global] Instance negative_endpoint_dec e :
  Decision (negative_endpoint e).
Proof. unfold negative_endpoint. apply _. Defined.
#[global] Instance source_out_of_range_dec x typ1 e :
  Decision (source_out_of_range x typ1 e).
Proof. unfold source_out_of_range. apply _. Defined.
#[global] Instance target_out_of_range_dec x typ2 e :
  Decision (target_out_of_range x typ2 e).
Proof. unfold target_out_of_range. apply _. Defined.

(** What is reported about the edges [e] of the pair (typ1, typ2): a
    negative endpoint first (in either column), then a source, then a
    target that is not a node. *)
Definition dangling_message (x : instance R) (typ1 typ2 : nat)
    (e : ndarray Z) : option message :=
  if decide (negative_endpoint e)
  then Some (MsgEdgeNegativeIndex typ1 typ2)
  else if decide (source_out_of_range x typ1 e)
  then Some (MsgEdgeStartsNonExisting typ1 typ2)
  else if decide (target_out_of_range x typ2 e)
  then Some (MsgEdgePointsNonExisting typ1 typ2)
  else None.

(** Every edge of the pair runs between existing nodes. *)
Definition endpoints_in_range (s : t R) (x : instance R)
    (typ1 typ2 : nat) : Prop :=
  ∀ e, has_edges s x typ1 typ2 e →
    Forall (λ v, 0 ≤ v < Z.of_nat (node_count x typ1))%Z (sources e) ∧
    Forall (λ v, 0 ≤ v < Z.of_nat (node_count x typ2))%Z (targets e).

(** The pair (a, b) comes before (typ1, typ2) in row-major order. *)
Definition pair_before (s : t R) (a b typ1 typ2 : nat) : Prop :=
  a * n_types s + b < typ1 * n_types s + typ2.

(** The node counts [nf.shape[0]] of the tables [_check_size_xy] and
    [_get_unary_potentials] walk through, in type order. *)
Definition node_counts (s : t R) (x : instance R) : list nat :=
  (λ nf, from_option nrows 0 nf) <$> _get_node_features s x true.

(** The labels of the nodes of type [typ]: the run of [Y] that starts
    after the nodes of the types before it. *)
Definition run_start (s : t R) (x : instance R) (typ : nat) : nat :=
  sum_counts (take typ (node_counts s x)).
Definition label_run (s : t R) (x : instance R) (Y : list Z)
    (typ : nat) : list Z :=
  Py.slice Y (run_start s x typ)
    (run_start s x typ + default 0 (node_counts s x !! typ)).

(** The run of type [typ] has a label outside
    [[type_label_bounds[typ], type_label_bounds[typ+1])]. *)
Definition run_out_of_bounds (s : t R) (x : instance R) (Y : list Z)
    (typ : nat) : Prop :=
  ∃ lo hi,
    _l_type_startindex s !! typ = Some lo ∧
    _l_type_startindex s !! (typ + 1) = Some hi ∧
    Exists (λ v, v < Z.of_N lo ∨ Z.of_N hi ≤ v)%Z (label_run s x Y typ).

(** The run of type [typ] is not empty and all its labels are within
    the type's bounds. *)
Definition run_in_bounds (s : t R) (x : instance R) (Y : list Z)
    (typ : nat) : Prop :=
  ∃ lo hi,
    _l_type_startindex s !! typ = Some lo ∧
    _l_type_startindex s !! (typ + 1) = Some hi ∧
    label_run s x Y typ ≠ [] ∧
    Forall (λ v, Z.of_N lo ≤ v < Z.of_N hi)%Z (label_run s x Y typ).

(** The number of weights of type [typ], [states * features], and the
    offset of its first weight: the sum of these numbers over the
    types before it. *)
Definition weights_of_type (s : t R) (typ : nat) : N :=
  (default 0 (l_n_states s !! typ)
   * default 0 (l_n_features s !! typ))%N.
Definition weight_offset (s : t R) (typ : nat) : N :=
  Py.sum (weights_of_type s <$> seq 0 typ).

(** The number of weights one round of the loop of
    [_get_unary_potentials] consumes: [n_w]. *)
Definition weights_of_round (round : option (matrix R) * N * N) : N :=
  let '(features, n_states, n_features) := round in
  (n_states * n_features)%N.

(** The same instance with the edge table at position [k] replaced. *)
Definition with_edge_table (x : instance R) (k : nat)
    (edges : option (ndarray Z)) : instance R :=
  mk_instance (x0 x) (<[k := edges]> (x1 x)).

(** The edge tables of an instance are arrays as numpy makes them. *)
Definition edge_tables_wf (x : instance R) : Prop :=
  Forall (from_option wf_ndarray True) (x1 x).

(** Every node table that is present has its type's number of
    columns. *)
Definition present_tables_fit (s : t R) (x : instance R) : Prop :=
  ∀ typ m, x0 x !! typ = Some (Some m) →
    l_n_features s !! typ = Some (N.of_nat (ncols m)).
End Notions.

(** [edge_states_before l_n_states t1 t2]: the sum of
    [l_n_states[i] * l_n_states[j]] over the pairs (i, j) that come
    before (t1, t2) in row-major order; [l_n_edge_states] lists these
    products in that order. *)
Definition edge_states (l_n_states : list N) : list N :=
  n1 ← l_n_states; n2 ← l_n_states; [(n1 * n2)%N].
Definition edge_states_before (l_n_states : list N) (t1 t2 : nat) : N :=
  Py.sum (take (t1 * length l_n_states + t2) (edge_states l_n_states)).

(** Running sums [i, i + l0, i + l0 + l1, ...] of a list. *)
Fixpoint offsets (i : N) (l : list N) : list N :=
  match l with
  | [] => []
  | e :: l' => i :: offsets (i + e) l'
  end.

(** The rows [fill_startindex] writes for the types [l], from the
    running sum [i] on. *)
Fixpoint startindex_rows (l_n_states : list N) (i : N) (l : list N)
    : list (list N) :=
  match l with
  | [] => []
  | n1 :: l' =>
      (uint32 <$> offsets i (N.mul n1 <$> l_n_states))
        :: startindex_rows l_n_states
             (i + Py.sum (N.mul n1 <$> l_n_states)) l'
  end.

End TypedCRF.

(** ** Schemas and instances of the scenarios *)

Module Examples.
Import Np TypedCRF.

(** The schema a call of [__init__] returned. *)
Definition get_schema {R} (r : result (t R)) : t R :=
  match r with
  | Ok s => s
  | Raise _ => mk "" 0 false 0 [] 0 [] 0 [] [] [] 0 0 [] [] (zeros 0 0)
  end.

(** [TypedCRF(n_types, l_n_states, l_n_features)] with the default
    inference method and no class weights, over integer scalars. *)
Definition schema (n_types : nat) (l_n_states l_n_features : list N)
    : t Z :=
  get_schema (__init__ 1%Z n_types l_n_states (Some l_n_features) "ad3+"
                None).

(** Two types, with 2 and 3 states and one feature each. *)
Definition schema_2_3 : t Z := schema 2 [2; 3]%N [1; 1]%N.

(** A table of [k] nodes with one feature each. *)
Definition nodes (k : nat) : option (matrix Z) :=
  Some (mk_matrix 1 (replicate k [1%Z])).

(** The edge table [np.array(l)] of a list of pairs. *)
Definition edge_table (l : list (Z * Z)) : option (ndarray Z) :=
  Some (mk_ndarray [length l; 2] (p ← l; [p.1; p.2])).

(** 2 nodes of type 0 and 3 of type 1, with the given edge tables. *)
Definition instance_2_3 (edges : list (option (ndarray Z))) : instance Z :=
  mk_instance [nodes 2; nodes 3] edges.

(** The same with edges 0-0 to 0-1 between the nodes of type 0, and
    edges from type 0 to type 1. *)
Definition instance_with_edges : instance Z :=
  instance_2_3 [edge_table [(0, 1)]; edge_table [(0, 2); (1, 0)];
                None; edge_table []]%Z.

(** The edge (0, 99) from type 0 to type 1, which has 3 nodes. *)
Definition instance_dangling : instance Z :=
  instance_2_3 [None; edge_table [(0, 99)]; None; None]%Z.

(** No node of type 0 and one node of type 1. *)
Definition instance_0_1 : instance Z :=
  mk_instance [nodes 0; nodes 1] [None; None; None; None].

(** Two types with 65536 and 1 states: 2^32 edge states for the first
    pair alone. *)
Definition schema_65536_1 : t Z := schema 2 [65536; 1]%N [0; 0]%N.

(** The scenario of the potentials, over binary64 floats: one state
    and one feature per type, a node with feature 2.0 and a node with
    feature 4.0, weights 3.0 and 5.0. *)
Definition schema_1_1 : t float :=
  get_schema (__init__ 1%float 2 [1; 1]%N (Some [1; 1]%N) "ad3+" None).
Definition instance_1_1 : instance float :=
  mk_instance [Some (mk_matrix 1 [[2%float]]);
               Some (mk_matrix 1 [[4%float]])]
    [None; None; None; None].
Definition weights_3_5 : list float := [3%float; 5%float].

(** A product routine on binary64 arrays, for the scenarios: every
    product and every partial sum rounded to the nearest, from the first
    to the last.  numpy's routine is not bound to do the same; on the
    tables of the scenario, whose rows have one entry, any routine has
    one product to make and nothing to add. *)
Definition binary64_dot_entry (a b : matrix float) (i j : nat) : float :=
  dot_product 0%float PrimFloat.add PrimFloat.mul
    (default [] (rows a !! i)) (col b j).


(** Class weights for the schema of 2 and 3 states. *)
Definition class_weights_2_3 : list (list Z) := [[1; 2]; [3; 4; 5]]%Z.

(** One table only, of the 2 nodes of type 0. *)
Definition instance_one_table : instance Z :=
  mk_instance [nodes 2] [None; None; None; None].

(** The table of type 1 has two columns for one feature. *)
Definition instance_misfit : instance Z :=
  mk_instance [nodes 2; Some (mk_matrix 2 [[1; 1]%Z])]
    [None; None; None; None].

(** No table for type 0, and 3 nodes of type 1. *)
Definition instance_missing : instance Z :=
  mk_instance [None; nodes 3] [None; None; None; None].

(** Five weights, for the schema of 2 and 3 states with one feature
    each. *)
Definition weights_1_5 : list Z := [1; 2; 3; 4; 5]%Z.

(** 2 and 3 states, and no feature for the second type. *)
Definition schema_no_feature : t Z := schema 2 [2; 3]%N [1; 0]%N.

End Examples.

(** * Properties *)

Module PyFacts.

Lemma bind_Ok {A B} (m : result A) (f : A → result B) b :
  m ≫= f = Ok b ↔ ∃ a, m = Ok a ∧ f a = Ok b.
Proof.
  destruct m as [a|e]; simpl; split.
  - intros H. by exists a.
  - by intros (a' & [= <-] & H).
  - done.
  - by intros (a' & [=] & _).
Qed.

Lemma bind_Raise {A B} (m : result A) (f : A → result B) e :
  m ≫= f = Raise e ↔ m = Raise e ∨ ∃ a, m = Ok a ∧ f a = Raise e.
Proof.
  destruct m as [a|e']; simpl; split.
  - intros H. right. by exists a.
  - by intros [[=] | (a' & [= <-] & H)].
  - intros [= ->]. by left.
  - by intros [[= ->] | (a' & [=] & _)].
Qed.

(** A loop ends normally exactly when every round does. *)
Lemma for_Ok {A} (l : list A) body :
  for_ l body = Ok () ↔ Forall (λ a, body a = Ok ()) l.
Proof.
  induction l as [|a l IH]; simpl.
  - split; [constructor | done].
  - rewrite Forall_cons, <- IH. destruct (body a) as [[]|]; simpl.
    + tauto.
    + split; [done | by intros [[=] _]].
Qed.

(** A loop raises what its first failing round raises. *)
Lemma for_Raise {A} (l : list A) body e :
  for_ l body = Raise e ↔
  ∃ l1 a l2, l = l1 ++ a :: l2 ∧ Forall (λ a, body a = Ok ()) l1 ∧
             body a = Raise e.
Proof.
  induction l as [|a l IH]; simpl.
  - split; [done | intros (l1 & ? & ? & ? & _); by destruct l1].
  - destruct (body a) as [[]|e'] eqn:Ha; simpl.
    + rewrite IH. split.
      * intros (l1 & b & l2 & -> & Hl1 & Hb).
        exists (a :: l1), b, l2. split; [done|]. split; [by constructor | done].
      * intros (l1 & b & l2 & Heq & Hl1 & Hb).
        destruct l1 as [|a' l1]; injection Heq as -> ->; [congruence|].
        inversion Hl1; subst. by exists l1, b, l2.
    + split.
      * intros [= ->]. by exists [], a, l.
      * intros (l1 & b & l2 & Heq & Hl1 & Hb).
        destruct l1 as [|a' l1]; injection Heq as -> ->; [congruence|].
        inversion Hl1; congruence.
Qed.

Lemma enumerate_lookup {A} (l : list A) i p :
  enumerate l !! i = Some p ↔ p.1 = i ∧ l !! i = Some p.2.
Proof.
  unfold enumerate. rewrite lookup_zip_with. destruct p as [j a]; simpl.
  split.
  - intros H. destruct (seq 0 (length l) !! i) as [j'|] eqn:Hj; [|done].
    apply lookup_seq in Hj as [-> _]. simpl in H.
    destruct (l !! i); naive_solver.
  - intros [-> Ha]. rewrite lookup_seq_lt by (by eapply lookup_lt_Some).
    simpl. by rewrite Ha.
Qed.

Lemma sum_shift (l : list N) (a : N) : foldl N.add a l = (a + Py.sum l)%N.
Proof.
  unfold Py.sum. revert a. induction l as [|b l IH]; intros a; simpl.
  - lia.
  - rewrite IH, (IH (0 + b)%N). lia.
Qed.

Lemma sum_nil : Py.sum [] = 0%N.
Proof. done. Qed.

Lemma sum_cons (a : N) l : Py.sum (a :: l) = (a + Py.sum l)%N.
Proof. unfold Py.sum at 1. simpl. by rewrite sum_shift. Qed.

Lemma sum_app (l k : list N) : Py.sum (l ++ k) = (Py.sum l + Py.sum k)%N.
Proof.
  induction l as [|a l IH]; simpl; [by rewrite sum_nil|].
  rewrite !sum_cons, IH. lia.
Qed.

Lemma sum_take_le (l : list N) k : (Py.sum (take k l) ≤ Py.sum l)%N.
Proof.
  rewrite <- (take_drop k l) at 2. rewrite sum_app. lia.
Qed.

Lemma sum_take_S (l : list N) k x :
  l !! k = Some x → Py.sum (take (S k) l) = (Py.sum (take k l) + x)%N.
Proof.
  intros H. rewrite (take_S_r _ _ _ H), sum_app, sum_cons, sum_nil. lia.
Qed.

End PyFacts.

Module TypedCRFFacts.
Import Np TypedCRF PyFacts.

(** ** The table of first edge states *)

Lemma offsets_length i l : length (offsets i l) = length l.
Proof. revert i. induction l; intros; simpl; auto. Qed.

Lemma offsets_lookup l : ∀ i k,
  k < length l → offsets i l !! k = Some (i + Py.sum (take k l))%N.
Proof.
  induction l as [|e l IH]; intros i k Hk; simpl in *; [lia|].
  destruct k as [|k]; simpl.
  - rewrite sum_nil. f_equal. lia.
  - rewrite IH by lia. rewrite sum_cons. f_equal. lia.
Qed.

Lemma bind_singleton_fmap {A B} (f : A → B) (l : list A) :
  (a ← l; [f a]) = f <$> l.
Proof. induction l; simpl; [done | by f_equal]. Qed.

Lemma edge_states_cons n1 l (states : list N) :
  (m1 ← n1 :: l; m2 ← states; [(m1 * m2)%N])
  = (N.mul n1 <$> states) ++ (m1 ← l; m2 ← states; [(m1 * m2)%N]).
Proof. simpl. by rewrite bind_singleton_fmap. Qed.

Lemma setitem2_Ok {A} (m : matrix A) i j v r :
  rows m !! i = Some r → j < length r →
  setitem2 m i j v = Ok (mk_matrix (ncols m) (<[i := <[j := v]> r]> (rows m))).
Proof.
  intros Hr Hj. unfold setitem2. rewrite Hr.
  by rewrite bool_decide_true by done.
Qed.

(** One row of the table: the inner loop. *)
Lemma fill_row (t1 : nat) (n1 : N) : ∀ (l : list N) k a i row,
  rows a !! t1 = Some row →
  length row = k + length l →
  for_acc (zip (seq k (length l)) l) (a, i)
    (λ '(a, i_state_start) '(typ2, typ2_n_states),
       a ← setitem2 a t1 typ2 (uint32 i_state_start);
       Ok (a, (i_state_start + n1 * typ2_n_states)%N))
  = Ok (mk_matrix (ncols a)
          (<[t1 := take k row ++ (uint32 <$> offsets i (N.mul n1 <$> l))]>
             (rows a)),
        (i + Py.sum (N.mul n1 <$> l))%N).
Proof.
  induction l as [|n2 l IH]; intros k a i row Ha Hlen; simpl in *.
  - rewrite app_nil_r, take_ge by lia. rewrite list_insert_id by done.
    destruct a; simpl. rewrite sum_nil. do 2 f_equal. lia.
  - rewrite (setitem2_Ok a t1 k _ row) by (done || lia). simpl.
    rewrite (IH (S k) _ _ (<[k := uint32 i]> row)); simpl.
    + rewrite list_insert_insert_eq, sum_cons.
      f_equal. f_equal; [f_equal; f_equal | by rewrite N.add_assoc].
      rewrite (take_S_r _ _ (uint32 i)).
      * rewrite take_insert_ge by lia. by rewrite <- app_assoc.
      * apply list_lookup_insert_eq. lia.
    + apply list_lookup_insert_eq. by eapply lookup_lt_Some.
    + rewrite length_insert. lia.
Qed.

(** All rows: the outer loop. *)
Lemma fill_rows (states : list N) : ∀ (l : list N) k a i,
  length (rows a) = k + length l →
  Forall (λ row, length row = length states) (rows a) →
  for_acc (zip (seq k (length l)) l) (a, i)
    (λ '(a, i_state_start) '(typ1, typ1_n_states),
       for_acc (enumerate states) (a, i_state_start)
         (λ '(a, i_state_start) '(typ2, typ2_n_states),
            a ← setitem2 a typ1 typ2 (uint32 i_state_start);
            Ok (a, (i_state_start + typ1_n_states * typ2_n_states)%N)))
  = Ok (mk_matrix (ncols a)
          (take k (rows a) ++ startindex_rows states i l),
        (i + Py.sum (m1 ← l; m2 ← states; [(m1 * m2)%N]))%N).
Proof.
  induction l as [|n1 l IH]; intros k a i Hlen Hrows; simpl in *.
  - rewrite app_nil_r, take_ge by lia. destruct a; simpl.
    rewrite sum_nil. do 2 f_equal. lia.
  - destruct (lookup_lt_is_Some_2 (rows a) k) as [row Hrow]; [lia|].
    assert (length row = length states) as Hrowlen.
    { eapply Forall_lookup_1 in Hrows; eauto. }
    unfold enumerate.
    rewrite (fill_row k n1 states 0 a i row) by (done || lia). simpl.
    rewrite (IH (S k)); simpl.
    + rewrite bind_singleton_fmap, sum_app.
      f_equal. f_equal; [f_equal | by rewrite N.add_assoc].
      rewrite (take_S_r _ _ (uint32 <$> offsets i (N.mul n1 <$> states))).
      * rewrite take_insert_ge by lia. by rewrite <- app_assoc.
      * apply list_lookup_insert_eq. lia.
    + rewrite length_insert. lia.
    + apply Forall_insert; [done|].
      by rewrite length_fmap, offsets_length, length_fmap.
Qed.

Lemma fill_startindex_eq (n : nat) (states : list N) :
  length states = n →
  fill_startindex n states
  = Ok (mk_matrix n (startindex_rows states 0 states),
        Py.sum (edge_states states)).
Proof.
  intros <-. unfold fill_startindex, enumerate at 1.
  rewrite (fill_rows states states 0); simpl.
  - done.
  - by rewrite length_replicate.
  - apply Forall_replicate. by rewrite length_replicate.
Qed.

(** What the table holds at (t1, t2). *)
Lemma startindex_rows_lookup (states : list N) : ∀ (l : list N) i t1 t2,
  t1 < length l → t2 < length states →
  startindex_rows states i l !! t1 ≫= (.!! t2)
  = Some (uint32 (i + Py.sum (take (t1 * length states + t2)
                                (m1 ← l; m2 ← states; [(m1 * m2)%N])))).
Proof.
  induction l as [|n1 l IH]; intros i t1 t2 H1 H2; [simpl in *; lia|].
  rewrite edge_states_cons.
  destruct t1 as [|t1]; simpl startindex_rows; simpl lookup; simpl mbind.
  - rewrite list_lookup_fmap, offsets_lookup by (by rewrite length_fmap).
    simpl. rewrite take_app_le by (rewrite length_fmap; lia). done.
  - simpl in H1. rewrite IH by lia.
    replace (S t1 * length states + t2)
      with (length (N.mul n1 <$> states) + (t1 * length states + t2))
      by (rewrite length_fmap; lia).
    rewrite take_app_add, sum_app. do 2 f_equal. lia.
Qed.

(** ** The constructor *)

Section Init.
Context {R : Type} (rone : R).

(** What [__init__] returns when it returns: the arguments had the
    right lengths, and every attribute is as the constructor computes
    it; the table of first edge states is in closed form. *)
Lemma init_inv n states feats im cw s :
  __init__ rone n states feats im cw = Ok s →
  ∃ f l_cw c_w,
    feats = Some f ∧ length states = n ∧ length f = n ∧
    init_class_weight rone n states cw = Ok l_cw ∧
    hstack l_cw = Ok c_w ∧
    s = {| inference_method := im;
           inference_calls := 0;
           inference_exception := false;
           n_types := n;
           l_n_states := states;
           _n_states := Py.sum states;
           l_n_features := f;
           _n_features := Py.sum f;
           l_n_edge_states := edge_states states;
           l_class_weight := l_cw;
           class_weight := c_w;
           size_unaries := _set_size_joint_feature states f;
           size_joint_feature := _set_size_joint_feature states f;
           _l_type_startindex :=
             (λ i, Py.sum (take i states)) <$> seq 0 (n + 1);
           _a_feature_slice_by_typ :=
             (λ i, (Py.sum (take i f), Py.sum (take (i + 1) f)))
               <$> seq 0 n;
           a_startindex_by_typ_typ :=
             mk_matrix n (startindex_rows states 0 states) |}.
Proof.
  unfold __init__, raise_if. intros H.
  destruct (decide (length states = n)) as [Hn|Hn]; cycle 1.
  { by rewrite (bool_decide_true (length states ≠ n)) in H by done. }
  rewrite (bool_decide_false (length states ≠ n)) in H
    by (intros ?; done).
  simpl in H.
  destruct feats as [f|]; simpl in H; [|done].
  case_bool_decide as Hf; simpl in H; [done|].
  destruct (init_class_weight rone n states cw) as [l_cw|] eqn:Hcw;
    simpl in H; [|done].
  destruct (hstack l_cw) as [c_w|] eqn:Hh; simpl in H; [|done].
  rewrite (fill_startindex_eq n states Hn) in H. simpl in H.
  injection H as <-. by exists f, l_cw, c_w.
Qed.

Lemma init_fields n states feats im cw s :
  __init__ rone n states feats im cw = Ok s →
  n_types s = n ∧ l_n_states s = states ∧ feats = Some (l_n_features s) ∧
  length (l_n_states s) = n_types s ∧
  length (l_n_features s) = n_types s.
Proof.
  intros (f & l_cw & c_w & -> & Hn & Hf & _ & _ & ->)%init_inv. done.
Qed.

Lemma constructed_lengths (s : t R) :
  constructed rone s →
  length (l_n_states s) = n_types s ∧ length (l_n_features s) = n_types s.
Proof.
  intros (n & states & feats & im & cw & H).
  apply init_fields in H. tauto.
Qed.

Lemma ones_concat (states : list N) :
  concat (ones rone <$> states)
  = replicate (N.to_nat (Py.sum states)) rone.
Proof.
  induction states as [|a l IH]; csimpl; [done|].
  rewrite IH, sum_cons, N2Nat.inj_add. unfold ones.
  by rewrite replicate_add.
Qed.

(** Without class weights, and with arguments of the right lengths
    for at least one type, the constructor returns. *)
Lemma init_default_Ok n (states f : list N) im cw :
  length states = n → length f = n → 0 < n → truthy cw = false →
  ∃ s, __init__ rone n states (Some f) im cw = Ok s ∧
       l_n_states s = states ∧ l_n_features s = f ∧ n_types s = n ∧
       _n_states s = Py.sum states ∧
       class_weight s = replicate (N.to_nat (Py.sum states)) rone.
Proof.
  intros Hn Hf Hpos Hcw. unfold __init__, raise_if.
  rewrite !bool_decide_false by (intros ?; done). simpl.
  unfold init_class_weight. rewrite Hcw. simpl.
  destruct states as [|a l]; [simpl in Hn; lia|].
  unfold hstack. simpl fmap. cbv beta iota.
  rewrite (fill_startindex_eq n (a :: l) Hn). simpl.
  eexists. split; [done|]. simpl. repeat split; try done.
  apply (ones_concat (a :: l)).
Qed.

End Init.

Section InitProperties.
Context {R : Type} (rone : R).

(** A supplied list of class weights that is not one vector per type,
    or holds a vector that is not one weight per state, is refused
    with an error of the schema. *)
Lemma init_class_weight_bad n (states : list N) cw :
  length states = n →
  (truthy cw = true ∧ length (default [] cw) ≠ n) ∨
  (∃ i c st, default [] cw !! i = Some c ∧ states !! i = Some st ∧
             N.of_nat (length c) ≠ st) →
  ∃ e, init_class_weight rone n states cw = Raise e ∧
       kind_of e = Some InvalidSchema.
Proof.
  intros Hn Hbad. unfold init_class_weight.
  destruct (truthy cw) eqn:Htruthy; cycle 1.
  { exfalso. destruct Hbad as [[? _] | (i & c & st & Hc & _)]; [done|].
    destruct cw as [[|]|]; simplify_eq/=. }
  set (cwl := default [] cw) in *. unfold raise_if.
  case_bool_decide as Hlen; simpl.
  { eexists. split; [done|]. done. }
  destruct Hbad as [[_ ?] | (i & c & st & Hc & Hst & Hne)]; [done|].
  set (body := λ '(i, n_states), _).
  destruct (for_ (enumerate states) body) as [[]|e] eqn:Hloop; simpl.
  - exfalso. apply for_Ok in Hloop.
    eapply (Forall_lookup_1 _ _ i (i, st)) in Hloop; cycle 1.
    { by apply enumerate_lookup. }
    unfold body, getitem, raise_if in Hloop. rewrite Hc in Hloop.
    simpl in Hloop. by rewrite bool_decide_true in Hloop.
  - exists e. split; [done|].
    apply for_Raise in Hloop as (l1 & [j stj] & l2 & Hsplit & _ & Hraise).
    unfold body, getitem, raise_if in Hraise.
    assert (enumerate states !! length l1 = Some (j, stj)) as Hj.
    { rewrite Hsplit. by apply list_lookup_middle. }
    apply enumerate_lookup in Hj as [Hj1 Hj2]. simpl in *.
    apply lookup_lt_Some in Hj2.
    destruct (lookup_lt_is_Some_2 cwl j) as [cj Hcj]; [lia|].
    rewrite Hcj in Hraise. simpl in Hraise.
    case_bool_decide; by simplify_eq.
Qed.

(** C10 (as amended): with [l_n_features = None] the constructor never
    returns: when [len(l_n_states) != n_types] it raises the
    [ValueError] of that check, and otherwise the [TypeError] of
    [sum(None)], whatever the other arguments are. *)
Theorem init_without_features n states im cw :
  __init__ rone n states None im cw
  = if bool_decide (length states = n) then Raise TypeError
    else Raise (ValueError MsgStatesPerType).
Proof.
  unfold __init__, raise_if.
  case_bool_decide as Hn.
  - by rewrite bool_decide_false by (intros ?; done).
  - by rewrite bool_decide_true by done.
Qed.

(** C9 (as amended): with [l_n_features] supplied, the constructor
    raises a [ValueError] of the schema (InvalidSchema), and so returns
    no schema, whenever [len(l_n_states) != n_types], or
    [len(l_n_features) != n_types], or class weights are supplied for
    some types but not for [n_types] of them, or a supplied vector of
    class weights has not one weight per state of its type.  When
    there is at least one type, both lists have length [n_types] and
    class weights are omitted, the constructor returns a schema whose
    concatenated class-weight vector is all ones, of length the total
    number of states. *)
Theorem init_schema_checks n (states f : list N) im cw :
  (length states ≠ n ∨ length f ≠ n ∨
   (truthy cw = true ∧ length (default [] cw) ≠ n) ∨
   (∃ i c st, default [] cw !! i = Some c ∧ states !! i = Some st ∧
              N.of_nat (length c) ≠ st) →
   ∃ e, __init__ rone n states (Some f) im cw = Raise e ∧
        kind_of e = Some InvalidSchema)
  ∧
  (0 < n → length states = n → length f = n → truthy cw = false →
   ∃ s, __init__ rone n states (Some f) im cw = Ok s ∧
        _n_states s = Py.sum states ∧
        class_weight s = replicate (N.to_nat (_n_states s)) rone ∧
        length (class_weight s) = N.to_nat (_n_states s)).
Proof.
  split.
  - intros Hbad. unfold __init__, raise_if.
    destruct (decide (length states = n)) as [Hn|Hn]; cycle 1.
    { rewrite (bool_decide_true (length states ≠ n)) by done.
      eexists; split; reflexivity. }
    rewrite (bool_decide_false (length states ≠ n)) by (intros ?; done).
    destruct (decide (length f = n)) as [Hf|Hf]; cycle 1.
    { rewrite (bool_decide_true (length f ≠ n)) by done.
      eexists; split; reflexivity. }
    rewrite (bool_decide_false (length f ≠ n)) by (intros ?; done).
    simpl.
    destruct Hbad as [?|[?|Hbad]]; [done..|].
    destruct (init_class_weight_bad n states cw Hn Hbad) as (e & -> & He).
    by exists e.
  - intros Hpos Hn Hf Hcw.
    destruct (init_default_Ok rone n states f im cw)
      as (s & Hs & _ & _ & _ & Hst & Hw); [done..|].
    exists s. rewrite Hst, Hw. by rewrite length_replicate.
Qed.

End InitProperties.

(** ** Prefix sums tile *)

Lemma sum_take_mono (e : list N) p q :
  p ≤ q → (Py.sum (take p e) ≤ Py.sum (take q e))%N.
Proof.
  intros Hpq. replace (take p e) with (take p (take q e)).
  - apply sum_take_le.
  - rewrite take_take. f_equal. lia.
Qed.

Lemma prefix_bound (e : list N) p x :
  e !! p = Some x → (Py.sum (take p e) + x ≤ Py.sum e)%N.
Proof.
  intros H. rewrite <- (sum_take_S _ _ _ H). apply sum_take_le.
Qed.

(** Every value below the total lies in the range of some element. *)
Lemma prefix_cover (e : list N) : ∀ k : N,
  (k < Py.sum e)%N →
  ∃ p x, e !! p = Some x ∧
         (Py.sum (take p e) ≤ k < Py.sum (take p e) + x)%N.
Proof.
  induction e as [|a e IH]; intros k Hk.
  - rewrite sum_nil in Hk. lia.
  - rewrite sum_cons in Hk. destruct (decide (k < a)%N) as [Hlt|Hge].
    + exists 0, a. simpl. rewrite sum_nil. split; [done | lia].
    + destruct (IH (k - a)%N) as (p & x & Hp & Hr); [lia|].
      exists (S p), x. simpl. rewrite sum_cons. split; [done | lia].
Qed.

(** The ranges of two different elements share no value. *)
Lemma prefix_disjoint (e : list N) p q x y (k : N) :
  e !! p = Some x → e !! q = Some y →
  (Py.sum (take p e) ≤ k < Py.sum (take p e) + x)%N →
  (Py.sum (take q e) ≤ k < Py.sum (take q e) + y)%N →
  p = q.
Proof.
  intros Hp Hq Hkp Hkq.
  destruct (Nat.lt_trichotomy p q) as [Hlt|[->|Hlt]]; [|done|].
  - pose proof (sum_take_mono e (S p) q Hlt) as Hm.
    rewrite (sum_take_S _ _ _ Hp) in Hm. lia.
  - pose proof (sum_take_mono e (S q) p Hlt) as Hm.
    rewrite (sum_take_S _ _ _ Hq) in Hm. lia.
Qed.

(** ** Pairs of types in row-major order *)

Lemma pairs_length {A B C} (f : A → B → C) (l : list A) (k : list B) :
  length (a ← l; b ← k; [f a b]) = length l * length k.
Proof.
  induction l as [|a l IH]; [done|]. csimpl.
  rewrite length_app, bind_singleton_fmap, length_fmap, IH. lia.
Qed.

Lemma pairs_lookup {A B C} (f : A → B → C) (k : list B) :
  ∀ (l : list A) t1 t2 a b,
    l !! t1 = Some a → k !! t2 = Some b →
    (a ← l; b ← k; [f a b]) !! (t1 * length k + t2) = Some (f a b).
Proof.
  induction l as [|a' l IH]; intros t1 t2 a b H1 H2; [done|]. csimpl.
  rewrite bind_singleton_fmap.
  pose proof (lookup_lt_Some _ _ _ H2) as Hlt.
  destruct t1 as [|t1]; simpl in H1.
  - injection H1 as ->. rewrite lookup_app_l by (rewrite length_fmap; lia).
    simpl. by rewrite list_lookup_fmap, H2.
  - rewrite lookup_app_r by (rewrite length_fmap; lia).
    rewrite length_fmap.
    replace (S t1 * length k + t2 - length k)
      with (t1 * length k + t2) by lia.
    by apply IH.
Qed.

Lemma iter_pairs_lookup n t1 t2 :
  t1 < n → t2 < n → iter_pairs n !! (t1 * n + t2) = Some (t1, t2).
Proof.
  intros H1 H2.
  pose proof (pairs_lookup pair (seq 0 n) (seq 0 n) t1 t2 t1 t2) as H.
  rewrite length_seq in H. apply H; by apply lookup_seq_lt.
Qed.

Lemma iter_pairs_lookup_inv n p a b :
  iter_pairs n !! p = Some (a, b) → p = a * n + b ∧ a < n ∧ b < n.
Proof.
  intros Hp. pose proof (lookup_lt_Some _ _ _ Hp) as Hlt.
  unfold iter_pairs in Hlt. rewrite pairs_length, !length_seq in Hlt.
  assert (0 < n) as Hn by (destruct n; lia).
  assert (p `div` n < n) as H1 by (apply Nat.Div0.div_lt_upper_bound; lia).
  assert (p `mod` n < n) as H2 by (apply Nat.mod_upper_bound; lia).
  assert (p = p `div` n * n + p `mod` n) as Hdm.
  { rewrite (Nat.div_mod_eq p n) at 1. lia. }
  pose proof (iter_pairs_lookup n _ _ H1 H2) as Hl.
  rewrite <- Hdm in Hl. rewrite Hp in Hl. injection Hl as -> ->. done.
Qed.

(** ** The products of state counts, pair by pair *)

Lemma edge_states_length (l states : list N) :
  length (m1 ← l; m2 ← states; [(m1 * m2)%N]) = length l * length states.
Proof. apply pairs_length. Qed.

Lemma edge_states_lookup (states : list N) : ∀ (l : list N) t1 t2 n1 n2,
  l !! t1 = Some n1 → states !! t2 = Some n2 →
  (m1 ← l; m2 ← states; [(m1 * m2)%N]) !! (t1 * length states + t2)
  = Some (n1 * n2)%N.
Proof. apply (pairs_lookup N.mul). Qed.

(** A position in the flat list is the position of one pair. *)
Lemma edge_states_position (states : list N) p x :
  edge_states states !! p = Some x →
  ∃ t1 t2 n1 n2,
    p = t1 * length states + t2 ∧
    states !! t1 = Some n1 ∧ states !! t2 = Some n2 ∧ x = (n1 * n2)%N.
Proof.
  intros Hp. pose proof (lookup_lt_Some _ _ _ Hp) as Hlt.
  unfold edge_states in Hlt. rewrite edge_states_length in Hlt.
  set (n := length states) in *.
  assert (0 < n) as Hn by (destruct n; lia).
  assert (p `div` n < n) as H1 by (apply Nat.Div0.div_lt_upper_bound; lia).
  assert (p `mod` n < n) as H2 by (apply Nat.mod_upper_bound; lia).
  destruct (lookup_lt_is_Some_2 states (p `div` n) H1) as [n1 Hn1].
  destruct (lookup_lt_is_Some_2 states (p `mod` n) H2) as [n2 Hn2].
  exists (p `div` n), (p `mod` n), n1, n2.
  assert (p = p `div` n * n + p `mod` n) as Hdm.
  { rewrite (Nat.div_mod_eq p n) at 1. lia. }
  repeat split; try done.
  pose proof (edge_states_lookup states states _ _ _ _ Hn1 Hn2) as Hl.
  fold n in Hl. rewrite <- Hdm in Hl. unfold edge_states in Hp.
  congruence.
Qed.

Lemma pair_position_inj n t1 t2 t1' t2' :
  t2 < n → t2' < n → t1 * n + t2 = t1' * n + t2' → t1 = t1' ∧ t2 = t2'.
Proof.
  intros H2 H2' Heq.
  destruct (Nat.lt_trichotomy t1 t1') as [Hlt|[->|Hlt]].
  - exfalso.
    assert ((t1 + 1) * n ≤ t1' * n) by (apply Nat.mul_le_mono_r; lia).
    lia.
  - lia.
  - exfalso.
    assert ((t1' + 1) * n ≤ t1 * n) by (apply Nat.mul_le_mono_r; lia).
    lia.
Qed.

(** ** The offsets of the pairs of types *)

Section EdgeOffsets.
Context {R : Type} (rone : R).

(** The table holds, at every pair, the low 32 bits of the sum of the
    products that come before the pair. *)
Lemma edge_pair_start_offset_eq (s : t R) t1 t2 :
  constructed rone s → t1 < n_types s → t2 < n_types s →
  edge_pair_start_offset s t1 t2
  = Ok (uint32 (edge_states_before (l_n_states s) t1 t2)).
Proof.
  intros (n & states & feats & im & cw & H) H1 H2.
  apply init_inv in H as (f & l_cw & c_w & -> & Hn & Hf & _ & _ & ->).
  simpl in *. unfold edge_pair_start_offset, getitem2, getitem. simpl.
  pose proof (startindex_rows_lookup states states 0%N t1 t2) as Hl.
  rewrite N.add_0_l in Hl. unfold edge_states_before, edge_states.
  destruct (startindex_rows states 0 states !! t1) as [row|];
    simpl in Hl; [|by discriminate Hl; lia].
  by rewrite Hl by lia.
Qed.

Lemma in_sub_range_inv (s : t R) t1 t2 k :
  constructed rone s →
  in_sub_range s t1 t2 k →
  ∃ n1 n2,
    t1 < n_types s ∧ t2 < n_types s ∧
    l_n_states s !! t1 = Some n1 ∧ l_n_states s !! t2 = Some n2 ∧
    let o := uint32 (edge_states_before (l_n_states s) t1 t2) in
    (o ≤ k < o + n1 * n2)%N.
Proof.
  intros Hs (o & n1 & n2 & Ho & Hn1 & Hn2 & Hk).
  destruct (constructed_lengths rone s Hs) as [Hlen _].
  pose proof (lookup_lt_Some _ _ _ Hn1) as Ht1.
  pose proof (lookup_lt_Some _ _ _ Hn2) as Ht2.
  rewrite Hlen in Ht1, Ht2.
  rewrite edge_pair_start_offset_eq in Ho by done.
  injection Ho as <-. by exists n1, n2.
Qed.

(** C7 (as amended): for a validly constructed schema whose offsets all
    fit the 32 bits of the table's entries, [edge_pair_start_offset[t1][t2]]
    is the sum of [states[i] * states[j]] over the pairs (i, j) before
    (t1, t2) in row-major order, and the sub-ranges
    [[offset, offset + states(t1) * states(t2))] tile
    [[0, total_edge_states)]: a value lies in some sub-range exactly
    when it is below the total, and then in the sub-range of one pair
    only. *)
Theorem edge_offsets_tile (s : t R) :
  constructed rone s →
  (∀ t1 t2, t1 < n_types s → t2 < n_types s →
            (edge_states_before (l_n_states s) t1 t2 < 2 ^ 32)%N) →
  (∀ t1 t2, t1 < n_types s → t2 < n_types s →
            edge_pair_start_offset s t1 t2
            = Ok (edge_states_before (l_n_states s) t1 t2)) ∧
  (∀ k, (k < Py.sum (l_n_edge_states s))%N ↔
        ∃ t1 t2, in_sub_range s t1 t2 k) ∧
  (∀ k t1 t2 t1' t2',
     in_sub_range s t1 t2 k → in_sub_range s t1' t2' k →
     t1 = t1' ∧ t2 = t2').
Proof.
  intros Hs Hfit.
  assert (∀ t1 t2, t1 < n_types s → t2 < n_types s →
            uint32 (edge_states_before (l_n_states s) t1 t2)
            = edge_states_before (l_n_states s) t1 t2) as Hsmall.
  { intros t1 t2 H1 H2. unfold uint32. apply N.mod_small. by apply Hfit. }
  destruct (constructed_lengths rone s Hs) as [Hlen _].
  assert (l_n_edge_states s = edge_states (l_n_states s)) as He.
  { destruct Hs as (n & states & feats & im & cw & H).
    by apply init_inv in H as (f & l_cw & c_w & -> & _ & _ & _ & _ & ->). }
  split; [|split].
  - intros t1 t2 H1 H2.
    rewrite edge_pair_start_offset_eq by done. by rewrite Hsmall.
  - intros k. rewrite He. split.
    + intros Hk. apply prefix_cover in Hk as (p & x & Hp & Hr).
      apply edge_states_position in Hp
        as (t1 & t2 & n1 & n2 & -> & Hn1 & Hn2 & ->).
      pose proof (lookup_lt_Some _ _ _ Hn1) as Ht1.
      pose proof (lookup_lt_Some _ _ _ Hn2) as Ht2.
      rewrite Hlen in Ht1, Ht2.
      exists t1, t2, (edge_states_before (l_n_states s) t1 t2), n1, n2.
      rewrite edge_pair_start_offset_eq, Hsmall by done. done.
    + intros (t1 & t2 & Hin).
      apply in_sub_range_inv in Hin
        as (n1 & n2 & Ht1 & Ht2 & Hn1 & Hn2 & Hr); [|done].
      simpl in Hr. rewrite Hsmall in Hr by done.
      pose proof (edge_states_lookup _ _ _ _ _ _ Hn1 Hn2) as Hp.
      apply prefix_bound in Hp. unfold edge_states_before in Hr.
      unfold edge_states in *. lia.
  - intros k t1 t2 t1' t2' Hin Hin'.
    apply in_sub_range_inv in Hin
      as (n1 & n2 & Ht1 & Ht2 & Hn1 & Hn2 & Hr); [|done].
    apply in_sub_range_inv in Hin'
      as (n1' & n2' & Ht1' & Ht2' & Hn1' & Hn2' & Hr'); [|done].
    simpl in Hr, Hr'. rewrite Hsmall in Hr, Hr' by done.
    pose proof (edge_states_lookup _ _ _ _ _ _ Hn1 Hn2) as Hp.
    pose proof (edge_states_lookup _ _ _ _ _ _ Hn1' Hn2') as Hp'.
    pose proof (prefix_disjoint _ _ _ _ _ k Hp Hp' Hr Hr') as Heq.
    apply (pair_position_inj (length (l_n_states s))); [lia..|done].
Qed.

End EdgeOffsets.

(** ** Minimum and maximum *)

Lemma foldl_min_lt (l : list Z) : ∀ a c,
  (foldl Z.min a l < c ↔ a < c ∨ Exists (λ v, v < c) l)%Z.
Proof.
  induction l as [|b l IH]; intros a c; simpl.
  - rewrite Exists_nil. tauto.
  - rewrite IH, Exists_cons.
    assert (a `min` b < c ↔ a < c ∨ b < c)%Z by lia. tauto.
Qed.

Lemma foldl_max_ge (l : list Z) : ∀ a c,
  (c ≤ foldl Z.max a l ↔ c ≤ a ∨ Exists (λ v, c ≤ v) l)%Z.
Proof.
  induction l as [|b l IH]; intros a c; simpl.
  - rewrite Exists_nil. tauto.
  - rewrite IH, Exists_cons.
    assert (c ≤ a `max` b ↔ c ≤ a ∨ c ≤ b)%Z by lia. tauto.
Qed.

Lemma py_min_Ok (l : list Z) :
  l ≠ [] →
  ∃ m, Py.min l = Ok m ∧ ∀ c, (m < c ↔ Exists (λ v, v < c) l)%Z.
Proof.
  destruct l as [|a l]; [done|]. intros _. eexists. split; [done|].
  intros c. rewrite foldl_min_lt, Exists_cons. tauto.
Qed.

Lemma py_max_Ok (l : list Z) :
  l ≠ [] →
  ∃ m, Py.max l = Ok m ∧ ∀ c, (c ≤ m ↔ Exists (λ v, c ≤ v) l)%Z.
Proof.
  destruct l as [|a l]; [done|]. intros _. eexists. split; [done|].
  intros c. rewrite foldl_max_ge, Exists_cons. tauto.
Qed.

Lemma np_min_Ok (l : list Z) :
  l ≠ [] →
  ∃ m, Np.min l = Ok m ∧ ∀ c, (m < c ↔ Exists (λ v, v < c) l)%Z.
Proof.
  destruct l as [|a l]; [done|]. intros _. eexists. split; [done|].
  intros c. rewrite foldl_min_lt, Exists_cons. tauto.
Qed.

Lemma np_max_Ok (l : list Z) :
  l ≠ [] →
  ∃ m, Np.max l = Ok m ∧ ∀ c, (c ≤ m ↔ Exists (λ v, c ≤ v) l)%Z.
Proof.
  destruct l as [|a l]; [done|]. intros _. eexists. split; [done|].
  intros c. rewrite foldl_max_ge, Exists_cons. tauto.
Qed.

(** ** Edge tables *)

Lemma bind_option_list_length {A B} (f : A → option B) (l : list A) :
  Forall (λ a, is_Some (f a)) l →
  length (a ← l; option_list (f a)) = length l.
Proof.
  induction 1 as [|a l [b Hb] _ IH]; [done|]. csimpl.
  rewrite Hb, length_app, IH. done.
Qed.

(** The columns of a table of [m] pairs. *)
Lemma column_shaped (e : ndarray Z) m j :
  shape e = [m; 2] → length (data e) = m * 2 → j < 2 →
  ∃ l, column e j = Ok l ∧ length l = m.
Proof.
  intros Hs Hd Hj. unfold column. rewrite Hs.
  rewrite bool_decide_true by done. eexists. split; [done|].
  rewrite bind_option_list_length, length_seq; [done|].
  apply Forall_forall. intros i [_ Hi]%elem_of_seq.
  apply lookup_lt_is_Some_2. lia.
Qed.

Lemma sources_shaped (e : ndarray Z) m :
  shape e = [m; 2] → length (data e) = m * 2 →
  column e 0 = Ok (sources e) ∧ length (sources e) = m.
Proof.
  intros Hs Hd. unfold sources.
  destruct (column_shaped e m 0 Hs Hd) as (l & -> & Hl); [lia|]. done.
Qed.

Lemma targets_shaped (e : ndarray Z) m :
  shape e = [m; 2] → length (data e) = m * 2 →
  column e 1 = Ok (targets e) ∧ length (targets e) = m.
Proof.
  intros Hs Hd. unfold targets.
  destruct (column_shaped e m 1 Hs Hd) as (l & -> & Hl); [lia|]. done.
Qed.

(** The check of one table's shape: it passes on [None] and on arrays of
    two dimensions and two columns, and only on these. *)
Lemma check_edge_shape_Ok edges :
  check_edge_shape edges = Ok () ↔
  match edges with
  | None => True
  | Some e => ∃ m, shape e = [m; 2]
  end.
Proof.
  destruct edges as [e|]; simpl; [|done].
  unfold raise_if, ndim, shape_at, getitem.
  destruct (shape e) as [|m [|c [|]]]; simpl; split; try done;
    try (by intros [? [=]]).
  - destruct (decide (c = 2)) as [->|Hc].
    + intros _. by exists m.
    + by rewrite bool_decide_true by done.
  - intros [? [= -> ->]]. by rewrite bool_decide_false by (intros ?; done).
Qed.

Lemma check_edge_shape_cases edges :
  check_edge_shape edges = Ok () ∨
  ∃ err, check_edge_shape edges = Raise err ∧
         kind_of err = Some StructuralMismatch.
Proof.
  destruct edges as [e|]; simpl; [|by left].
  unfold raise_if, ndim, shape_at, getitem.
  destruct (shape e) as [|m [|c [|]]]; simpl;
    try (right; eexists; split; reflexivity).
  case_bool_decide; [right; eexists; split; reflexivity | by left].
Qed.

(** ** The instance validator *)

Lemma for_cases {A} (P : exn → Prop) (l : list A) body :
  (∀ a, a ∈ l → body a = Ok () ∨ ∃ e, body a = Raise e ∧ P e) →
  for_ l body = Ok () ∨ ∃ e, for_ l body = Raise e ∧ P e.
Proof.
  intros H. destruct (for_ l body) as [[]|e] eqn:Hl; [by left|]. right.
  exists e. split; [done|].
  apply for_Raise in Hl as (l1 & a & l2 & -> & _ & Ha).
  destruct (H a) as [Hok|(e' & He' & HP)].
  - apply elem_of_app. right. by left.
  - congruence.
  - congruence.
Qed.

(** The loop raises at the first round that raises. *)
Lemma for_first_Raise {A} (l : list A) body p a e :
  l !! p = Some a →
  (∀ q b, q < p → l !! q = Some b → body b = Ok ()) →
  body a = Raise e →
  for_ l body = Raise e.
Proof.
  intros Hp Hbefore Ha. apply for_Raise.
  exists (take p l), a, (drop (S p) l). split; [|split; [|done]].
  - by rewrite take_drop_middle.
  - apply Forall_lookup_2. intros q b Hq.
    apply lookup_take_Some in Hq as [Hq Hlt]. by eapply Hbefore.
Qed.

Section Validator.
Context {R : Type}.
Implicit Types (s : t R) (x : instance R).

Lemma node_tables_fit_lookup s x typ :
  node_tables_fit s x → typ < n_types s →
  ∃ m, x0 x !! typ = Some (Some m) ∧ node_count x typ = nrows m ∧
       l_n_features s !! typ = Some (N.of_nat (ncols m)).
Proof.
  intros [Hlen Hfit] Htyp.
  destruct (lookup_lt_is_Some_2 (x0 x) typ) as [nf Hnf]; [lia|].
  destruct (Hfit typ nf Hnf) as (m & -> & Hf).
  exists m. unfold node_count. by rewrite Hnf.
Qed.

(** Once the node tables fit, what is left of [_check_size_x] are the
    two loops over the edge tables. *)
Lemma check_size_x_fit s x :
  node_tables_fit s x →
  _check_size_x s x
  = (for_ (x1 x) check_edge_shape;;
     for_ (iter_pairs (n_types s)) (λ '(typ1, typ2),
       check_edges_of_pair s x (x0 x) typ1 typ2);;
     Ok true).
Proof.
  intros [Hlen Hfit].
  unfold _check_size_x, _get_node_features, _get_edges, _iter_type_pairs.
  unfold raise_if at 1.
  rewrite bool_decide_false by (intros ?; done). simpl.
  match goal with
  | |- context [for_ (enumerate (x0 x)) ?b] => set (body := b)
  end.
  assert (for_ (enumerate (x0 x)) body = Ok ()) as ->; [|done].
  apply for_Ok, Forall_lookup_2. intros i [typ nf] Hi.
  apply enumerate_lookup in Hi as [Hi1 Hi2]. simpl in *. subst i.
  destruct (Hfit typ nf Hi2) as (m & -> & Hf).
  unfold body, check_features_of_type, getitem, raise_if. simpl.
  rewrite Hf. simpl.
  by rewrite bool_decide_false by (intros ?; done).
Qed.

(** A pair whose table is missing or has no edges passes. *)
Lemma check_edges_of_pair_none s x nfs typ1 typ2 edges :
  x1 x !! (typ1 * n_types s + typ2) = Some edges →
  (edges = None ∨ ∃ e, edges = Some e ∧ len e = Ok 0) →
  check_edges_of_pair s x nfs typ1 typ2 = Ok ().
Proof.
  intros Hl Hnone.
  unfold check_edges_of_pair, _get_edges_by_type, getitem.
  rewrite Hl. destruct Hnone as [->|(e & -> & Hlen)]; [done|].
  cbn [mbind result_bind]. by rewrite Hlen.
Qed.

(** A pair with edges passes or raises as [dangling_message] says. *)
Lemma check_edges_of_pair_some s x typ1 typ2 e :
  node_tables_fit s x → edge_tables_shaped s x →
  typ1 < n_types s → typ2 < n_types s →
  has_edges s x typ1 typ2 e →
  check_edges_of_pair s x (x0 x) typ1 typ2
  = match dangling_message x typ1 typ2 e with
    | Some m => Raise (ValueError m)
    | None => Ok ()
    end.
Proof.
  intros Hfit [_ Hshaped] H1 H2 [Hl Hlen].
  destruct (node_tables_fit_lookup s x typ1 Hfit H1) as (m1 & Hm1 & Hc1 & _).
  destruct (node_tables_fit_lookup s x typ2 Hfit H2) as (m2 & Hm2 & Hc2 & _).
  pose proof (Forall_lookup_1 _ _ _ _ Hshaped Hl) as (m & Hs & Hd).
  destruct (sources_shaped e m Hs Hd) as [Hsrc Hsrclen].
  destruct (targets_shaped e m Hs Hd) as [Htgt Htgtlen].
  assert (m ≠ 0) as Hm.
  { intros ->. apply Hlen. unfold len. by rewrite Hs. }
  destruct (py_min_Ok (sources e)) as (a1 & Ha1 & Ha1s).
  { intros Hnil. rewrite Hnil in Hsrclen. simpl in *. lia. }
  destruct (py_min_Ok (targets e)) as (a2 & Ha2 & Ha2s).
  { intros Hnil. rewrite Hnil in Htgtlen. simpl in *. lia. }
  destruct (py_max_Ok (sources e)) as (b1 & Hb1 & Hb1s).
  { intros Hnil. rewrite Hnil in Hsrclen. simpl in *. lia. }
  destruct (py_max_Ok (targets e)) as (b2 & Hb2 & Hb2s).
  { intros Hnil. rewrite Hnil in Htgtlen. simpl in *. lia. }
  unfold check_edges_of_pair, _get_edges_by_type, getitem.
  rewrite Hl. simpl. unfold len. rewrite Hs. simpl.
  rewrite bool_decide_false by done.
  rewrite Hsrc, Htgt. simpl. rewrite Ha1. simpl.
  unfold dangling_message, raise_if.
  destruct (decide (negative_endpoint e)) as [Hneg|Hneg].
  { case_bool_decide as Hlt; simpl; [done|].
    rewrite Ha2. simpl. rewrite bool_decide_true; [done|].
    destruct Hneg as [Hn|Hn]; [by apply Ha1s in Hn | by apply Ha2s]. }
  rewrite bool_decide_false; cycle 1.
  { intros Hlt. apply Hneg. left. by apply Ha1s. }
  rewrite Ha2. simpl. rewrite bool_decide_false; cycle 1.
  { intros Hlt. apply Hneg. right. by apply Ha2s. }
  simpl. rewrite Hb1, Hm1. simpl.
  destruct (decide (source_out_of_range x typ1 e)) as [Hout|Hout].
  { rewrite bool_decide_true; [done|].
    unfold source_out_of_range in Hout. rewrite Hc1 in Hout.
    apply Hb1s in Hout. lia. }
  rewrite bool_decide_false; cycle 1.
  { intros Hge. apply Hout. unfold source_out_of_range. rewrite Hc1.
    apply Hb1s. lia. }
  simpl. rewrite Hb2, Hm2. simpl.
  destruct (decide (target_out_of_range x typ2 e)) as [Hout2|Hout2].
  { rewrite bool_decide_true; [done|].
    unfold target_out_of_range in Hout2. rewrite Hc2 in Hout2.
    apply Hb2s in Hout2. lia. }
  rewrite bool_decide_false; [done|].
  intros Hge. apply Hout2. unfold target_out_of_range. rewrite Hc2.
  apply Hb2s. lia.
Qed.

Lemma dangling_message_kind x typ1 typ2 e m :
  dangling_message x typ1 typ2 e = Some m →
  kind_of (ValueError m) = Some DanglingEdge.
Proof.
  unfold dangling_message. intros H.
  repeat case_decide; by simplify_eq.
Qed.

(** With every endpoint an existing node, nothing is reported. *)
Lemma dangling_message_None s x typ1 typ2 e :
  has_edges s x typ1 typ2 e → endpoints_in_range s x typ1 typ2 →
  dangling_message x typ1 typ2 e = None.
Proof.
  intros He Hin. destruct (Hin e He) as [Hsrc Htgt].
  unfold dangling_message.
  rewrite decide_False; cycle 1.
  { intros [Hn|Hn]; apply Exists_exists in Hn as (v & Hv & Hlt).
    - eapply Forall_forall in Hsrc; [|done]. simpl in Hsrc. lia.
    - eapply Forall_forall in Htgt; [|done]. simpl in Htgt. lia. }
  rewrite decide_False; cycle 1.
  { intros Hn. apply Exists_exists in Hn as (v & Hv & Hlt).
    eapply Forall_forall in Hsrc; [|done]. simpl in Hsrc. lia. }
  rewrite decide_False; [done|].
  intros Hn. apply Exists_exists in Hn as (v & Hv & Hlt).
  eapply Forall_forall in Htgt; [|done]. simpl in Htgt. lia.
Qed.

(** Every pair of types either has edges or passes trivially. *)
Lemma pair_cases s x typ1 typ2 :
  edge_tables_shaped s x → typ1 < n_types s → typ2 < n_types s →
  (∃ e, has_edges s x typ1 typ2 e) ∨
  (∃ edges, x1 x !! (typ1 * n_types s + typ2) = Some edges ∧
            (edges = None ∨ ∃ e, edges = Some e ∧ len e = Ok 0)).
Proof.
  intros [Hcount Hshaped] H1 H2.
  destruct (lookup_lt_is_Some_2 (x1 x) (typ1 * n_types s + typ2))
    as [edges Hl].
  { assert ((typ1 + 1) * n_types s ≤ n_types s * n_types s)
      by (apply Nat.mul_le_mono_r; lia). lia. }
  destruct edges as [e|]; [|right; exists None; by auto].
  pose proof (Forall_lookup_1 _ _ _ _ Hshaped Hl) as (m & Hs & Hd).
  destruct (decide (m = 0)) as [->|Hm].
  - right. exists (Some e). split; [done|]. right. exists e.
    split; [done|]. unfold len. by rewrite Hs.
  - left. exists e. split; [done|]. unfold len. rewrite Hs.
    intros [=]. done.
Qed.

(** The round of one pair passes or raises a dangling-edge error. *)
Lemma check_edges_of_pair_cases s x typ1 typ2 :
  node_tables_fit s x → edge_tables_shaped s x →
  typ1 < n_types s → typ2 < n_types s →
  check_edges_of_pair s x (x0 x) typ1 typ2 = Ok () ∨
  ∃ err, check_edges_of_pair s x (x0 x) typ1 typ2 = Raise err ∧
         kind_of err = Some DanglingEdge.
Proof.
  intros Hfit Hshaped H1 H2.
  destruct (pair_cases s x typ1 typ2 Hshaped H1 H2)
    as [[e He]|(edges & Hl & Hnone)].
  - rewrite (check_edges_of_pair_some s x typ1 typ2 e) by done.
    destruct (dangling_message x typ1 typ2 e) as [m|] eqn:Hm; [|by left].
    right. eexists. split; [done|]. by eapply dangling_message_kind.
  - left. by eapply check_edges_of_pair_none.
Qed.

End Validator.

Section ValidatorProperties.
Context {R : Type}.
Implicit Types (s : t R) (x : instance R).

(** [_check_size_x] returns [True] exactly when each of its four
    checks passes. *)
Lemma check_size_x_Ok s x :
  _check_size_x s x = Ok true ↔
  length (x0 x) = n_types s ∧
  for_ (enumerate (x0 x)) (λ '(typ, nf),
    check_features_of_type s typ nf) = Ok () ∧
  for_ (x1 x) check_edge_shape = Ok () ∧
  for_ (iter_pairs (n_types s)) (λ '(typ1, typ2),
    check_edges_of_pair s x (x0 x) typ1 typ2) = Ok ().
Proof.
  unfold _check_size_x, _get_node_features, _get_edges, _iter_type_pairs.
  unfold raise_if.
  destruct (decide (length (x0 x) = n_types s)) as [Hlen|Hlen]; cycle 1.
  { rewrite bool_decide_true by done. simpl. split; [done|]. tauto. }
  rewrite bool_decide_false by (intros ?; done). simpl.
  destruct (for_ (enumerate (x0 x)) _) as [[]|]; simpl;
    [|split; [done | by intros (_ & [=] & _)]].
  destruct (for_ (x1 x) check_edge_shape) as [[]|]; simpl;
    [|split; [done | by intros (_ & _ & [=] & _)]].
  destruct (for_ (iter_pairs (n_types s)) _) as [[]|]; simpl;
    [|split; [done | by intros (_ & _ & _ & [=])]].
  done.
Qed.

(** The round of a pair reads the instance's edge tables at the
    pair's position only. *)
Lemma check_edges_of_pair_ext s x x' nfs typ1 typ2 :
  x1 x !! (typ1 * n_types s + typ2) = x1 x' !! (typ1 * n_types s + typ2) →
  check_edges_of_pair s x nfs typ1 typ2
  = check_edges_of_pair s x' nfs typ1 typ2.
Proof.
  intros H. unfold check_edges_of_pair, _get_edges_by_type, getitem.
  by rewrite H.
Qed.

(** C5: an instance that has one node-feature table per type with the
    declared number of columns, a well-shaped edge table (or none)
    for every pair of types, and every edge endpoint in the range of
    its type's nodes, is accepted: [_check_size_x] returns [True] and
    raises nothing.  (The validator is a function of the schema and
    the instance; the source assigns to neither.) *)
Theorem check_size_x_accepts s x :
  node_tables_fit s x →
  edge_tables_shaped s x →
  (∀ typ1 typ2, typ1 < n_types s → typ2 < n_types s →
                endpoints_in_range s x typ1 typ2) →
  _check_size_x s x = Ok true.
Proof.
  intros Hfit Hshaped Hin. rewrite check_size_x_fit by done.
  assert (for_ (x1 x) check_edge_shape = Ok ()) as ->.
  { apply for_Ok. destruct Hshaped as [_ Hsh].
    eapply Forall_impl; [exact Hsh|].
    intros [e|] He; apply check_edge_shape_Ok; [|done].
    destruct He as (m & Hs & _). by exists m. }
  simpl.
  match goal with
  | |- context [for_ _ ?b] => set (body := b)
  end.
  assert (for_ (iter_pairs (n_types s)) body = Ok ()) as ->; [|done].
  apply for_Ok, Forall_lookup_2. intros p [typ1 typ2] Hp.
  apply iter_pairs_lookup_inv in Hp as (_ & H1 & H2). unfold body.
  destruct (pair_cases s x typ1 typ2 Hshaped H1 H2)
    as [[e He]|(edges & Hl & Hnone)].
  - rewrite (check_edges_of_pair_some s x typ1 typ2 e) by done.
    by rewrite (dangling_message_None s x typ1 typ2 e) by auto.
  - by eapply check_edges_of_pair_none.
Qed.

(** C6 (as amended): in an instance that [_check_size_x] accepts, the
    edge table of any pair may be replaced by [None] or by an empty
    table of shape (0, 2): the instance is still accepted, so such a
    table raises neither a shape error nor a dangling-edge error.  The
    shape is required of every table that is present, empty or not:
    where the node tables fit and some table is not of two dimensions
    and two columns, [_check_size_x] raises a shape error
    (StructuralMismatch). *)
Theorem check_size_x_missing_or_empty s x k edges e :
  (_check_size_x s x = Ok true →
   edges = None ∨ (∃ e0, edges = Some e0 ∧ shape e0 = [0; 2]) →
   _check_size_x s (with_edge_table x k edges) = Ok true)
  ∧
  (node_tables_fit s x →
   x1 x !! k = Some (Some e) → ¬ (∃ m, shape e = [m; 2]) →
   ∃ err, _check_size_x s x = Raise err ∧
          kind_of err = Some StructuralMismatch).
Proof.
  split.
  - intros Hok Hedges.
    apply check_size_x_Ok in Hok as (Hlen & Hcols & Hshapes & Hpairs).
    apply for_Ok in Hshapes, Hpairs.
    apply check_size_x_Ok. simpl. repeat split; try done.
    + apply for_Ok. destruct (decide (k < length (x1 x))) as [Hk|Hk].
      * apply Forall_insert; [done|].
        apply check_edge_shape_Ok.
        destruct Hedges as [->|(e0 & -> & Hs)]; [done|]. by exists 0.
      * by rewrite list_insert_ge by lia.
    + apply for_Ok, Forall_lookup_2. intros p [typ1 typ2] Hp.
      pose proof (Forall_lookup_1 _ _ _ _ Hpairs Hp) as Hpair.
      simpl in Hpair.
      destruct (decide (k = typ1 * n_types s + typ2 ∧ k < length (x1 x)))
        as [[-> Hk]|Hne].
      * eapply check_edges_of_pair_none.
        { simpl. by apply list_lookup_insert_eq. }
        destruct Hedges as [->|(e0 & -> & Hs)]; [by left|].
        right. exists e0. split; [done|]. unfold len. by rewrite Hs.
      * rewrite <- Hpair. symmetry. apply check_edges_of_pair_ext. simpl.
        destruct (decide (k < length (x1 x))) as [Hk|Hk].
        -- rewrite list_lookup_insert_ne; [done|]. intros ->. tauto.
        -- by rewrite list_insert_ge by lia.
  - intros Hfit Hk Hbad. rewrite check_size_x_fit by done.
    destruct (for_cases (λ err, kind_of err = Some StructuralMismatch)
                (x1 x) check_edge_shape) as [Hok|(err & -> & Herr)].
    + intros a _. apply check_edge_shape_cases.
    + exfalso. apply for_Ok in Hok.
      pose proof (Forall_lookup_1 _ _ _ _ Hok Hk) as He.
      by apply check_edge_shape_Ok in He.
    + by exists err.
Qed.

(** C8 (as amended): in an instance whose node tables fit and whose
    edge tables are well shaped, a pair (typ1, typ2) whose edges have
    a negative endpoint, a source that is not a node of typ1 or a
    target that is not a node of typ2 makes [_check_size_x] raise a
    dangling-edge error.  When no pair before (typ1, typ2) in
    row-major order has such an edge, the error names (typ1, typ2):
    it reports a negative endpoint first, without saying on which
    side, then a source, then a target out of range. *)
Theorem check_size_x_dangling s x typ1 typ2 e :
  node_tables_fit s x →
  edge_tables_shaped s x →
  typ1 < n_types s → typ2 < n_types s →
  has_edges s x typ1 typ2 e →
  negative_endpoint e ∨ source_out_of_range x typ1 e ∨
    target_out_of_range x typ2 e →
  (∃ err, _check_size_x s x = Raise err ∧
          kind_of err = Some DanglingEdge) ∧
  ((∀ a b, a < n_types s → b < n_types s →
           pair_before s a b typ1 typ2 → endpoints_in_range s x a b) →
   _check_size_x s x
   = Raise (ValueError
       (if decide (negative_endpoint e)
        then MsgEdgeNegativeIndex typ1 typ2
        else if decide (source_out_of_range x typ1 e)
        then MsgEdgeStartsNonExisting typ1 typ2
        else MsgEdgePointsNonExisting typ1 typ2))).
Proof.
  intros Hfit Hshaped H1 H2 He Hbad.
  rewrite check_size_x_fit by done.
  assert (for_ (x1 x) check_edge_shape = Ok ()) as ->.
  { apply for_Ok. destruct Hshaped as [_ Hsh].
    eapply Forall_impl; [exact Hsh|].
    intros [e'|] He'; apply check_edge_shape_Ok; [|done].
    destruct He' as (m & Hs & _). by exists m. }
  simpl.
  match goal with
  | |- context [for_ _ ?b] => set (body := b)
  end.
  pose proof (check_edges_of_pair_some s x typ1 typ2 e
                Hfit Hshaped H1 H2 He) as Hpair.
  assert (dangling_message x typ1 typ2 e
          = Some (if decide (negative_endpoint e)
                  then MsgEdgeNegativeIndex typ1 typ2
                  else if decide (source_out_of_range x typ1 e)
                  then MsgEdgeStartsNonExisting typ1 typ2
                  else MsgEdgePointsNonExisting typ1 typ2)) as Hmsg.
  { unfold dangling_message. repeat case_decide; try done. tauto. }
  rewrite Hmsg in Hpair.
  pose proof (iter_pairs_lookup (n_types s) typ1 typ2 H1 H2) as Hpos.
  split.
  - destruct (for_cases (λ err, kind_of err = Some DanglingEdge)
                (iter_pairs (n_types s)) body) as [Hok|(err & -> & Herr)].
    + intros [a b] Hab. apply list_elem_of_lookup in Hab as [p Hp].
      apply iter_pairs_lookup_inv in Hp as (_ & Ha & Hb).
      by apply check_edges_of_pair_cases.
    + exfalso. apply for_Ok in Hok.
      pose proof (Forall_lookup_1 _ _ _ _ Hok Hpos) as Hc.
      unfold body in Hc. congruence.
    + by exists err.
  - intros Hbefore.
    assert (for_ (iter_pairs (n_types s)) body = Raise (ValueError
              (if decide (negative_endpoint e)
               then MsgEdgeNegativeIndex typ1 typ2
               else if decide (source_out_of_range x typ1 e)
               then MsgEdgeStartsNonExisting typ1 typ2
               else MsgEdgePointsNonExisting typ1 typ2))) as ->; [|done].
    eapply for_first_Raise; [exact Hpos | | exact Hpair].
    intros q [a b] Hq Hqb.
    apply iter_pairs_lookup_inv in Hqb as (-> & Ha & Hb). unfold body.
    destruct (pair_cases s x a b Hshaped Ha Hb)
      as [[e' He']|(edges & Hl & Hnone)].
    + rewrite (check_edges_of_pair_some s x a b e') by done.
      rewrite (dangling_message_None s x a b e'); [done..|].
      by apply Hbefore.
    + by eapply check_edges_of_pair_none.
Qed.

End ValidatorProperties.

(** ** Loops that advance an offset *)

Lemma sum_counts_shift (l : list nat) a :
  foldl Nat.add a l = a + sum_counts l.
Proof.
  unfold sum_counts. revert a. induction l as [|b l IH]; intros a; simpl.
  - lia.
  - rewrite IH, (IH b). lia.
Qed.

Lemma sum_counts_cons a l : sum_counts (a :: l) = a + sum_counts l.
Proof. unfold sum_counts at 1. simpl. by rewrite sum_counts_shift. Qed.

Lemma sum_counts_app l k :
  sum_counts (l ++ k) = sum_counts l + sum_counts k.
Proof.
  induction l as [|a l IH]; simpl; [done|].
  rewrite !sum_counts_cons, IH. lia.
Qed.

Lemma sum_counts_take_S (l : list nat) k c :
  l !! k = Some c → sum_counts (take (S k) l) = sum_counts (take k l) + c.
Proof.
  intros H. rewrite (take_S_r _ _ _ H), sum_counts_app, sum_counts_cons.
  change (sum_counts []) with 0. lia.
Qed.

Section OffsetLoops.
Context {X : Type} (step : nat → X → result nat) (cnt : X → nat).

(** Every round passes: the loop ends with the offset advanced by all
    the counts. *)
Lemma for_acc_offsets_Ok (l : list X) : ∀ i,
  (∀ k a, l !! k = Some a →
     step (i + sum_counts (take k (cnt <$> l))) a
     = Ok (i + sum_counts (take k (cnt <$> l)) + cnt a)) →
  for_acc l i step = Ok (i + sum_counts (cnt <$> l)).
Proof.
  induction l as [|a l IH]; intros i H; csimpl.
  - unfold sum_counts. csimpl. f_equal. lia.
  - pose proof (H 0 a eq_refl) as H0. csimpl in H0.
    unfold sum_counts in H0 at 1 2. csimpl in H0.
    rewrite Nat.add_0_r in H0. rewrite H0. csimpl.
    rewrite IH.
    + rewrite sum_counts_cons. f_equal. lia.
    + intros k b Hk. pose proof (H (S k) b Hk) as HS. csimpl in HS.
      rewrite sum_counts_cons in HS.
      by rewrite !Nat.add_assoc in HS.
Qed.

(** The loop raises what the first round that raises does. *)
Lemma for_acc_offsets_Raise (l : list X) : ∀ i k a e,
  l !! k = Some a →
  (∀ j b, j < k → l !! j = Some b →
     step (i + sum_counts (take j (cnt <$> l))) b
     = Ok (i + sum_counts (take j (cnt <$> l)) + cnt b)) →
  step (i + sum_counts (take k (cnt <$> l))) a = Raise e →
  for_acc l i step = Raise e.
Proof.
  induction l as [|a0 l IH]; intros i k a e Hk Hbefore Hraise; [done|].
  destruct k as [|k]; csimpl in *.
  - injection Hk as ->. unfold sum_counts in Hraise. csimpl in Hraise.
    rewrite Nat.add_0_r in Hraise. by rewrite Hraise.
  - pose proof (Hbefore 0 a0 (Nat.lt_0_succ _) eq_refl) as H0.
    csimpl in H0. unfold sum_counts in H0 at 1 2. csimpl in H0.
    rewrite Nat.add_0_r in H0. rewrite H0. csimpl.
    apply (IH _ k a e Hk).
    + intros j b Hj Hb.
      pose proof (Hbefore (S j) b (proj1 (Nat.succ_lt_mono _ _) Hj) Hb)
        as HS.
      csimpl in HS. rewrite sum_counts_cons in HS.
      by rewrite !Nat.add_assoc in HS.
    + rewrite sum_counts_cons in Hraise.
      by rewrite !Nat.add_assoc in Hraise.
Qed.
End OffsetLoops.

Lemma slice_lookup {A} (l : list A) a c q :
  q < c → Py.slice l a (a + c) !! q = l !! (a + q).
Proof.
  intros Hq. unfold Py.slice.
  replace (a + c - a) with c by lia.
  by rewrite lookup_take_lt, lookup_drop by done.
Qed.

Lemma slice_length {A} (l : list A) a c :
  a + c ≤ length l → length (Py.slice l a (a + c)) = c.
Proof.
  intros H. unfold Py.slice.
  rewrite length_take, length_drop. lia.
Qed.

Lemma zip3_lookup {A B C} (la : list A) (lb : list B) (lc : list C)
    k a b c :
  zip3 la lb lc !! k = Some (a, b, c) ↔
  la !! k = Some a ∧ lb !! k = Some b ∧ lc !! k = Some c.
Proof.
  unfold zip3. rewrite !lookup_zip_with.
  destruct (la !! k), (lb !! k), (lc !! k); simpl;
    (split; [intros [=] | intros ([=] & [=] & [=])]); by subst.
Qed.

Lemma for_acc_offsets_Ok_inv {X} (step : nat → X → result nat)
    (cnt : X → nat) (l : list X) : ∀ i i',
  (∀ j a j', step j a = Ok j' → j' = j + cnt a) →
  for_acc l i step = Ok i' →
  ∀ k a, l !! k = Some a →
    step (i + sum_counts (take k (cnt <$> l))) a
    = Ok (i + sum_counts (take k (cnt <$> l)) + cnt a).
Proof.
  induction l as [|a0 l IH]; intros i i' Hstep Hl k a Hk; [done|].
  csimpl in Hl. apply bind_Ok in Hl as (i1 & H0 & Hl).
  pose proof (Hstep _ _ _ H0) as ->.
  destruct k as [|k]; csimpl in *.
  - injection Hk as ->. change (sum_counts []) with 0.
    by rewrite Nat.add_0_r.
  - rewrite sum_counts_cons, !Nat.add_assoc. by eapply IH.
Qed.

(** Every position below the total lies in the run of one type. *)
Lemma counts_cover (l : list nat) : ∀ p,
  p < sum_counts l →
  ∃ t c, l !! t = Some c ∧
         sum_counts (take t l) ≤ p < sum_counts (take t l) + c.
Proof.
  induction l as [|a l IH]; intros p Hp.
  - change (sum_counts []) with 0 in Hp. lia.
  - rewrite sum_counts_cons in Hp. destruct (decide (p < a)) as [Hlt|Hge].
    + exists 0, a. simpl. change (sum_counts []) with 0. split; [done | lia].
    + destruct (IH (p - a)) as (t & c & Ht & Hr); [lia|].
      exists (S t), c. simpl. rewrite sum_counts_cons. split; [done | lia].
Qed.

(** ** The label validator *)

Section Labels.
Context {R : Type} (rone : R).
Implicit Types (s : t R) (x : instance R) (Y : list Z).

(** The cleaned list of node tables has no [None]. *)
Lemma cleaned_lookup s x k nf :
  _get_node_features s x true !! k = Some nf → ∃ m, nf = Some m.
Proof.
  unfold _get_node_features. rewrite list_lookup_fmap.
  destruct (zip (x0 x) (l_n_features s) !! k) as [[[m|] f]|];
    intros [= <-]; by eexists.
Qed.

Lemma mapM_shape0 (l : list (option (matrix R))) :
  (∀ k nf, l !! k = Some nf → ∃ m, nf = Some m) →
  mapM shape0 l = Ok ((λ nf, from_option nrows 0 nf) <$> l).
Proof.
  induction l as [|nf l IH]; intros H; [done|].
  destruct (H 0 nf eq_refl) as [m ->].
  change (mapM shape0 (Some m :: l))
    with (b ← shape0 (Some m); k ← mapM shape0 l; Ok (b :: k)).
  rewrite IH; [done|]. intros k nf' Hk. by apply (H (S k)).
Qed.

Lemma cleaned_counts s x :
  mapM shape0 (_get_node_features s x true) = Ok (node_counts s x).
Proof. apply mapM_shape0, cleaned_lookup. Qed.

(** The rounds of the loop of [_check_size_xy], for a schema that
    [__init__] returned: one per cleaned node table. *)
Lemma label_rounds_lookup s x k typ nf st :
  constructed rone s →
  zip3 (seq 0 (n_types s)) (_get_node_features s x true) (l_n_states s)
    !! k = Some (typ, nf, st) ↔
  typ = k ∧ _get_node_features s x true !! k = Some nf ∧
  l_n_states s !! k = Some st.
Proof.
  intros Hs. destruct (constructed_lengths rone s Hs) as [Hst Hft].
  rewrite zip3_lookup. split.
  - intros (Hseq & Hnf & Hk). apply lookup_seq in Hseq as [-> _]. done.
  - intros (-> & Hnf & Hk). repeat split; try done.
    apply lookup_seq. split; [done|].
    apply lookup_lt_Some in Hk. lia.
Qed.

Lemma cleaned_length s x :
  constructed rone s →
  length (_get_node_features s x true) ≤ length (l_n_states s).
Proof.
  intros Hs. destruct (constructed_lengths rone s Hs) as [Hst Hft].
  unfold _get_node_features. rewrite length_fmap, length_zip_with. lia.
Qed.

Lemma label_rounds_counts s x :
  constructed rone s →
  (λ '(typ, nf, st), from_option nrows 0 nf)
    <$> zip3 (seq 0 (n_types s)) (_get_node_features s x true)
          (l_n_states s)
  = node_counts s x.
Proof.
  intros Hs. apply list_eq. intros k. unfold node_counts.
  rewrite !list_lookup_fmap.
  destruct (_get_node_features s x true !! k) as [nf|] eqn:Hnf.
  - pose proof (cleaned_length s x Hs) as Hlen.
    destruct (lookup_lt_is_Some_2 (l_n_states s) k) as [st Hst].
    { apply lookup_lt_Some in Hnf. lia. }
    assert (zip3 (seq 0 (n_types s)) (_get_node_features s x true)
              (l_n_states s) !! k = Some (k, nf, st)) as ->; [|done].
    by apply label_rounds_lookup.
  - destruct (zip3 _ _ _ !! k) as [[[typ nf] st]|] eqn:Hz; [|done].
    apply label_rounds_lookup in Hz as (_ & Hz & _); [|done].
    congruence.
Qed.

(** A round that passes advances the offset by the type's node
    count. *)
Lemma check_labels_of_type_Ok_inv s Y i typ nf st i' :
  check_labels_of_type s Y i typ nf st = Ok i' →
  i' = i + from_option nrows 0 nf.
Proof.
  unfold check_labels_of_type. intros H.
  apply bind_Ok in H as (c & Hc & H).
  destruct nf as [m|]; [|done]. injection Hc as <-.
  repeat (apply bind_Ok in H as (? & _ & H)).
  by injection H as <-.
Qed.

(** A run with a negative label: the round raises the [ValueError] of
    line 201. *)
Lemma check_labels_of_type_negative s Y i typ m st :
  Exists (λ v, v < 0)%Z (Py.slice Y i (i + nrows m)) →
  check_labels_of_type s Y i typ (Some m) st
  = Raise (ValueError (MsgNegativeLabel typ)).
Proof.
  intros Hneg. unfold check_labels_of_type. simpl.
  destruct (np_min_Ok (Py.slice Y i (i + nrows m))) as (a & -> & Ha).
  { intros Hnil. rewrite Hnil in Hneg. by apply Exists_nil in Hneg. }
  simpl. unfold raise_if. by rewrite bool_decide_true by (by apply Ha).
Qed.

(** An empty run: numpy cannot take its minimum. *)
Lemma check_labels_of_type_empty s Y i typ m st :
  Py.slice Y i (i + nrows m) = [] →
  check_labels_of_type s Y i typ (Some m) st
  = Raise (ValueError MsgZeroSizeReduction).
Proof.
  intros Hnil. unfold check_labels_of_type. simpl. by rewrite Hnil.
Qed.

(** A run that is not empty, with its bounds: the round passes when
    every label is within them, and raises [InconsistentLabel] when
    one is not negative but outside. *)
Lemma check_labels_of_type_bounds s Y i typ m st lo hi :
  _l_type_startindex s !! typ = Some lo →
  _l_type_startindex s !! (typ + 1) = Some hi →
  let run := Py.slice Y i (i + nrows m) in
  run ≠ [] →
  Forall (λ v, 0 ≤ v)%Z run →
  check_labels_of_type s Y i typ (Some m) st
  = if decide (Exists (λ v, v < Z.of_N lo)%Z run)
    then Raise (InconsistentLabel (MsgLabelsStartAt typ lo))
    else if decide (Exists (λ v, Z.of_N hi ≤ v)%Z run)
    then Raise (InconsistentLabel (MsgLabelsEndAt typ (Z.of_N hi - 1)))
    else Ok (i + nrows m).
Proof.
  intros Hlo Hhi run Hne Hpos. unfold check_labels_of_type. simpl.
  fold run.
  destruct (np_min_Ok run Hne) as (a & -> & Ha).
  destruct (np_max_Ok run Hne) as (b & -> & Hb).
  simpl. unfold raise_if, getitem.
  rewrite bool_decide_false; cycle 1.
  { intros Hlt. apply Ha, Exists_exists in Hlt as (v & Hv & Hlt).
    eapply Forall_forall in Hpos; [|done]. simpl in Hpos. lia. }
  simpl. rewrite Hlo. simpl.
  destruct (decide (Exists (λ v, v < Z.of_N lo)%Z run)) as [Hl|Hl].
  { by rewrite bool_decide_true by (by apply Ha). }
  rewrite bool_decide_false by (intros ?; by apply Hl, Ha).
  simpl. rewrite Hhi. simpl.
  destruct (decide (Exists (λ v, Z.of_N hi ≤ v)%Z run)) as [Hh|Hh].
  { rewrite bool_decide_true; [done|]. apply Hb in Hh. lia. }
  rewrite bool_decide_false; [done|].
  intros Hge. apply Hh, Hb. lia.
Qed.

End Labels.

Section LabelProperties.
Context {R : Type} (rone : R).
Implicit Types (s : t R) (x : instance R) (Y : list Z).

(** With one label per node, what is left of [_check_size_xy] is its
    loop over the types. *)
Lemma check_size_xy_loop s x Y :
  length Y = sum_counts (node_counts s x) →
  _check_size_xy s x (Some Y)
  = (for_acc (zip3 (seq 0 (n_types s)) (_get_node_features s x true)
                (l_n_states s)) 0
       (λ i_start '(typ, nf, n_states),
          check_labels_of_type s Y i_start typ nf n_states);;
     Ok (Some true)).
Proof.
  intros Hlen. unfold _check_size_xy. rewrite cleaned_counts. simpl.
  unfold raise_if. by rewrite bool_decide_false by (intros ?; done).
Qed.

Lemma slice_empty {A} (l : list A) a : Py.slice l a (a + 0) = [].
Proof. unfold Py.slice. by replace (a + 0 - a) with 0 by lia. Qed.

(** A run that is not empty is the run of a type the loop visits. *)
Lemma label_run_round s x Y typ :
  constructed rone s →
  label_run s x Y typ ≠ [] →
  ∃ m st,
    zip3 (seq 0 (n_types s)) (_get_node_features s x true)
      (l_n_states s) !! typ = Some (typ, Some m, st) ∧
    node_counts s x !! typ = Some (nrows m) ∧
    label_run s x Y typ
    = Py.slice Y (run_start s x typ) (run_start s x typ + nrows m).
Proof.
  intros Hs Hne. unfold label_run in *.
  destruct (node_counts s x !! typ) as [c|] eqn:Hc; simpl in *;
    [|by rewrite slice_empty in Hne].
  unfold node_counts in Hc. rewrite list_lookup_fmap in Hc.
  destruct (_get_node_features s x true !! typ) as [nf|] eqn:Hnf;
    [|done].
  destruct (cleaned_lookup s x typ nf Hnf) as [m ->].
  injection Hc as <-. simpl.
  destruct (lookup_lt_is_Some_2 (l_n_states s) typ) as [st Hst].
  { pose proof (cleaned_length rone s x Hs).
    apply lookup_lt_Some in Hnf. lia. }
  exists m, st. split; [|done]. by apply (label_rounds_lookup rone).
Qed.

(** The round of a type whose run is within its bounds passes. *)
Lemma check_labels_in_bounds s x Y typ m st :
  node_counts s x !! typ = Some (nrows m) →
  run_in_bounds s x Y typ →
  check_labels_of_type s Y (run_start s x typ) typ (Some m) st
  = Ok (run_start s x typ + nrows m).
Proof.
  intros Hc (lo & hi & Hlo & Hhi & Hne & Hall).
  unfold label_run in Hne, Hall. rewrite Hc in Hne, Hall. simpl in *.
  rewrite (check_labels_of_type_bounds s Y _ typ m st lo hi); try done.
  - rewrite decide_False; cycle 1.
    { intros (v & Hv & Hlt)%Exists_exists.
      eapply Forall_forall in Hall; [|done]. simpl in Hall. lia. }
    rewrite decide_False; [done|].
    intros (v & Hv & Hlt)%Exists_exists.
    eapply Forall_forall in Hall; [|done]. simpl in Hall. lia.
  - eapply Forall_impl; [done|]. intros v Hv. simpl in Hv. lia.
Qed.

(** C4 (as amended): a label vector of the right length that holds a
    negative label is rejected, [_check_size_xy] raises.  For the
    negative label itself the error is the [ValueError] "Got a
    negative label for type t", not [InconsistentLabel]: it is what is
    raised when the run of type [t] holds a negative label and the
    runs of the types before [t] are not empty and within their
    bounds. *)
Theorem check_size_xy_negative s x Y :
  constructed rone s →
  length Y = sum_counts (node_counts s x) →
  Exists (λ v, v < 0)%Z Y →
  (∃ e, _check_size_xy s x (Some Y) = Raise e) ∧
  (∀ typ,
     Exists (λ v, v < 0)%Z (label_run s x Y typ) →
     (∀ typ', typ' < typ → run_in_bounds s x Y typ') →
     _check_size_xy s x (Some Y)
     = Raise (ValueError (MsgNegativeLabel typ))).
Proof.
  intros Hs Hlen Hneg. rewrite check_size_xy_loop by done.
  set (rounds := zip3 _ _ _).
  set (step := λ i_start '(typ, nf, n_states),
                 check_labels_of_type s Y i_start typ nf n_states).
  set (cnt := (λ '(typ, nf, st), from_option nrows 0 nf)
              : nat * option (matrix R) * N → nat).
  assert (cnt <$> rounds = node_counts s x) as Hcnt
    by apply (label_rounds_counts rone s x Hs).
  assert (∀ typ, Exists (λ v, v < 0)%Z (label_run s x Y typ) →
            ∃ m st, rounds !! typ = Some (typ, Some m, st) ∧
              step (0 + sum_counts (take typ (cnt <$> rounds)))
                (typ, Some m, st)
              = Raise (ValueError (MsgNegativeLabel typ))) as Hround.
  { intros typ Hex.
    destruct (label_run_round s x Y typ Hs) as (m & st & Hl & Hc & Hrun).
    { intros Hnil. rewrite Hnil in Hex. by apply Exists_nil in Hex. }
    exists m, st. split; [done|]. rewrite Hcnt. simpl.
    apply check_labels_of_type_negative.
    fold (run_start s x typ). by rewrite <- Hrun. }
  split.
  - apply Exists_exists in Hneg as (v & Hv & Hlt).
    apply list_elem_of_lookup in Hv as [p Hp].
    pose proof (lookup_lt_Some _ _ _ Hp) as Hplt. rewrite Hlen in Hplt.
    apply counts_cover in Hplt as (typ & c & Hc & Hr).
    assert (Exists (λ v, v < 0)%Z (label_run s x Y typ)) as Hex.
    { apply Exists_exists. exists v. split; [|done].
      apply list_elem_of_lookup.
      exists (p - sum_counts (take typ (node_counts s x))).
      unfold label_run, run_start. rewrite Hc. simpl.
      rewrite slice_lookup by lia. rewrite <- Hp. f_equal. lia. }
    destruct (Hround typ Hex) as (m & st & Hl & Hraise).
    destruct (for_acc rounds 0 step) as [i'|e] eqn:Hloop;
      [|by exists e].
    exfalso.
    pose proof (for_acc_offsets_Ok_inv step cnt rounds 0 i') as Hinv.
    rewrite (Hinv) in Hraise; [done| |done..].
    intros j [[typ' nf] st'] j' Hj.
    by apply check_labels_of_type_Ok_inv in Hj.
  - intros typ Hex Hbefore.
    destruct (Hround typ Hex) as (m & st & Hl & Hraise).
    assert (for_acc rounds 0 step
            = Raise (ValueError (MsgNegativeLabel typ))) as ->; [|done].
    eapply (for_acc_offsets_Raise step cnt); [exact Hl | | exact Hraise].
    intros j [[typ' nf] st'] Hj Hjl. rewrite Hcnt.
    apply (label_rounds_lookup rone) in Hjl as (-> & Hnf & Hst);
      [|done].
    destruct (cleaned_lookup s x j nf Hnf) as [mj ->].
    assert (node_counts s x !! j = Some (nrows mj)) as Hcj.
    { unfold node_counts. by rewrite list_lookup_fmap, Hnf. }
    simpl. by apply check_labels_in_bounds, Hbefore.
Qed.

(** A type without a node: no label vector of the right length is
    accepted.  When the runs of the types before it are not empty and
    within their bounds, the error is numpy's, for the minimum of an
    empty run. *)
Theorem check_size_xy_empty_type s x Y typ :
  constructed rone s →
  length Y = sum_counts (node_counts s x) →
  node_counts s x !! typ = Some 0 →
  (∃ e, _check_size_xy s x (Some Y) = Raise e) ∧
  ((∀ typ', typ' < typ → run_in_bounds s x Y typ') →
   _check_size_xy s x (Some Y) = Raise (ValueError MsgZeroSizeReduction)).
Proof.
  intros Hs Hlen Hc. rewrite check_size_xy_loop by done.
  set (rounds := zip3 _ _ _).
  set (step := λ i_start '(typ, nf, n_states),
                 check_labels_of_type s Y i_start typ nf n_states).
  set (cnt := (λ '(typ, nf, st), from_option nrows 0 nf)
              : nat * option (matrix R) * N → nat).
  assert (cnt <$> rounds = node_counts s x) as Hcnt
    by apply (label_rounds_counts rone s x Hs).
  assert (∃ m st, rounds !! typ = Some (typ, Some m, st) ∧
            step (0 + sum_counts (take typ (cnt <$> rounds)))
              (typ, Some m, st)
            = Raise (ValueError MsgZeroSizeReduction))
    as (m & st & Hl & Hraise).
  { pose proof Hc as Hc'. unfold node_counts in Hc'.
    rewrite list_lookup_fmap in Hc'.
    destruct (_get_node_features s x true !! typ) as [nf|] eqn:Hnf;
      [|done].
    destruct (cleaned_lookup s x typ nf Hnf) as [m ->].
    injection Hc' as Hm. simpl in Hm.
    destruct (lookup_lt_is_Some_2 (l_n_states s) typ) as [st Hst].
    { pose proof (cleaned_length rone s x Hs).
      apply lookup_lt_Some in Hnf. lia. }
    exists m, st. split; [by apply (label_rounds_lookup rone)|].
    simpl. apply check_labels_of_type_empty. rewrite Hm.
    apply slice_empty. }
  split.
  - destruct (for_acc rounds 0 step) as [i'|e] eqn:Hloop; [|by exists e].
    exfalso.
    pose proof (for_acc_offsets_Ok_inv step cnt rounds 0 i') as Hinv.
    rewrite Hinv in Hraise; [done| |done..].
    intros j [[typ' nf] st'] j' Hj.
    by apply check_labels_of_type_Ok_inv in Hj.
  - intros Hbefore.
    assert (for_acc rounds 0 step
            = Raise (ValueError MsgZeroSizeReduction)) as ->; [|done].
    eapply (for_acc_offsets_Raise step cnt); [exact Hl | | exact Hraise].
    intros j [[typ' nf] st'] Hj Hjl. rewrite Hcnt.
    apply (label_rounds_lookup rone) in Hjl as (-> & Hnf & Hst); [|done].
    destruct (cleaned_lookup s x j nf Hnf) as [mj ->].
    assert (node_counts s x !! j = Some (nrows mj)) as Hcj.
    { unfold node_counts. by rewrite list_lookup_fmap, Hnf. }
    simpl. by apply check_labels_in_bounds, Hbefore.
Qed.

End LabelProperties.

Lemma for_acc_offsets_Raise_inv {X} (step : nat → X → result nat)
    (cnt : X → nat) (l : list X) : ∀ i e,
  (∀ j a j', step j a = Ok j' → j' = j + cnt a) →
  for_acc l i step = Raise e →
  ∃ k a, l !! k = Some a ∧
         step (i + sum_counts (take k (cnt <$> l))) a = Raise e.
Proof.
  induction l as [|a0 l IH]; intros i e Hstep Hl; [done|].
  csimpl in Hl. apply bind_Raise in Hl as [H0|(i1 & H0 & Hl)].
  - exists 0, a0. split; [done|]. csimpl. change (sum_counts []) with 0.
    by rewrite Nat.add_0_r.
  - pose proof (Hstep _ _ _ H0) as ->.
    destruct (IH _ _ Hstep Hl) as (k & a & Hk & Hraise).
    exists (S k), a. split; [done|]. csimpl.
    by rewrite sum_counts_cons, !Nat.add_assoc.
Qed.

Section LabelBounds.
Context {R : Type} (rone : R).
Implicit Types (s : t R) (x : instance R) (Y : list Z).

Lemma startindex_lookup s typ :
  constructed rone s → typ ≤ n_types s →
  _l_type_startindex s !! typ = Some (Py.sum (take typ (l_n_states s))).
Proof.
  intros (n & states & feats & im & cw & H) Htyp.
  apply init_inv in H as (f & l_cw & c_w & -> & Hn & Hf & _ & _ & ->).
  simpl in *. by rewrite list_lookup_fmap, lookup_seq_lt by lia.
Qed.

(** What a round of the loop of [_check_size_xy] does with a run that is
    not empty and has no negative label. *)
Lemma label_round s x Y k typ nf st :
  constructed rone s →
  Forall (λ v, 0 ≤ v)%Z Y →
  label_run s x Y k ≠ [] →
  zip3 (seq 0 (n_types s)) (_get_node_features s x true) (l_n_states s)
    !! k = Some (typ, nf, st) →
  ∃ lo hi,
    _l_type_startindex s !! k = Some lo ∧
    _l_type_startindex s !! (k + 1) = Some hi ∧
    check_labels_of_type s Y (run_start s x k) typ nf st
    = if decide (Exists (λ v, v < Z.of_N lo)%Z (label_run s x Y k))
      then Raise (InconsistentLabel (MsgLabelsStartAt k lo))
      else if decide (Exists (λ v, Z.of_N hi ≤ v)%Z (label_run s x Y k))
      then Raise (InconsistentLabel (MsgLabelsEndAt k (Z.of_N hi - 1)))
      else Ok (run_start s x k + from_option nrows 0 nf).
Proof.
  intros Hs Hpos Hne Hk.
  destruct (label_run_round rone s x Y k Hs Hne) as (m & st' & Hk' & Hc & Hrun).
  rewrite Hk in Hk'. injection Hk' as -> -> ->.
  destruct (constructed_lengths rone s Hs) as [Hst _].
  apply (label_rounds_lookup rone) in Hk as (_ & _ & Hstk); [|done].
  apply lookup_lt_Some in Hstk.
  exists (Py.sum (take k (l_n_states s))),
    (Py.sum (take (k + 1) (l_n_states s))).
  split; [apply startindex_lookup; [done | lia]|].
  split; [apply startindex_lookup; [done | lia]|].
  rewrite Hrun. simpl.
  apply check_labels_of_type_bounds.
  - apply startindex_lookup; [done | lia].
  - apply startindex_lookup; [done | lia].
  - by rewrite <- Hrun.
  - unfold Py.slice. by apply Forall_take, Forall_drop.
Qed.

(** Where every type has a node and no label is negative, a label vector
    of the right length raises [InconsistentLabel] exactly when the run
    of some type holds a label outside the type's bounds. *)
Theorem check_size_xy_inconsistent s x Y :
  constructed rone s →
  length Y = sum_counts (node_counts s x) →
  Forall (λ v, 0 ≤ v)%Z Y →
  (∀ typ, typ < length (node_counts s x) → label_run s x Y typ ≠ []) →
  (∃ m, _check_size_xy s x (Some Y) = Raise (InconsistentLabel m)) ↔
  (∃ typ, run_out_of_bounds s x Y typ).
Proof.
  intros Hs Hlen Hpos Hne. rewrite check_size_xy_loop by done.
  set (rounds := zip3 _ _ _).
  set (step := λ i_start '(typ, nf, n_states),
                 check_labels_of_type s Y i_start typ nf n_states).
  set (cnt := (λ '(typ, nf, st), from_option nrows 0 nf)
              : nat * option (matrix R) * N → nat).
  assert (cnt <$> rounds = node_counts s x) as Hcnt
    by apply (label_rounds_counts rone s x Hs).
  assert (∀ j a j', step j a = Ok j' → j' = j + cnt a) as Hstep.
  { intros j [[typ' nf] st'] j' Hj.
    by apply check_labels_of_type_Ok_inv in Hj. }
  assert (∀ k a, rounds !! k = Some a →
            ∃ lo hi,
              _l_type_startindex s !! k = Some lo ∧
              _l_type_startindex s !! (k + 1) = Some hi ∧
              step (0 + sum_counts (take k (cnt <$> rounds))) a
              = if decide (Exists (λ v, v < Z.of_N lo)%Z (label_run s x Y k))
                then Raise (InconsistentLabel (MsgLabelsStartAt k lo))
                else if decide (Exists (λ v, Z.of_N hi ≤ v)%Z
                                  (label_run s x Y k))
                then Raise (InconsistentLabel
                              (MsgLabelsEndAt k (Z.of_N hi - 1)))
                else Ok (run_start s x k + cnt a)) as Hround.
  { intros k [[typ nf] st] Hk. rewrite Hcnt. simpl.
    apply (label_round s x Y k typ nf st); try done.
    apply Hne. rewrite <- Hcnt, length_fmap. by eapply lookup_lt_Some. }
  split.
  - intros [m Hm].
    destruct (for_acc rounds 0 step) as [i'|e] eqn:Hloop; [done|].
    simpl in Hm. injection Hm as ->.
    apply (for_acc_offsets_Raise_inv step cnt) in Hloop
      as (k & a & Hk & Hraise); [|done].
    destruct (Hround k a Hk) as (lo & hi & Hlo & Hhi & Heq).
    rewrite Heq in Hraise. exists k, lo, hi. split; [done|]. split; [done|].
    destruct (decide (Exists _ _)) as [Hex|_].
    { eapply Exists_impl; [exact Hex|]. simpl. tauto. }
    destruct (decide (Exists _ _)) as [Hex|_]; [|done].
    eapply Exists_impl; [exact Hex|]. simpl. tauto.
  - intros (typ & lo & hi & Hlo & Hhi & Hex).
    destruct (label_run_round rone s x Y typ Hs) as (m & st & Hl & Hc & Hrun).
    { intros Hnil. rewrite Hnil in Hex. by apply Exists_nil in Hex. }
    fold rounds in Hl.
    destruct (for_acc rounds 0 step) as [i'|e] eqn:Hloop.
    + exfalso.
      pose proof (for_acc_offsets_Ok_inv step cnt rounds 0 i' Hstep Hloop
                    typ _ Hl) as Hok.
      destruct (Hround typ _ Hl) as (lo' & hi' & Hlo' & Hhi' & Heq).
      rewrite Heq in Hok.
      assert (lo' = lo) as -> by congruence.
      assert (hi' = hi) as -> by congruence.
      destruct (decide (Exists _ _)) as [|Hn1]; [done|].
      destruct (decide (Exists _ _)) as [|Hn2]; [done|].
      apply Exists_exists in Hex as (v & Hv & [Hlt|Hge]).
      * apply Hn1, Exists_exists. by exists v.
      * apply Hn2, Exists_exists. by exists v.
    + apply (for_acc_offsets_Raise_inv step cnt) in Hloop
        as (k & a & Hk & Hraise); [|done].
      destruct (Hround k a Hk) as (lo' & hi' & _ & _ & Heq).
      rewrite Heq in Hraise.
      destruct (decide (Exists _ _)) as [|_].
      { injection Hraise as <-. by eexists. }
      destruct (decide (Exists _ _)) as [|_]; [|done].
      injection Hraise as <-. by eexists.
Qed.

End LabelBounds.

(** ** Reshaping, transposing, multiplying *)

Section Tables.
Context {A : Type}.
Implicit Types (v r : list A) (m : matrix A).

Lemma chunks_length c n v : length (chunks c n v) = n.
Proof. revert v. induction n; intros; simpl; auto. Qed.

Lemma chunks_lookup c : ∀ n v k,
  k < n → chunks c n v !! k = Some (take c (drop (k * c) v)).
Proof.
  induction n as [|n IH]; intros v k Hk; [lia|].
  destruct k as [|k]; simpl; [done|].
  rewrite IH by lia. by rewrite drop_drop.
Qed.

Lemma chunks_rows c n v :
  length v = n * c → Forall (λ r, length r = c) (chunks c n v).
Proof.
  intros Hv. apply Forall_lookup_2. intros k r Hr.
  pose proof (lookup_lt_Some _ _ _ Hr) as Hk.
  rewrite chunks_length in Hk. rewrite chunks_lookup in Hr by done.
  injection Hr as <-. rewrite length_take, length_drop.
  assert ((k + 1) * c ≤ n * c) by (apply Nat.mul_le_mono_r; lia). lia.
Qed.

(** Entry [k] of a column is in row [k]. *)
Lemma col_lookup (rs : list (list A)) j : ∀ k,
  Forall (λ r, j < length r) rs →
  (r ← rs; option_list (r !! j)) !! k = rs !! k ≫= (.!! j).
Proof.
  induction rs as [|r rs IH]; intros k Hrs; [done|].
  inversion Hrs as [|? ? Hr Hrs']; subst.
  destruct (lookup_lt_is_Some_2 r j Hr) as [a Ha].
  csimpl. rewrite Ha. simpl. destruct k as [|k]; simpl.
  - by rewrite Ha.
  - by apply IH.
Qed.

Lemma bind_seq_lookup r :
  (j ← seq 0 (length r); option_list (r !! j)) = r.
Proof.
  induction r as [|a r IH]; [done|]. csimpl. f_equal.
  rewrite <- fmap_S_seq, list_fmap_bind. exact IH.
Qed.

(** Column [k] of the transpose is row [k]. *)
Lemma col_transpose m k r :
  wf_matrix m → rows m !! k = Some r → col (transpose m) k = r.
Proof.
  intros Hwf Hr. unfold col, transpose. simpl.
  rewrite list_fmap_bind.
  pose proof (Forall_lookup_1 _ _ _ _ Hwf Hr) as Hlen. simpl in Hlen.
  rewrite <- (bind_seq_lookup r) at 1. rewrite Hlen.
  apply Forall_bind_ext, Forall_forall. intros j [_ Hj]%elem_of_seq.
  simpl. unfold col. rewrite col_lookup.
  - by rewrite Hr.
  - eapply Forall_impl; [exact Hwf|]. simpl. intros ? ->. lia.
Qed.

Lemma reshape_Ok v n c :
  length v = n * c →
  reshape v n c = Ok (mk_matrix c (chunks c n v)).
Proof. intros H. unfold reshape. by rewrite bool_decide_true. Qed.

End Tables.

Section Dot.
Context {R : Type} (dot_entry : matrix R → matrix R → nat → nat → R).
#[local] Abbreviation dot := (dot dot_entry).

(** The product of an (n x k) table with a (k x c) table: its shape,
    and its entries, which are those of numpy's routine. *)
Lemma dot_Ok (a b : matrix R) :
  ncols a = nrows b →
  ∃ P, dot a b = Ok P ∧ nrows P = nrows a ∧ ncols P = ncols b ∧
       wf_matrix P ∧
       ∀ i j, i < nrows a → j < ncols b →
         getitem2 P i j = Ok (dot_entry a b i j).
Proof.
  intros Hk. unfold Np.dot. rewrite bool_decide_true by done.
  eexists. split; [done|]. unfold nrows, wf_matrix. simpl.
  repeat split.
  - by rewrite length_fmap, length_seq.
  - apply Forall_fmap, Forall_forall. intros row _. simpl.
    by rewrite length_fmap, length_seq.
  - intros i j Hi Hj. unfold getitem2, getitem. simpl.
    rewrite list_lookup_fmap, lookup_seq_lt by done. simpl.
    by rewrite list_lookup_fmap, lookup_seq_lt by done.
Qed.

(** The table of one type: its shape; the table of weights [W] it is
    the product with, whose row for a state, the column of [W.T], is a
    run of the weights; and its entries, those of the product of the
    features and [W.T]. *)
Lemma potentials_of_type_Ok (w : list R) (i_w n_states n_features : N)
    (m : matrix R) :
  N.of_nat (ncols m) = n_features →
  (i_w + n_states * n_features ≤ N.of_nat (length w))%N →
  ∃ P, potentials_of_type dot_entry w i_w (Some m) n_states
         n_features = Ok P ∧
       nrows P = nrows m ∧ ncols P = N.to_nat n_states ∧ wf_matrix P ∧
       ∃ W,
         reshape (Py.slice w (N.to_nat i_w)
                    (N.to_nat (i_w + n_states * n_features)))
           (N.to_nat n_states) (N.to_nat n_features) = Ok W ∧
         (∀ st, st < N.to_nat n_states →
            col (transpose W) st
            = Py.slice w
                (N.to_nat i_w + st * N.to_nat n_features)
                (N.to_nat i_w + (st + 1) * N.to_nat n_features)) ∧
         (∀ i st, i < nrows m → st < N.to_nat n_states →
            getitem2 P i st = Ok (dot_entry m (transpose W) i st)).
Proof.
  intros Hcols Hlen. unfold potentials_of_type.
  set (ns := N.to_nat n_states). set (nf := N.to_nat n_features).
  set (v := Py.slice w (N.to_nat i_w)
              (N.to_nat (i_w + n_states * n_features))).
  assert (N.to_nat (i_w + n_states * n_features)
          = N.to_nat i_w + ns * nf) as Hnw by (unfold ns, nf; lia).
  assert (length v = ns * nf) as Hv.
  { unfold v. rewrite Hnw. apply slice_length. lia. }
  rewrite (reshape_Ok v ns nf Hv). simpl.
  set (W := mk_matrix nf (chunks nf ns v)).
  assert (wf_matrix W) as HW by (by apply chunks_rows).
  destruct (dot_Ok m (transpose W)) as (P & -> & Hr & Hc & Hwf & Hent).
  { unfold nrows, transpose. simpl. rewrite length_fmap, length_seq.
    unfold nf. lia. }
  exists P. split; [done|].
  assert (ncols (transpose W) = ns) as HcW.
  { unfold transpose, nrows. simpl. apply chunks_length. }
  split; [done|]. split; [congruence|]. split; [done|].
  exists W. split; [done|]. split.
  - intros st Hst.
    rewrite (col_transpose W st (take nf (drop (st * nf) v))); try done;
      [|by apply chunks_lookup].
    unfold v, Py.slice. rewrite Hnw.
    replace (N.to_nat i_w + ns * nf - N.to_nat i_w) with (ns * nf) by lia.
    replace (N.to_nat i_w + (st + 1) * nf - (N.to_nat i_w + st * nf))
      with nf by lia.
    assert ((st + 1) * nf ≤ ns * nf) by (apply Nat.mul_le_mono_r; lia).
    replace (ns * nf) with (st * nf + (ns * nf - st * nf)) by lia.
    rewrite <- take_drop_commute, drop_drop, take_take.
    f_equal. lia.
  - intros i st Hi Hst. apply Hent; [done|]. by rewrite HcW.
Qed.

End Dot.

(** ** The potential computer *)

Section Potentials.
Context {R : Type} (rone : R)
  (dot_entry : matrix R → matrix R → nat → nat → R).
Implicit Types (s : t R) (x : instance R) (w : list R).

(** The loop over the types, from any state: when every table has
    its type's number of columns and the weights reach far enough,
    it appends one table per type and advances the offset by all the
    types' weights. *)
Lemma unary_loop_Ok w :
  ∀ (l : list (option (matrix R) * N * N)) pots (i : N),
    (∀ k f ns nf, l !! k = Some (f, ns, nf) →
       ∃ m, f = Some m ∧ N.of_nat (ncols m) = nf ∧
            (i + Py.sum (take (S k) (weights_of_round <$> l))
             ≤ N.of_nat (length w))%N) →
    ∃ Ps,
      for_acc l (pots, i)
        (λ '(l_unary_potentials, i_w) '(features, n_states, n_features),
           P ← potentials_of_type dot_entry w i_w features
                 n_states n_features;
           Ok (l_unary_potentials ++ [P],
               (i_w + n_states * n_features)%N))
      = Ok (pots ++ Ps, (i + Py.sum (weights_of_round <$> l))%N) ∧
      length Ps = length l ∧
      ∀ k f ns nf, l !! k = Some (f, ns, nf) →
        ∃ P, Ps !! k = Some P ∧
             potentials_of_type dot_entry w
               (i + Py.sum (take k (weights_of_round <$> l))) f ns nf
             = Ok P.
Proof.
  induction l as [|[[f ns] nf] l IH]; intros pots i H.
  - exists []. csimpl. rewrite app_nil_r, sum_nil, N.add_0_r.
    repeat split. intros k ? ? ? Hk. done.
  - destruct (H 0 f ns nf eq_refl) as (m & -> & Hcols & Hlen).
    csimpl in Hlen. rewrite take_0, sum_cons, sum_nil in Hlen.
    destruct (potentials_of_type_Ok dot_entry w i ns nf m)
      as (P & HP & _); [done | lia |].
    destruct (IH (pots ++ [P]) (i + ns * nf)%N) as (Ps & Hloop & HPs & Hk).
    { intros k f' ns' nf' Hl.
      destruct (H (S k) f' ns' nf' Hl) as (m' & -> & Hcols' & Hlen').
      exists m'. repeat split; try done.
      csimpl in Hlen'. rewrite sum_cons in Hlen'. lia. }
    exists (P :: Ps). csimpl. rewrite HP. csimpl.
    rewrite Hloop, <- app_assoc, sum_cons. csimpl.
    split; [by rewrite N.add_assoc|]. split; [by rewrite HPs|].
    intros [|k] f' ns' nf' Hl; csimpl in *.
    + injection Hl as <- <- <-. exists P. rewrite sum_nil, N.add_0_r.
      done.
    + destruct (Hk k f' ns' nf' Hl) as (P' & HP' & Hpot).
      exists P'. split; [done|].
      rewrite sum_cons. by rewrite N.add_assoc.
Qed.

(** An accepted instance has tables that fit the schema. *)
Lemma check_size_x_fits s x :
  _check_size_x s x = Ok true → node_tables_fit s x.
Proof.
  intros (Hlen & Hcols & _)%check_size_x_Ok. split; [done|].
  intros typ nf Hnf. apply for_Ok in Hcols.
  eapply (Forall_lookup_1 _ _ typ (typ, nf)) in Hcols; cycle 1.
  { by apply enumerate_lookup. }
  unfold check_features_of_type, getitem, raise_if in Hcols.
  destruct nf as [m|]; [|done]. simpl in Hcols.
  destruct (l_n_features s !! typ) as [n|]; [|done]. simpl in Hcols.
  case_bool_decide as Hn; [done|]. exists m. split; [done|].
  f_equal. by destruct (decide (N.of_nat (ncols m) = n)).
Qed.

(** Cleaning changes nothing in tables that fit. *)
Lemma cleaned_fit s x :
  constructed rone s → node_tables_fit s x →
  _get_node_features s x true = x0 x.
Proof.
  intros Hs [Hlen Hfit].
  destruct (constructed_lengths rone s Hs) as [_ Hft].
  unfold _get_node_features. apply list_eq. intros k.
  rewrite list_lookup_fmap, lookup_zip_with.
  destruct (x0 x !! k) as [nf|] eqn:Hnf; [|done]. simpl.
  destruct (Hfit k nf Hnf) as (m & -> & Hf). by rewrite Hf.
Qed.

(** The weights of the types, as the loop meets them. *)
Lemma weights_of_rounds s x :
  constructed rone s → node_tables_fit s x →
  weights_of_round <$> zip3 (x0 x) (l_n_states s) (l_n_features s)
  = weights_of_type s <$> seq 0 (n_types s).
Proof.
  intros Hs [Hlen Hfit].
  destruct (constructed_lengths rone s Hs) as [Hst Hft].
  apply list_eq. intros k. rewrite !list_lookup_fmap.
  destruct (decide (k < n_types s)) as [Hk|Hk].
  - destruct (lookup_lt_is_Some_2 (x0 x) k) as [f Hf]; [lia|].
    destruct (lookup_lt_is_Some_2 (l_n_states s) k) as [ns Hns]; [lia|].
    destruct (lookup_lt_is_Some_2 (l_n_features s) k) as [nf Hnf]; [lia|].
    assert (zip3 (x0 x) (l_n_states s) (l_n_features s) !! k
            = Some (f, ns, nf)) as -> by (by apply zip3_lookup).
    rewrite lookup_seq_lt by done. simpl.
    unfold weights_of_type. by rewrite Hns, Hnf.
  - rewrite lookup_seq_ge by lia.
    destruct (zip3 _ _ _ !! k) as [[[f ns] nf]|] eqn:Hz; [|done].
    apply zip3_lookup in Hz as (Hf & _). apply lookup_lt_Some in Hf. lia.
Qed.

Lemma size_unaries_sum s :
  constructed rone s →
  size_unaries s = weight_offset s (n_types s).
Proof.
  intros Hs. destruct (constructed_lengths rone s Hs) as [Hst Hft].
  destruct Hs as (n & states & feats & im & cw & H).
  apply init_inv in H as (f & l_cw & c_w & -> & Hn & Hf & _ & _ & ->).
  simpl in *. unfold _set_size_joint_feature, weight_offset. f_equal.
  apply list_eq. intros k. rewrite list_lookup_fmap, lookup_zip_with.
  destruct (decide (k < n)) as [Hk|Hk].
  - destruct (lookup_lt_is_Some_2 states k) as [ns Hns]; [lia|].
    destruct (lookup_lt_is_Some_2 f k) as [nf Hnf]; [lia|].
    rewrite lookup_seq_lt by done. rewrite Hns, Hnf. simpl.
    unfold weights_of_type. simpl. by rewrite Hns, Hnf.
  - rewrite lookup_seq_ge by lia.
    by rewrite (lookup_ge_None_2 states) by lia.
Qed.

Lemma weight_offset_take s k :
  k ≤ n_types s →
  Py.sum (take k (weights_of_type s <$> seq 0 (n_types s)))
  = weight_offset s k.
Proof.
  intros Hk. unfold weight_offset.
  rewrite <- fmap_take, take_seq.
  by replace (k `min` n_types s) with k by lia.
Qed.

(** The run of the loop of [_get_unary_potentials] on tables that fit
    and a weight vector of the schema's size. *)
Lemma unary_potentials_run s x w :
  constructed rone s → node_tables_fit s x →
  N.of_nat (length w) = size_unaries s →
  ∃ pots,
    unary_potentials_loop dot_entry s
      (_get_node_features s x true) w = Ok (pots, size_unaries s) ∧
    length pots = n_types s ∧
    ∀ typ m ns nf,
      x0 x !! typ = Some (Some m) →
      l_n_states s !! typ = Some ns → l_n_features s !! typ = Some nf →
      ∃ P, pots !! typ = Some P ∧
           potentials_of_type dot_entry w (weight_offset s typ)
             (Some m) ns nf = Ok P.
Proof.
  intros Hs Hfit Hw. unfold unary_potentials_loop. cbv zeta.
  rewrite (cleaned_fit s x Hs Hfit).
  destruct (constructed_lengths rone s Hs) as [Hst Hft].
  pose proof (weights_of_rounds s x Hs Hfit) as Hnw.
  set (l := zip3 (x0 x) (l_n_states s) (l_n_features s)) in *.
  assert (length l = n_types s) as Hl.
  { pose proof (f_equal length Hnw) as Hlen.
    by rewrite !length_fmap, length_seq in Hlen. }
  destruct (unary_loop_Ok w l [] 0%N) as (Ps & Hloop & HPs & Hk).
  { intros k f ns nf Hk.
    pose proof (lookup_lt_Some _ _ _ Hk) as Hlt.
    apply zip3_lookup in Hk as (Hf & Hns & Hnf).
    destruct Hfit as [_ Hfit].
    destruct (Hfit k f Hf) as (m & -> & Hc).
    exists m. split; [done|]. split; [congruence|].
    rewrite Hnw, N.add_0_l, Hw, (size_unaries_sum s Hs).
    rewrite weight_offset_take by lia.
    rewrite <- (weight_offset_take s (S k)) by lia.
    apply sum_take_le. }
  exists Ps. rewrite Hloop. simpl. rewrite Hnw, N.add_0_l.
  rewrite (size_unaries_sum s Hs). unfold weight_offset.
  split; [done|]. split; [congruence|].
  intros typ m ns nf Hm Hns Hnf.
  destruct (Hk typ (Some m) ns nf) as (P & HP & Hpot).
  { by apply zip3_lookup. }
  exists P. split; [done|].
  rewrite Hnw, N.add_0_l, weight_offset_take in Hpot; [done|].
  apply lookup_lt_Some in Hns. lia.
Qed.

End Potentials.

Section PotentialProperties.
Context {R : Type} (rone : R)
  (dot_entry : matrix R → matrix R → nat → nat → R)
  (rzero : R) (radd rmul : R → R → R).
Implicit Types (s : t R) (x : instance R) (w : list R).

Lemma get_unary_potentials_of_loop s x w pots :
  N.of_nat (length w) = size_unaries s →
  unary_potentials_loop dot_entry s
    (_get_node_features s x true) w = Ok (pots, size_unaries s) →
  _get_unary_potentials dot_entry s x w = Ok pots.
Proof.
  intros Hw Hloop. unfold _get_unary_potentials. rewrite Hloop.
  unfold _check_size_w, raise_if.
  rewrite bool_decide_false by (intros ?; done). simpl.
  by rewrite bool_decide_false by (intros ?; done).
Qed.

(** C2: for a validly constructed schema, [size_unaries] is the sum
    over the types of [states * features]; and on a structurally valid
    instance with a weight vector of that length, the loop of
    [_get_unary_potentials] ends with [i_w] equal to [size_unaries], so
    that the assertion holds and the potentials are returned. *)
Theorem unary_weights_consumed s x w :
  constructed rone s →
  _check_size_x s x = Ok true →
  N.of_nat (length w) = size_unaries s →
  size_unaries s = Py.sum (weights_of_type s <$> seq 0 (n_types s)) ∧
  ∃ pots,
    unary_potentials_loop dot_entry s
      (_get_node_features s x true) w = Ok (pots, size_unaries s) ∧
    _get_unary_potentials dot_entry s x w = Ok pots.
Proof.
  intros Hs Hx Hw. split; [by apply (size_unaries_sum rone)|].
  apply check_size_x_fits in Hx.
  destruct (unary_potentials_run rone dot_entry s x w Hs Hx Hw)
    as (pots & Hloop & _).
  exists pots. split; [done|]. by apply get_unary_potentials_of_loop.
Qed.


End PotentialProperties.

(** ** The constructor: class weights and tables *)

Lemma sum_scale (a : N) (l : list N) :
  Py.sum (N.mul a <$> l) = (a * Py.sum l)%N.
Proof.
  induction l as [|b l IH]; csimpl; [rewrite sum_nil; lia|].
  rewrite !sum_cons, IH. lia.
Qed.

Lemma sum_products (l k : list N) :
  Py.sum (m1 ← l; m2 ← k; [(m1 * m2)%N]) = (Py.sum l * Py.sum k)%N.
Proof.
  induction l as [|a l IH].
  - csimpl. rewrite sum_nil. lia.
  - rewrite edge_states_cons, sum_app, IH, sum_scale, sum_cons. lia.
Qed.

(** The part of a concatenation that one of the lists fills. *)
Lemma slice_concat {A} (ls : list (list A)) k c :
  ls !! k = Some c →
  Py.slice (concat ls) (length (concat (take k ls)))
    (length (concat (take (S k) ls))) = c.
Proof.
  intros Hk. rewrite (take_S_r _ _ _ Hk), concat_app, length_app. simpl.
  rewrite app_nil_r. unfold Py.slice.
  replace (length (concat (take k ls)) + length c
           - length (concat (take k ls))) with (length c) by lia.
  assert (concat ls = concat (take k ls) ++ c ++ concat (drop (S k) ls))
    as Heq.
  { rewrite <- (take_drop_middle ls k c Hk) at 1. by rewrite concat_app. }
  rewrite Heq, drop_app_length. by rewrite take_app_length.
Qed.

Section ClassWeights.
Context {R : Type} (rone : R).

(** One weight per state: the lengths of the vectors are the state
    counts. *)
Lemma class_weight_lengths (cw : list (list R)) (states : list N) :
  Forall2 (λ c st, N.of_nat (length c) = st) cw states →
  length (concat cw) = N.to_nat (Py.sum states).
Proof.
  induction 1 as [|c st cw states Hc _ IH]; [done|].
  simpl. rewrite length_app, IH, sum_cons. lia.
Qed.

(** Class weights that are supplied, one vector per type and one weight
    per state, are kept as they are. *)
Lemma init_class_weight_supplied n (states : list N)
    (cw : list (list R)) :
  cw ≠ [] → length states = n →
  Forall2 (λ c st, N.of_nat (length c) = st) cw states →
  init_class_weight rone n states (Some cw) = Ok cw.
Proof.
  intros Hne Hn Hcw. unfold init_class_weight.
  assert (truthy (Some cw) = true) as -> by (by destruct cw).
  simpl. unfold raise_if.
  rewrite bool_decide_false; cycle 1.
  { intros Hlen. apply Hlen. rewrite <- Hn. by eapply Forall2_length. }
  simpl.
  match goal with
  | |- context [for_ _ ?b] => set (body := b)
  end.
  assert (for_ (enumerate states) body = Ok ()) as ->; [|done].
  apply for_Ok, Forall_lookup_2. intros i [j st] Hi.
  apply enumerate_lookup in Hi as [Hj Hst]. simpl in *. subst j.
  destruct (Forall2_lookup_r _ _ _ _ _ Hcw Hst) as (c & Hc & Hlen).
  unfold body, getitem. rewrite Hc. simpl.
  by rewrite bool_decide_false by (intros ?; done).
Qed.

(** What [__init__] makes of its argument [l_class_weight] when it
    goes on. *)
Lemma init_class_weight_Ok_inv n (states : list N) cw l :
  length states = n →
  init_class_weight rone n states cw = Ok l →
  (truthy cw = false ∧ l = ones rone <$> states) ∨
  (truthy cw = true ∧ cw = Some l ∧
   Forall2 (λ c st, N.of_nat (length c) = st) l states).
Proof.
  intros Hn. unfold init_class_weight.
  destruct (truthy cw) eqn:Htruthy; [|intros [= <-]; by left].
  destruct cw as [cw|]; [|done]. simpl. unfold raise_if.
  case_bool_decide as Hlen; [done|]. simpl.
  match goal with
  | |- context [for_ _ ?b] => set (body := b)
  end.
  destruct (for_ (enumerate states) body) as [[]|] eqn:Hloop; [|done].
  simpl. intros [= <-]. right. split; [done|]. split; [done|].
  assert (length cw = n) as Hcw by (by destruct (decide (length cw = n))).
  apply Forall2_same_length_lookup_2; [congruence|].
  intros i c st Hc Hst. apply for_Ok in Hloop.
  eapply (Forall_lookup_1 _ _ i (i, st)) in Hloop; cycle 1.
  { by apply enumerate_lookup. }
  unfold body, getitem, raise_if in Hloop. rewrite Hc in Hloop.
  simpl in Hloop. case_bool_decide as Hne; [done|].
  by destruct (decide (N.of_nat (length c) = st)).
Qed.

End ClassWeights.

Section InitTables.
Context {R : Type} (rone : R).
Implicit Types (s : t R).

(** The constructor returns a schema exactly when there is at least
    one type, [l_n_states] and [l_n_features] hold one number per type,
    and the class weights, when a list that is not empty is given,
    are one vector per type with one weight per state.  With no type
    at all, or with [l_n_features = None], it raises, whatever the
    other arguments are. *)
Theorem init_returns_iff n (states : list N) feats im cw :
  (∃ s, __init__ rone n states feats im cw = Ok s) ↔
  0 < n ∧ length states = n ∧
  (∃ f, feats = Some f ∧ length f = n) ∧
  (truthy cw = true →
   Forall2 (λ c st, N.of_nat (length c) = st) (default [] cw) states).
Proof.
  split.
  - intros [s Hs].
    apply init_inv in Hs as (f & l_cw & c_w & -> & Hn & Hf & Hcw & Hh & _).
    apply (init_class_weight_Ok_inv rone n states cw l_cw Hn) in Hcw
      as [[Hfalse ->]|(Htrue & -> & Hall)].
    + repeat split; [|done|by exists f|by rewrite Hfalse].
      destruct states as [|a l]; [done|]. simpl in Hn. lia.
    + repeat split; [|done|by exists f|done].
      destruct l_cw as [|c l]; [done|].
      apply Forall2_length in Hall. simpl in Hall. lia.
  - intros (Hpos & Hn & (f & -> & Hf) & Hcw).
    destruct (truthy cw) eqn:Htruthy.
    + destruct cw as [[|c l]|]; try done.
      specialize (Hcw eq_refl). simpl in Hcw.
      unfold __init__, raise_if.
      rewrite !bool_decide_false by (intros ?; done). simpl.
      rewrite (init_class_weight_supplied rone n states (c :: l)) by done.
      simpl. rewrite (fill_startindex_eq n states Hn). simpl.
      by eexists.
    + destruct (init_default_Ok rone n states f im cw)
        as (s & Hs & _); [done..|].
      by exists s.
Qed.

(** Class weights that are supplied, one vector per type with one
    weight per state: the schema keeps them by type, [class_weight]
    is their concatenation, with one weight per state of the schema,
    and the weights of a type are the part of [class_weight] between
    the first state of the type and the first state of the next. *)
Theorem init_with_class_weights n (states f : list N) im
    (cw : list (list R)) :
  cw ≠ [] → length states = n → length f = n →
  Forall2 (λ c st, N.of_nat (length c) = st) cw states →
  ∃ s, __init__ rone n states (Some f) im (Some cw) = Ok s ∧
       l_class_weight s = cw ∧
       class_weight s = concat cw ∧
       length (class_weight s) = N.to_nat (_n_states s) ∧
       ∀ typ c lo hi,
         cw !! typ = Some c →
         _l_type_startindex s !! typ = Some lo →
         _l_type_startindex s !! (typ + 1) = Some hi →
         Py.slice (class_weight s) (N.to_nat lo) (N.to_nat hi) = c.
Proof.
  intros Hne Hn Hf Hcw. unfold __init__, raise_if.
  rewrite !bool_decide_false by (intros ?; done). simpl.
  rewrite (init_class_weight_supplied rone n states cw) by done.
  simpl. destruct cw as [|c0 cw0] eqn:Hcw0; [done|]. rewrite <- Hcw0 in *.
  assert (hstack cw = Ok (concat cw)) as -> by (by rewrite Hcw0).
  simpl. rewrite (fill_startindex_eq n states Hn). simpl.
  eexists. split; [done|]. simpl.
  split; [done|]. split; [done|].
  split; [by apply class_weight_lengths|].
  intros typ c lo hi Hc Hlo Hhi.
  pose proof (lookup_lt_Some _ _ _ Hc) as Htyp.
  pose proof (Forall2_length _ _ _ Hcw) as Hlen.
  rewrite list_lookup_fmap, lookup_seq_lt in Hlo by lia.
  rewrite list_lookup_fmap, lookup_seq_lt in Hhi by lia.
  simpl in Hlo, Hhi. injection Hlo as <-. injection Hhi as <-.
  rewrite <- (class_weight_lengths (take typ cw) (take typ states))
    by (by apply Forall2_take).
  rewrite <- (class_weight_lengths (take (typ + 1) cw)
                (take (typ + 1) states)) by (by apply Forall2_take).
  rewrite Nat.add_1_r. by apply slice_concat.
Qed.

(** The first states of the types: [_l_type_startindex] has one entry
    per type and one more, starts at 0, ends at the total number of
    states, and goes from a type to the next by the number of states of
    the type.  So every state below the total lies between the entries
    of one type and its successor, and of one type only. *)
Theorem type_startindex_tile s :
  constructed rone s →
  length (_l_type_startindex s) = n_types s + 1 ∧
  _l_type_startindex s !! 0 = Some 0%N ∧
  _l_type_startindex s !! n_types s = Some (_n_states s) ∧
  (∀ typ lo n_states,
     _l_type_startindex s !! typ = Some lo →
     l_n_states s !! typ = Some n_states →
     _l_type_startindex s !! (typ + 1) = Some (lo + n_states)%N) ∧
  (∀ k, (k < _n_states s)%N →
     ∃ typ lo hi,
       _l_type_startindex s !! typ = Some lo ∧
       _l_type_startindex s !! (typ + 1) = Some hi ∧ (lo ≤ k < hi)%N) ∧
  (∀ k typ lo hi typ' lo' hi',
     _l_type_startindex s !! typ = Some lo →
     _l_type_startindex s !! (typ + 1) = Some hi → (lo ≤ k < hi)%N →
     _l_type_startindex s !! typ' = Some lo' →
     _l_type_startindex s !! (typ' + 1) = Some hi' → (lo' ≤ k < hi')%N →
     typ = typ').
Proof.
  intros (n & states & feats & im & cw & H).
  apply init_inv in H as (f & l_cw & c_w & -> & Hn & Hf & _ & _ & ->).
  simpl.
  assert (∀ typ, typ ≤ n →
            ((λ i, Py.sum (take i states)) <$> seq 0 (n + 1)) !! typ
            = Some (Py.sum (take typ states))) as Hl.
  { intros typ Htyp. by rewrite list_lookup_fmap, lookup_seq_lt by lia. }
  assert (∀ typ v,
            ((λ i, Py.sum (take i states)) <$> seq 0 (n + 1)) !! typ
            = Some v → typ ≤ n ∧ v = Py.sum (take typ states)) as Hinv.
  { intros typ v Hv. pose proof (lookup_lt_Some _ _ _ Hv) as Hlt.
    rewrite length_fmap, length_seq in Hlt.
    rewrite Hl in Hv by lia. injection Hv as <-. split; [lia | done]. }
  split; [by rewrite length_fmap, length_seq|].
  split; [by rewrite Hl by lia|].
  split; [rewrite Hl by lia; by rewrite take_ge by lia|].
  split; [|split].
  - intros typ lo st Hlo Hst. apply Hinv in Hlo as [_ ->].
    pose proof (lookup_lt_Some _ _ _ Hst). rewrite Hl by lia.
    by rewrite Nat.add_1_r, (sum_take_S _ _ _ Hst).
  - intros k Hk. apply prefix_cover in Hk as (p & x & Hp & Hr).
    pose proof (lookup_lt_Some _ _ _ Hp).
    exists p, (Py.sum (take p states)), (Py.sum (take p states) + x)%N.
    rewrite !Hl by lia. split; [done|]. split; [|done].
    by rewrite Nat.add_1_r, (sum_take_S _ _ _ Hp).
  - intros k typ lo hi typ' lo' hi' Hlo Hhi Hk Hlo' Hhi' Hk'.
    apply Hinv in Hlo as [_ ->]. apply Hinv in Hhi as [Htyp ->].
    apply Hinv in Hlo' as [_ ->]. apply Hinv in Hhi' as [Htyp' ->].
    destruct (lookup_lt_is_Some_2 states typ) as [x Hx]; [lia|].
    destruct (lookup_lt_is_Some_2 states typ') as [y Hy]; [lia|].
    rewrite Nat.add_1_r, (sum_take_S _ _ _ Hx) in Hk.
    rewrite Nat.add_1_r, (sum_take_S _ _ _ Hy) in Hk'.
    by eapply (prefix_disjoint states typ typ' x y k).
Qed.

(** The slices of the features: [_a_feature_slice_by_typ] has one
    slice per type, as wide as the type has features; the first starts
    at 0, each starts where the one before stops, and the last stops
    at the total number of features. *)
Theorem feature_slices_tile s :
  constructed rone s →
  length (_a_feature_slice_by_typ s) = n_types s ∧
  (∀ typ start stop,
     _a_feature_slice_by_typ s !! typ = Some (start, stop) →
     ∃ n_features,
       l_n_features s !! typ = Some n_features ∧
       start = Py.sum (take typ (l_n_features s)) ∧
       stop = (start + n_features)%N ∧
       (stop ≤ _n_features s)%N) ∧
  (∀ start stop,
     _a_feature_slice_by_typ s !! 0 = Some (start, stop) → start = 0%N) ∧
  (∀ typ start stop start' stop',
     _a_feature_slice_by_typ s !! typ = Some (start, stop) →
     _a_feature_slice_by_typ s !! (typ + 1) = Some (start', stop') →
     start' = stop) ∧
  (∀ start stop,
     _a_feature_slice_by_typ s !! (n_types s - 1) = Some (start, stop) →
     stop = _n_features s).
Proof.
  intros (n & states & feats & im & cw & H).
  apply init_inv in H as (f & l_cw & c_w & -> & Hn & Hf & _ & _ & ->).
  simpl.
  assert (∀ typ a b,
            ((λ i, (Py.sum (take i f), Py.sum (take (i + 1) f)))
               <$> seq 0 n) !! typ = Some (a, b) →
            typ < n ∧ a = Py.sum (take typ f) ∧
            b = Py.sum (take (typ + 1) f)) as Hinv.
  { intros typ a b Hab. pose proof (lookup_lt_Some _ _ _ Hab) as Hlt.
    rewrite length_fmap, length_seq in Hlt.
    rewrite list_lookup_fmap, lookup_seq_lt in Hab by lia.
    simpl in Hab. injection Hab as <- <-. done. }
  split; [by rewrite length_fmap, length_seq|].
  split; [|split; [|split]].
  - intros typ a b (Htyp & -> & ->)%Hinv.
    destruct (lookup_lt_is_Some_2 f typ) as [nf Hnf]; [lia|].
    exists nf. split; [done|]. split; [done|].
    rewrite Nat.add_1_r, (sum_take_S _ _ _ Hnf). split; [done|].
    by apply prefix_bound.
  - by intros a b (_ & -> & _)%Hinv.
  - by intros typ a b a' b' (_ & _ & ->)%Hinv (_ & -> & _)%Hinv.
  - intros a b (Hlt & _ & ->)%Hinv. by rewrite take_ge by lia.
Qed.

(** The numbers of edge states: [l_n_edge_states] holds, at the
    position of each pair of types in row-major order, the product of
    the two types' numbers of states; their sum is the square of the
    total number of states. *)
Theorem edge_states_total s :
  constructed rone s →
  length (l_n_edge_states s) = n_types s * n_types s ∧
  (∀ typ1 typ2 n1 n2,
     l_n_states s !! typ1 = Some n1 → l_n_states s !! typ2 = Some n2 →
     l_n_edge_states s !! (typ1 * n_types s + typ2) = Some (n1 * n2)%N) ∧
  Py.sum (l_n_edge_states s) = (_n_states s * _n_states s)%N.
Proof.
  intros (n & states & feats & im & cw & H).
  apply init_inv in H as (f & l_cw & c_w & -> & Hn & Hf & _ & _ & ->).
  simpl. unfold edge_states. split; [|split].
  - by rewrite edge_states_length, Hn.
  - intros typ1 typ2 n1 n2 H1 H2. rewrite <- Hn.
    by apply edge_states_lookup.
  - apply sum_products.
Qed.

(** The table of first edge states, whatever the numbers of states: it
    has one row and one column per type, and holds at (typ1, typ2) the
    low 32 bits of the sum of the numbers of edge states of the pairs
    before (typ1, typ2) in row-major order, which is the sum of the
    entries of [l_n_edge_states] before the position of the pair.
    Outside the table, reading raises [IndexError]. *)
Theorem startindex_table_entries s :
  constructed rone s →
  nrows (a_startindex_by_typ_typ s) = n_types s ∧
  Forall (λ row, length row = n_types s)
    (rows (a_startindex_by_typ_typ s)) ∧
  (∀ typ1 typ2, typ1 < n_types s → typ2 < n_types s →
     edge_pair_start_offset s typ1 typ2
     = Ok (Py.sum (take (typ1 * n_types s + typ2) (l_n_edge_states s))
           mod 2 ^ 32)%N) ∧
  (∀ typ1 typ2, ¬ (typ1 < n_types s ∧ typ2 < n_types s) →
     edge_pair_start_offset s typ1 typ2 = Raise IndexError).
Proof.
  intros Hs.
  pose proof (λ t1 t2, edge_pair_start_offset_eq rone s t1 t2 Hs) as Hoff.
  destruct Hs as (n & states & feats & im & cw & H).
  apply init_inv in H as (f & l_cw & c_w & -> & Hn & Hf & _ & _ & ->).
  simpl in *.
  assert (∀ (l : list N) i,
            length (startindex_rows states i l) = length l) as Hrows.
  { induction l as [|a l IH]; intros i; simpl; [done|]. by rewrite IH. }
  assert (∀ (l : list N) i,
            Forall (λ row, length row = length states)
              (startindex_rows states i l)) as Hcols.
  { induction l as [|a l IH]; intros i; simpl; constructor; [|done].
    by rewrite length_fmap, offsets_length, length_fmap. }
  split; [unfold nrows; simpl; by rewrite Hrows|].
  split; [rewrite <- Hn; apply Hcols|].
  split.
  - intros typ1 typ2 H1 H2. rewrite Hoff by done.
    unfold uint32, edge_states_before. by rewrite Hn.
  - intros typ1 typ2 Hout.
    unfold edge_pair_start_offset, getitem2, getitem. simpl.
    destruct (startindex_rows states 0 states !! typ1) as [row|] eqn:Hrow;
      [|done].
    pose proof (lookup_lt_Some _ _ _ Hrow) as H1. rewrite Hrows in H1.
    pose proof (Forall_lookup_1 _ _ _ _ (Hcols states 0%N) Hrow) as Hlen.
    simpl in Hlen.
    rewrite lookup_ge_None_2; [done|]. lia.
Qed.

(** The pairs of types: [_iter_type_pairs] yields every pair of types
    once, [n_types * n_types] pairs in all, and the pair it yields at
    position [k] is the pair whose edge table [_get_edges_by_type]
    reads at [x[1][k]]. *)
Theorem iter_type_pairs_positions s (x : instance R) :
  length (_iter_type_pairs s) = n_types s * n_types s ∧
  NoDup (_iter_type_pairs s) ∧
  (∀ typ1 typ2,
     (typ1, typ2) ∈ _iter_type_pairs s ↔
     typ1 < n_types s ∧ typ2 < n_types s) ∧
  (∀ k typ1 typ2,
     _iter_type_pairs s !! k = Some (typ1, typ2) →
     _get_edges_by_type s x typ1 typ2 = getitem (x1 x) k).
Proof.
  unfold _iter_type_pairs, _get_edges_by_type.
  split; [|split; [|split]].
  - unfold iter_pairs. by rewrite pairs_length, !length_seq.
  - apply NoDup_alt. intros i j [a b] Hi Hj.
    apply iter_pairs_lookup_inv in Hi as (-> & _).
    by apply iter_pairs_lookup_inv in Hj as (-> & _).
  - intros typ1 typ2. split.
    + intros [k Hk]%list_elem_of_lookup.
      by apply iter_pairs_lookup_inv in Hk as (_ & H1 & H2).
    + intros [H1 H2]. apply list_elem_of_lookup.
      exists (typ1 * n_types s + typ2). by apply iter_pairs_lookup.
  - intros k typ1 typ2 Hk.
    by apply iter_pairs_lookup_inv in Hk as (-> & _).
Qed.

End InitTables.

(** ** Calls made one after the other *)

Lemma mapM_cons {A B} (f : A → result B) (a : A) (l : list A) :
  mapM f (a :: l) = (b ← f a; k ← mapM f l; Ok (b :: k)).
Proof. done. Qed.

(** The calls all return: the results, in order. *)
Lemma mapM_Ok {A B} (f : A → result B) (l : list A) (k : list B) :
  mapM f l = Ok k ↔ Forall2 (λ a b, f a = Ok b) l k.
Proof.
  revert k. induction l as [|a l IH]; intros k.
  - split.
    + intros [= <-]. constructor.
    + intros H. by inversion H.
  - rewrite mapM_cons. split.
    + intros (b & Hb & (k' & Hk' & [= <-])%bind_Ok)%bind_Ok.
      constructor; [done|]. by apply IH.
    + intros H. inversion H as [|? b ? k' Hb Hk']; subst.
      rewrite Hb. simpl. apply IH in Hk'. by rewrite Hk'.
Qed.

Lemma mapM_Ok_fmap {A B} (f : A → result B) (g : A → B) (l : list A) :
  Forall (λ a, f a = Ok (g a)) l → mapM f l = Ok (g <$> l).
Proof.
  intros H. apply mapM_Ok, Forall2_fmap_r, Forall_Forall2_diag.
  exact H.
Qed.

(** The first call that raises ends them. *)
Lemma mapM_first_Raise {A B} (f : A → result B) (l : list A) p a e :
  l !! p = Some a →
  (∀ q b, q < p → l !! q = Some b → ∃ c, f b = Ok c) →
  f a = Raise e →
  mapM f l = Raise e.
Proof.
  revert p. induction l as [|a0 l IH]; intros p Hp Hbefore Ha; [done|].
  rewrite mapM_cons. destruct p as [|p]; simpl in Hp.
  - injection Hp as ->. by rewrite Ha.
  - destruct (Hbefore 0 a0) as [c Hc]; [lia | done |].
    rewrite Hc. simpl. rewrite (IH p); [done..| |done].
    intros q b Hq Hb. apply (Hbefore (S q)); [lia | done].
Qed.

Lemma mapM_Raise_inv {A B} (f : A → result B) (l : list A) e :
  mapM f l = Raise e →
  ∃ p a, l !! p = Some a ∧ f a = Raise e ∧
         ∀ q b, q < p → l !! q = Some b → ∃ c, f b = Ok c.
Proof.
  induction l as [|a0 l IH]; [done|]. rewrite mapM_cons.
  intros [Ha|(c & Hc & H)]%bind_Raise.
  - exists 0, a0. repeat split; [done|]. intros q b Hq. lia.
  - apply bind_Raise in H as [H|(k & _ & [=])].
    destruct (IH H) as (p & a & Hp & Ha & Hbefore).
    exists (S p), a. repeat split; [done..|].
    intros [|q] b Hq Hb; simpl in Hb.
    + injection Hb as <-. by exists c.
    + apply (Hbefore q); [lia | done].
Qed.

(** ** The instance validator: what it accepts, and its other errors *)

Section ValidatorCases.
Context {R : Type}.
Implicit Types (s : t R) (x : instance R).

(** The validator returns [True] or raises. *)
Lemma check_size_x_cases s x :
  _check_size_x s x = Ok true ∨ ∃ e, _check_size_x s x = Raise e.
Proof.
  destruct (_check_size_x s x) as [b|e] eqn:H; [left | right; by exists e].
  unfold _check_size_x in H.
  repeat (apply bind_Ok in H as (? & _ & H)). by injection H as <-.
Qed.

(** Nothing is reported: every endpoint is a node. *)
Lemma dangling_message_None_inv x typ1 typ2 e :
  dangling_message x typ1 typ2 e = None →
  Forall (λ v, 0 ≤ v < Z.of_nat (node_count x typ1))%Z (sources e) ∧
  Forall (λ v, 0 ≤ v < Z.of_nat (node_count x typ2))%Z (targets e).
Proof.
  unfold dangling_message.
  destruct (decide (negative_endpoint e)) as [|Hneg]; [done|].
  destruct (decide (source_out_of_range x typ1 e)) as [|Hsrc]; [done|].
  destruct (decide (target_out_of_range x typ2 e)) as [|Htgt]; [done|].
  intros _. split; apply Forall_forall; intros v Hv.
  - destruct (decide (v < 0)%Z) as [Hlt|Hge].
    { exfalso. apply Hneg. left. apply Exists_exists. by exists v. }
    destruct (decide (Z.of_nat (node_count x typ1) ≤ v)%Z) as [Hout|Hin];
      [|lia].
    exfalso. apply Hsrc, Exists_exists. by exists v.
  - destruct (decide (v < 0)%Z) as [Hlt|Hge].
    { exfalso. apply Hneg. right. apply Exists_exists. by exists v. }
    destruct (decide (Z.of_nat (node_count x typ2) ≤ v)%Z) as [Hout|Hin];
      [|lia].
    exfalso. apply Htgt, Exists_exists. by exists v.
Qed.

(** The round of a pair with edges, in an instance that may have fewer
    edge tables than pairs of types. *)
Lemma check_edges_of_pair_present s x typ1 typ2 e :
  node_tables_fit s x → Forall edge_table_shaped (x1 x) →
  typ1 < n_types s → typ2 < n_types s →
  has_edges s x typ1 typ2 e →
  check_edges_of_pair s x (x0 x) typ1 typ2
  = match dangling_message x typ1 typ2 e with
    | Some m => Raise (ValueError m)
    | None => Ok ()
    end.
Proof.
  intros Hfit Hshaped H1 H2 [Hl Hlen].
  pose proof (lookup_lt_Some _ _ _ Hl) as Hlt.
  set (x' := mk_instance (x0 x)
               (x1 x ++ replicate (n_types s * n_types s) None)).
  rewrite (check_edges_of_pair_ext s x x'); cycle 1.
  { simpl. by rewrite lookup_app_l. }
  apply (check_edges_of_pair_some s x' typ1 typ2 e); try done.
  - split; simpl.
    + rewrite length_app, length_replicate. lia.
    + apply Forall_app. split; [done|]. by apply Forall_replicate.
  - split; [|done]. simpl. by rewrite lookup_app_l.
Qed.

(** A pair whose table is there passes or raises a dangling-edge
    error. *)
Lemma check_edges_of_pair_present_cases s x typ1 typ2 :
  node_tables_fit s x → Forall edge_table_shaped (x1 x) →
  typ1 < n_types s → typ2 < n_types s →
  typ1 * n_types s + typ2 < length (x1 x) →
  (check_edges_of_pair s x (x0 x) typ1 typ2 = Ok () ∧
   (∀ e, has_edges s x typ1 typ2 e →
      dangling_message x typ1 typ2 e = None)) ∨
  ∃ e m, has_edges s x typ1 typ2 e ∧
         dangling_message x typ1 typ2 e = Some m ∧
         check_edges_of_pair s x (x0 x) typ1 typ2 = Raise (ValueError m).
Proof.
  intros Hfit Hshaped H1 H2 Hlt.
  destruct (lookup_lt_is_Some_2 (x1 x) _ Hlt) as [edges Hl].
  assert (edges = None ∨ (∃ e, edges = Some e ∧ len e = Ok 0) ∨
          ∃ e, edges = Some e ∧ has_edges s x typ1 typ2 e) as Hcases.
  { destruct edges as [e|]; [|by left]. right.
    pose proof (Forall_lookup_1 _ _ _ _ Hshaped Hl) as (m & Hs & Hd).
    destruct (decide (m = 0)) as [->|Hm].
    - left. exists e. split; [done|]. unfold len. by rewrite Hs.
    - right. exists e. split; [done|]. split; [done|].
      unfold len. rewrite Hs. intros [=]. done. }
  destruct Hcases as [Hnone|[Hnone|(e & -> & He)]].
  - left. split; [eapply check_edges_of_pair_none; eauto|].
    intros e [He _]. congruence.
  - left. split; [eapply check_edges_of_pair_none; eauto|].
    intros e [He Hne]. destruct Hnone as (e' & -> & Hlen).
    rewrite Hl in He. injection He as ->. done.
  - rewrite (check_edges_of_pair_present s x typ1 typ2 e) by done.
    destruct (dangling_message x typ1 typ2 e) as [m|] eqn:Hm.
    + right. by exists e, m.
    + left. split; [done|]. intros e' [He' _]. destruct He as [He _].
      rewrite He in He'. by injection He' as <-.
Qed.

End ValidatorCases.

Section ValidatorSound.
Context {R : Type}.
Implicit Types (s : t R) (x : instance R).

(** What [_check_size_x] accepts is structurally valid: where the
    edge tables are arrays as numpy makes them and the validator
    returns [True], there is one node table per type with the type's
    number of columns, one edge table (or [None]) per pair of types at
    least, each table that is present has two columns, and every
    edge of a pair of types runs between existing nodes. *)
Theorem check_size_x_sound s x :
  edge_tables_wf x →
  _check_size_x s x = Ok true →
  node_tables_fit s x ∧ edge_tables_shaped s x ∧
  ∀ typ1 typ2, typ1 < n_types s → typ2 < n_types s →
               endpoints_in_range s x typ1 typ2.
Proof.
  intros Hwf Hok. pose proof (check_size_x_fits s x Hok) as Hfit.
  apply check_size_x_Ok in Hok as (Hlen & _ & Hshapes & Hpairs).
  apply for_Ok in Hshapes, Hpairs.
  assert (Forall edge_table_shaped (x1 x)) as Hshaped.
  { apply Forall_lookup_2. intros k [e|] Hk; [|done].
    pose proof (Forall_lookup_1 _ _ _ _ Hshapes Hk) as He.
    apply check_edge_shape_Ok in He as [m Hm].
    pose proof (Forall_lookup_1 _ _ _ _ Hwf Hk) as Hw.
    simpl in Hw. unfold wf_ndarray in Hw. rewrite Hm in Hw.
    simpl in Hw. exists m. split; [done | lia]. }
  assert (∀ typ1 typ2, typ1 < n_types s → typ2 < n_types s →
            check_edges_of_pair s x (x0 x) typ1 typ2 = Ok ()) as Hpair.
  { intros typ1 typ2 H1 H2.
    pose proof (iter_pairs_lookup _ _ _ H1 H2) as Hp.
    apply (Forall_lookup_1 _ _ _ _ Hpairs Hp). }
  split; [done|]. split; [split; [|done]|].
  - destruct (n_types s) as [|n] eqn:Hn; [simpl; lia|].
    pose proof (Hpair n n) as Hnn.
    unfold check_edges_of_pair, _get_edges_by_type, getitem in Hnn.
    rewrite Hn in Hnn.
    destruct (x1 x !! (n * S n + n)) as [edges|] eqn:Hl;
      [|simpl in Hnn; by discriminate Hnn; lia].
    apply lookup_lt_Some in Hl. lia.
  - intros typ1 typ2 H1 H2 e He.
    pose proof (check_edges_of_pair_present s x typ1 typ2 e
                  Hfit Hshaped H1 H2 He) as Hc.
    rewrite Hpair in Hc by done.
    destruct (dangling_message x typ1 typ2 e) eqn:Hm; [done|].
    by apply dangling_message_None_inv in Hm.
Qed.

(** The errors about the node tables come first.  A list [x[0]] that
    has not one entry per type is refused as such, whatever else the
    instance holds; and where the tables of the types before [typ]
    have their numbers of columns and the table of [typ] has not, the
    error names [typ] and the number of features expected. *)
Theorem check_size_x_node_tables s x :
  (length (x0 x) ≠ n_types s →
   _check_size_x s x = Raise (ValueError MsgNodeFeatureArrayPerType)) ∧
  (∀ typ m n_features,
     length (x0 x) = n_types s →
     x0 x !! typ = Some (Some m) →
     l_n_features s !! typ = Some n_features →
     N.of_nat (ncols m) ≠ n_features →
     (∀ typ', typ' < typ →
        ∃ m', x0 x !! typ' = Some (Some m') ∧
              l_n_features s !! typ' = Some (N.of_nat (ncols m'))) →
     _check_size_x s x
     = Raise (ValueError (MsgExpectedFeatures n_features typ))).
Proof.
  split.
  - intros Hlen. unfold _check_size_x, _get_node_features, raise_if.
    by rewrite bool_decide_true by done.
  - intros typ m n Hlen Hm Hn Hne Hbefore.
    unfold _check_size_x, _get_node_features. unfold raise_if at 1.
    rewrite bool_decide_false by (intros ?; done). simpl.
    match goal with
    | |- context [for_ (enumerate (x0 x)) ?b] => set (body := b)
    end.
    assert (for_ (enumerate (x0 x)) body
            = Raise (ValueError (MsgExpectedFeatures n typ))) as ->;
      [|done].
    eapply (for_first_Raise _ _ typ (typ, Some m)).
    + by apply enumerate_lookup.
    + intros q [j nf] Hq Hqj.
      apply enumerate_lookup in Hqj as [Hj Hnf]. simpl in *. subst j.
      destruct (Hbefore q Hq) as (m' & Hm' & Hf').
      rewrite Hm' in Hnf. injection Hnf as <-.
      unfold body, check_features_of_type, getitem, raise_if. simpl.
      rewrite Hf'. simpl.
      by rewrite bool_decide_false by (intros ?; done).
    + unfold body, check_features_of_type, getitem, raise_if. simpl.
      rewrite Hn. simpl. by rewrite bool_decide_true by done.
Qed.

(** A node table that is [None] is not accepted by [_check_size_x],
    which reads the shape of every entry of [x[0]]: the instance is
    refused, and where the tables of the types before have their
    numbers of columns, with the [AttributeError] of [None.shape]. *)
Theorem check_size_x_missing_node_table s x typ :
  x0 x !! typ = Some None →
  (∃ e, _check_size_x s x = Raise e) ∧
  (length (x0 x) = n_types s →
   (∀ typ', typ' < typ →
      ∃ m', x0 x !! typ' = Some (Some m') ∧
            l_n_features s !! typ' = Some (N.of_nat (ncols m'))) →
   _check_size_x s x = Raise AttributeError).
Proof.
  intros Hnone. split.
  - destruct (check_size_x_cases s x) as [Hok|Hraise]; [|done].
    apply check_size_x_fits in Hok as [_ Hfit].
    by destruct (Hfit typ None Hnone) as (m & [=] & _).
  - intros Hlen Hbefore.
    unfold _check_size_x, _get_node_features. unfold raise_if at 1.
    rewrite bool_decide_false by (intros ?; done). simpl.
    match goal with
    | |- context [for_ (enumerate (x0 x)) ?b] => set (body := b)
    end.
    assert (for_ (enumerate (x0 x)) body = Raise AttributeError) as ->;
      [|done].
    eapply (for_first_Raise _ _ typ (typ, None)).
    + by apply enumerate_lookup.
    + intros q [j nf] Hq Hqj.
      apply enumerate_lookup in Hqj as [Hj Hnf]. simpl in *. subst j.
      destruct (Hbefore q Hq) as (m' & Hm' & Hf').
      rewrite Hm' in Hnf. injection Hnf as <-.
      unfold body, check_features_of_type, getitem, raise_if. simpl.
      rewrite Hf'. simpl.
      by rewrite bool_decide_false by (intros ?; done).
    + done.
Qed.

(** Fewer edge tables than pairs of types: an instance whose node
    tables fit and whose edge tables are well shaped is refused.  The
    pairs are taken in row-major order, so where the edges of the
    pairs that have a table run between existing nodes, the error is
    the [IndexError] of reading [x[1]] past its end. *)
Theorem check_size_x_few_edge_tables s x :
  node_tables_fit s x → Forall edge_table_shaped (x1 x) →
  length (x1 x) < n_types s * n_types s →
  (∃ e, _check_size_x s x = Raise e) ∧
  ((∀ typ1 typ2, typ1 < n_types s → typ2 < n_types s →
      endpoints_in_range s x typ1 typ2) →
   _check_size_x s x = Raise IndexError).
Proof.
  intros Hfit Hshaped Hfew.
  assert (0 < n_types s) as Hpos by (destruct (n_types s); lia).
  set (p := length (x1 x)).
  assert (p `div` n_types s < n_types s) as H1
    by (apply Nat.Div0.div_lt_upper_bound; lia).
  assert (p `mod` n_types s < n_types s) as H2
    by (apply Nat.mod_upper_bound; lia).
  assert (p = p `div` n_types s * n_types s + p `mod` n_types s) as Hdm.
  { rewrite (Nat.div_mod_eq p (n_types s)) at 1. lia. }
  pose proof (iter_pairs_lookup (n_types s) _ _ H1 H2) as Hp.
  rewrite <- Hdm in Hp.
  assert (check_edges_of_pair s x (x0 x) (p `div` n_types s)
            (p `mod` n_types s) = Raise IndexError) as Hraise.
  { unfold check_edges_of_pair, _get_edges_by_type, getitem.
    rewrite (lookup_ge_None_2 (x1 x)); [done|]. rewrite <- Hdm.
    unfold p. lia. }
  rewrite check_size_x_fit by done.
  assert (for_ (x1 x) check_edge_shape = Ok ()) as ->.
  { apply for_Ok. eapply Forall_impl; [exact Hshaped|].
    intros [e'|] He'; apply check_edge_shape_Ok; [|done].
    destruct He' as (m & Hs & _). by exists m. }
  simpl.
  match goal with
  | |- context [for_ _ ?b] => set (body := b)
  end.
  split.
  - destruct (for_ (iter_pairs (n_types s)) body) as [[]|e] eqn:Hloop;
      [|by exists e].
    exfalso. apply for_Ok in Hloop.
    pose proof (Forall_lookup_1 _ _ _ _ Hloop Hp) as Hc.
    unfold body in Hc. congruence.
  - intros Hin.
    assert (for_ (iter_pairs (n_types s)) body = Raise IndexError) as ->;
      [|done].
    eapply for_first_Raise; [exact Hp | | exact Hraise].
    intros q [a b] Hq Hqb.
    apply iter_pairs_lookup_inv in Hqb as (-> & Ha & Hb). unfold body.
    destruct (check_edges_of_pair_present_cases s x a b)
      as [[Hok _]|(e & m & He & Hm & _)]; [done..| |done|].
    { unfold p in Hq. lia. }
    rewrite (dangling_message_None s x a b e) in Hm; [done..|].
    by apply Hin.
Qed.

End ValidatorSound.

(** ** Cleaning the tables of an instance *)

Section Cleaning.
Context {R : Type}.
Implicit Types (s : t R) (x : instance R).

(** [_get_node_features]: as it stands, [x[0]]; cleaned, one table per
    entry of [x[0]] that has a type with its number of features, a
    table that is present as it is and [None] as a table without rows
    that has the type's number of columns.  A cleaned table has as
    many rows as the type has nodes; where no entry is [None] and
    every entry has a type, the cleaned list is [x[0]] itself; and
    cleaning what was cleaned changes nothing. *)
Theorem get_node_features_clean s x :
  _get_node_features s x false = x0 x ∧
  length (_get_node_features s x true)
  = length (x0 x) `min` length (l_n_features s) ∧
  (∀ typ nf n_features,
     x0 x !! typ = Some nf → l_n_features s !! typ = Some n_features →
     _get_node_features s x true !! typ
     = Some (Some (default (empty_rows (N.to_nat n_features)) nf))) ∧
  (∀ typ nf,
     _get_node_features s x true !! typ = Some nf →
     ∃ m, nf = Some m ∧ nrows m = node_count x typ) ∧
  (length (x0 x) ≤ length (l_n_features s) →
   (∀ typ, x0 x !! typ ≠ Some None) →
   _get_node_features s x true = x0 x) ∧
  _get_node_features s
    (mk_instance (_get_node_features s x true) (x1 x)) true
  = _get_node_features s x true.
Proof.
  split; [done|]. unfold _get_node_features. simpl.
  split; [by rewrite length_fmap, length_zip_with|].
  split; [|split; [|split]].
  - intros typ nf n Hnf Hn. rewrite list_lookup_fmap, lookup_zip_with.
    rewrite Hnf, Hn. simpl. by destruct nf.
  - intros typ nf. rewrite list_lookup_fmap, lookup_zip_with.
    unfold node_count.
    destruct (x0 x !! typ) as [[m|]|]; simpl; [| |done];
      (destruct (l_n_features s !! typ); simpl; [|done]);
      intros [= <-]; by eexists.
  - intros Hlen Hsome. apply list_eq. intros typ.
    rewrite list_lookup_fmap, lookup_zip_with.
    destruct (x0 x !! typ) as [nf|] eqn:Hnf; simpl; [|done].
    destruct (lookup_lt_is_Some_2 (l_n_features s) typ) as [n ->].
    { apply lookup_lt_Some in Hnf. lia. }
    simpl. destruct nf as [m|]; [done|]. by destruct (Hsome typ).
  - apply list_eq. intros typ.
    rewrite !list_lookup_fmap, !lookup_zip_with, list_lookup_fmap.
    rewrite lookup_zip_with.
    destruct (x0 x !! typ) as [nf|]; simpl; [|done].
    destruct (l_n_features s !! typ) as [n|]; simpl; [|done].
    by destruct nf.
Qed.

(** [_get_edges]: as it stands, [x[1]]; cleaned, where no table is an
    array without dimensions, a list as long as [x[1]] in which
    [None] and the tables without rows are replaced by the array of
    shape (0, 0) and the tables with rows are kept.  Cleaning what
    was cleaned changes nothing.  On an array without dimensions,
    [len] raises [TypeError]. *)
Theorem get_edges_clean s x :
  _get_edges s x false = Ok (x1 x) ∧
  (Forall (λ edges, ∀ e, edges = Some e → shape e ≠ []) (x1 x) →
   ∃ l, _get_edges s x true = Ok l ∧
        length l = length (x1 x) ∧
        (∀ k, x1 x !! k = Some None → l !! k = Some (Some empty_0_0)) ∧
        (∀ k e, x1 x !! k = Some (Some e) → len e = Ok 0 →
                l !! k = Some (Some empty_0_0)) ∧
        (∀ k e n, x1 x !! k = Some (Some e) → len e = Ok (S n) →
                  l !! k = Some (Some e)) ∧
        _get_edges s (mk_instance (x0 x) l) true = Ok l) ∧
  (∀ k e, x1 x !! k = Some (Some e) → shape e = [] →
     (∀ q e', q < k → x1 x !! q = Some (Some e') → shape e' ≠ []) →
     _get_edges s x true = Raise TypeError).
Proof.
  split; [done|]. unfold _get_edges. simpl.
  match goal with
  | |- context [mapM ?f (x1 x)] => set (clean := f)
  end.
  set (g := λ edges : option (ndarray Z),
              Some (match edges with
                    | Some e => match shape e with
                                | 0 :: _ => empty_0_0
                                | _ => e
                                end
                    | None => empty_0_0
                    end)).
  assert (∀ edges, (∀ e, edges = Some e → shape e ≠ []) →
            clean edges = Ok (g edges)) as Hclean.
  { intros [e|] He; [|done]. specialize (He e eq_refl).
    unfold clean, g, len. destruct (shape e) as [|[|n] sh]; done. }
  split.
  - intros Hdims. exists (g <$> x1 x).
    split; [|split; [|split; [|split; [|split]]]].
    + apply mapM_Ok_fmap. eapply Forall_impl; [exact Hdims|].
      intros edges He. by apply Hclean.
    + by rewrite length_fmap.
    + intros k Hk. by rewrite list_lookup_fmap, Hk.
    + intros k e Hk Hlen. rewrite list_lookup_fmap, Hk. simpl.
      unfold g, len in *. by destruct (shape e) as [|[|n] sh].
    + intros k e n Hk Hlen. rewrite list_lookup_fmap, Hk. simpl.
      unfold g, len in *. by destruct (shape e) as [|[|n'] sh].
    + rewrite (mapM_Ok_fmap clean g).
      * f_equal. rewrite <- list_fmap_compose. apply list_fmap_ext.
        intros k [e|] _; [|done]. unfold g. simpl.
        by destruct (shape e) as [|[|n] sh] eqn:Hs; simpl; rewrite ?Hs.
      * apply Forall_fmap. eapply Forall_impl; [exact Hdims|].
        intros edges Hd.
        change (clean (g edges) = Ok (g (g edges))).
        apply Hclean. intros e He. unfold g in He. injection He as <-.
        destruct edges as [e'|]; [|done]. specialize (Hd e' eq_refl).
        by destruct (shape e') as [|[|n] sh] eqn:Hs; rewrite ?Hs.
  - intros k e Hk Hs Hbefore.
    eapply mapM_first_Raise; [exact Hk | |].
    + intros q edges Hq Hedges. exists (g edges). apply Hclean.
      intros e' ->. by eapply Hbefore.
    + unfold clean, len. by rewrite Hs.
Qed.

(** The cleaned edge tables are not input of [_check_size_x]: where a
    table was missing or without rows the cleaned list holds an array
    of shape (0, 0), which has not two columns, and an instance with
    the cleaned list, node tables that fit or not, is refused; with
    node tables that fit the error is one of the shape of an edge
    table. *)
Theorem check_size_x_cleaned_edges s x l k edges :
  _get_edges s x true = Ok l →
  x1 x !! k = Some edges →
  edges = None ∨ (∃ e, edges = Some e ∧ len e = Ok 0) →
  (∃ err, _check_size_x s (mk_instance (x0 x) l) = Raise err) ∧
  (node_tables_fit s x →
   ∃ err, _check_size_x s (mk_instance (x0 x) l) = Raise err ∧
          kind_of err = Some StructuralMismatch).
Proof.
  intros Hl Hk Hedges. unfold _get_edges in Hl. simpl in Hl.
  apply mapM_Ok in Hl.
  destruct (Forall2_lookup_l _ _ _ _ _ Hl Hk) as (c & Hc & Hclean).
  assert (c = Some empty_0_0) as ->.
  { destruct Hedges as [->|(e & -> & Hlen)]; simpl in Hclean.
    - by injection Hclean as <-.
    - rewrite Hlen in Hclean. simpl in Hclean. by injection Hclean as <-. }
  set (x' := mk_instance (x0 x) l).
  assert (for_ (x1 x') check_edge_shape ≠ Ok ()) as Hshape.
  { intros Hok. apply for_Ok in Hok.
    pose proof (Forall_lookup_1 _ _ _ _ Hok Hc) as He.
    apply check_edge_shape_Ok in He as [m [=]]. }
  split.
  - destruct (check_size_x_cases s x') as [Hok|Hraise]; [|done].
    by apply check_size_x_Ok in Hok as (_ & _ & Hok & _).
  - intros Hfit. rewrite (check_size_x_fit s x') by done.
    destruct (for_cases (λ err, kind_of err = Some StructuralMismatch)
                (x1 x') check_edge_shape) as [Hok|(err & -> & Herr)].
    + intros a _. apply check_edge_shape_cases.
    + done.
    + by exists err.
Qed.

End Cleaning.

(** ** The label validator: the count, and what it accepts *)

Section LabelAcceptance.
Context {R : Type} (rone : R).
Implicit Types (s : t R) (x : instance R) (Y : list Z).

Lemma node_counts_lookup s x typ :
  typ < length (x0 x) → typ < length (l_n_features s) →
  node_counts s x !! typ = Some (node_count x typ).
Proof.
  intros H0 Hf. unfold node_counts, _get_node_features, node_count.
  rewrite !list_lookup_fmap, lookup_zip_with.
  destruct (lookup_lt_is_Some_2 (x0 x) typ H0) as [nf ->].
  destruct (lookup_lt_is_Some_2 (l_n_features s) typ Hf) as [n ->].
  by destruct nf.
Qed.

(** Not one label per node: the error of line 194. *)
Lemma check_size_xy_miscount s x Y :
  length Y ≠ sum_counts (node_counts s x) →
  _check_size_xy s x (Some Y)
  = Raise (ValueError (MsgLabelPerNode (sum_counts (node_counts s x))
                         (length Y))).
Proof.
  intros Hlen. unfold _check_size_xy. rewrite cleaned_counts. simpl.
  unfold raise_if. by rewrite bool_decide_true by done.
Qed.

(** A round that passes: the run is not empty and within the bounds
    of the type. *)
Lemma check_labels_of_type_Ok_bounds s Y i typ m st i' :
  check_labels_of_type s Y i typ (Some m) st = Ok i' →
  ∃ lo hi,
    _l_type_startindex s !! typ = Some lo ∧
    _l_type_startindex s !! (typ + 1) = Some hi ∧
    Py.slice Y i (i + nrows m) ≠ [] ∧
    Forall (λ v, Z.of_N lo ≤ v < Z.of_N hi)%Z (Py.slice Y i (i + nrows m)).
Proof.
  unfold check_labels_of_type. simpl.
  set (run := Py.slice Y i (i + nrows m)). intros H.
  apply bind_Ok in H as (a & Ha & H).
  apply bind_Ok in H as ([] & Hneg & H).
  apply bind_Ok in H as (lo & Hlo & H).
  apply bind_Ok in H as ([] & Hlow & H).
  apply bind_Ok in H as (b & Hb & H).
  apply bind_Ok in H as (hi & Hhi & H).
  apply bind_Ok in H as ([] & Hhigh & _).
  assert (run ≠ []) as Hne by (intros Hnil; by rewrite Hnil in Ha).
  destruct (np_min_Ok run Hne) as (a' & Ha' & Has).
  destruct (np_max_Ok run Hne) as (b' & Hb' & Hbs).
  assert (a' = a) as -> by congruence.
  assert (b' = b) as -> by congruence.
  unfold getitem in Hlo, Hhi. unfold raise_if in Hlow, Hhigh.
  destruct (_l_type_startindex s !! typ) as [lo'|]; [|done].
  injection Hlo as ->.
  destruct (_l_type_startindex s !! (typ + 1)) as [hi'|]; [|done].
  injection Hhi as ->.
  destruct (decide (a < Z.of_N lo)%Z) as [Hl|Hl];
    [by rewrite bool_decide_true in Hlow by done|].
  destruct (decide (b >= Z.of_N hi)%Z) as [Hh|Hh];
    [by rewrite bool_decide_true in Hhigh by done|].
  exists lo, hi. do 3 (split; [done|]).
  apply Forall_forall. intros v Hv. split.
  - destruct (decide (Z.of_N lo ≤ v)%Z) as [|Hout]; [done|].
    exfalso. apply Hl, Has, Exists_exists. exists v. split; [done | lia].
  - destruct (decide (v < Z.of_N hi)%Z) as [|Hout]; [done|].
    exfalso. apply Hh.
    assert (Z.of_N hi ≤ b)%Z; [|lia].
    apply Hbs, Exists_exists. exists v. split; [done | lia].
Qed.

(** The number of labels that [_check_size_xy] expects is the number
    of nodes of the tables that have a type: a table that is [None]
    counts for no node.  A label vector of another length is refused
    with both numbers, before any label is looked at. *)
Theorem check_size_xy_count s x Y :
  length (node_counts s x)
  = length (x0 x) `min` length (l_n_features s) ∧
  (∀ typ, typ < length (x0 x) → typ < length (l_n_features s) →
     node_counts s x !! typ = Some (node_count x typ)) ∧
  (length Y ≠ sum_counts (node_counts s x) →
   _check_size_xy s x (Some Y)
   = Raise (ValueError (MsgLabelPerNode (sum_counts (node_counts s x))
                          (length Y))) ∧
   kind_of (ValueError (MsgLabelPerNode (sum_counts (node_counts s x))
                          (length Y))) = Some LabelCountMismatch).
Proof.
  split; [|split].
  - unfold node_counts, _get_node_features.
    by rewrite !length_fmap, length_zip_with.
  - apply node_counts_lookup.
  - intros Hlen. split; [by apply check_size_xy_miscount | done].
Qed.

(** What [_check_size_xy] accepts: it returns [True] exactly when
    there is one label per node and, for every type that has a table,
    the run of the type is not empty and holds only labels from the
    first state of the type up to the first state of the next.  The
    labels it accepts are states of the schema. *)
Theorem check_size_xy_accepts_iff s x Y :
  constructed rone s →
  (_check_size_xy s x (Some Y) = Ok (Some true) ↔
   length Y = sum_counts (node_counts s x) ∧
   ∀ typ, typ < length (node_counts s x) → run_in_bounds s x Y typ) ∧
  (_check_size_xy s x (Some Y) = Ok (Some true) →
   Forall (λ v, 0 ≤ v < Z.of_N (_n_states s))%Z Y).
Proof.
  intros Hs.
  set (rounds := zip3 (seq 0 (n_types s)) (_get_node_features s x true)
                   (l_n_states s)).
  set (step := λ i_start '(typ, nf, n_states),
                 check_labels_of_type s Y i_start typ nf n_states).
  set (cnt := (λ '(typ, nf, st), from_option nrows 0 nf)
              : nat * option (matrix R) * N → nat).
  assert (cnt <$> rounds = node_counts s x) as Hcnt
    by apply (label_rounds_counts rone s x Hs).
  assert (∀ j a j', step j a = Ok j' → j' = j + cnt a) as Hstep.
  { intros j [[typ' nf] st'] j' Hj.
    by apply check_labels_of_type_Ok_inv in Hj. }
  assert (∀ typ, typ < length (node_counts s x) →
            ∃ m st, rounds !! typ = Some (typ, Some m, st) ∧
                    node_counts s x !! typ = Some (nrows m)) as Hround.
  { intros typ Htyp. unfold node_counts in Htyp.
    rewrite length_fmap in Htyp.
    destruct (lookup_lt_is_Some_2 _ typ Htyp) as [nf Hnf].
    destruct (cleaned_lookup s x typ nf Hnf) as [m ->].
    destruct (lookup_lt_is_Some_2 (l_n_states s) typ) as [st Hst].
    { pose proof (cleaned_length rone s x Hs). lia. }
    exists m, st. split; [by apply (label_rounds_lookup rone)|].
    unfold node_counts. by rewrite list_lookup_fmap, Hnf. }
  assert (_check_size_xy s x (Some Y) = Ok (Some true) ↔
          length Y = sum_counts (node_counts s x) ∧
          ∀ typ, typ < length (node_counts s x) → run_in_bounds s x Y typ)
    as Hiff.
  { split.
    - intros Hok.
      destruct (decide (length Y = sum_counts (node_counts s x)))
        as [Hlen|Hlen]; cycle 1.
      { by rewrite check_size_xy_miscount in Hok. }
      split; [done|]. rewrite (check_size_xy_loop s x Y Hlen) in Hok.
      fold rounds in Hok. fold step in Hok.
      destruct (for_acc rounds 0 step) as [i'|] eqn:Hloop; [|done].
      intros typ Htyp. destruct (Hround typ Htyp) as (m & st & Hl & Hc).
      pose proof (for_acc_offsets_Ok_inv step cnt rounds 0 i' Hstep Hloop
                    typ _ Hl) as Hr.
      rewrite Hcnt in Hr. simpl in Hr.
      apply check_labels_of_type_Ok_bounds in Hr
        as (lo & hi & Hlo & Hhi & Hne & Hall).
      exists lo, hi. unfold label_run, run_start. rewrite Hc. simpl.
      done.
    - intros [Hlen Hall]. rewrite (check_size_xy_loop s x Y Hlen).
      fold rounds. fold step.
      rewrite (for_acc_offsets_Ok step cnt); [done|].
      intros k [[typ nf] st] Hk. rewrite Hcnt.
      apply (label_rounds_lookup rone) in Hk as (-> & Hnf & Hst); [|done].
      destruct (cleaned_lookup s x k nf Hnf) as [m ->].
      assert (node_counts s x !! k = Some (nrows m)) as Hc.
      { unfold node_counts. by rewrite list_lookup_fmap, Hnf. }
      simpl. apply check_labels_in_bounds; [done|].
      apply Hall. by eapply lookup_lt_Some. }
  split; [done|].
  intros [Hlen Hall]%Hiff. apply Forall_lookup_2. intros p v Hp.
  pose proof (lookup_lt_Some _ _ _ Hp) as Hplt. rewrite Hlen in Hplt.
  apply counts_cover in Hplt as (typ & c & Hc & Hr).
  pose proof (lookup_lt_Some _ _ _ Hc) as Htyp.
  destruct (Hall typ Htyp) as (lo & hi & Hlo & Hhi & _ & Hrun).
  assert (v ∈ label_run s x Y typ) as Hv.
  { apply list_elem_of_lookup.
    exists (p - sum_counts (take typ (node_counts s x))).
    unfold label_run, run_start. rewrite Hc. simpl.
    rewrite slice_lookup by lia. rewrite <- Hp. f_equal. lia. }
  eapply Forall_forall in Hrun; [|exact Hv]. simpl in Hrun.
  assert (typ + 1 ≤ n_types s) as Hle.
  { pose proof (cleaned_length rone s x Hs) as Hcl.
    destruct (constructed_lengths rone s Hs) as [Hst _].
    unfold node_counts in Htyp. rewrite length_fmap in Htyp. lia. }
  rewrite (startindex_lookup rone) in Hhi by done. injection Hhi as <-.
  assert (_n_states s = Py.sum (l_n_states s)) as ->.
  { destruct Hs as (n & states & feats & im & cw & H).
    by apply init_inv in H as (f & l_cw & c_w & -> & _ & _ & _ & _ & ->). }
  pose proof (sum_take_le (l_n_states s) (typ + 1)). lia.
Qed.

End LabelAcceptance.

(** ** The potential computer: missing, misfit and too few tables *)

Lemma for_acc_app {A S} (l1 l2 : list A) (s : S) body :
  for_acc (l1 ++ l2) s body
  = for_acc l1 s body ≫= λ s', for_acc l2 s' body.
Proof.
  revert s. induction l1 as [|a l1 IH]; intros s; simpl; [done|].
  destruct (body s a) as [s'|e]; simpl; [apply IH | done].
Qed.

Section PotentialsCases.
Context {R : Type} (rone : R)
  (dot_entry : matrix R → matrix R → nat → nat → R).
Implicit Types (s : t R) (x : instance R) (w : list R).

Lemma weight_offset_S s typ :
  weight_offset s (S typ)
  = (weight_offset s typ + weights_of_type s typ)%N.
Proof.
  unfold weight_offset. rewrite seq_S, fmap_app, sum_app. simpl.
  rewrite sum_cons, sum_nil. lia.
Qed.

Lemma weight_offset_mono s p q :
  p ≤ q → (weight_offset s p ≤ weight_offset s q)%N.
Proof.
  induction 1 as [|q _ IH]; [lia|]. rewrite weight_offset_S. lia.
Qed.

Lemma weight_offset_take_seq s k n :
  k ≤ n →
  Py.sum (take k (weights_of_type s <$> seq 0 n)) = weight_offset s k.
Proof.
  intros Hk. unfold weight_offset. rewrite <- fmap_take, take_seq.
  by replace (k `min` n) with k by lia.
Qed.

(** A table of another number of columns than the type has features:
    numpy cannot multiply. *)
Lemma potentials_of_type_misfit w (i_w n_states n_features : N)
    (m : matrix R) :
  N.of_nat (ncols m) ≠ n_features →
  (i_w + n_states * n_features ≤ N.of_nat (length w))%N →
  potentials_of_type dot_entry w i_w (Some m) n_states n_features
  = Raise (ValueError MsgShapesNotAligned).
Proof.
  intros Hcols Hlen. unfold potentials_of_type.
  set (ns := N.to_nat n_states). set (nf := N.to_nat n_features).
  set (v := Py.slice w (N.to_nat i_w)
              (N.to_nat (i_w + n_states * n_features))).
  assert (N.to_nat (i_w + n_states * n_features)
          = N.to_nat i_w + ns * nf) as Hnw by (unfold ns, nf; lia).
  assert (length v = ns * nf) as Hv.
  { unfold v. rewrite Hnw. apply slice_length. lia. }
  rewrite (reshape_Ok v ns nf Hv). simpl. unfold Np.dot.
  rewrite bool_decide_false; [done|].
  unfold nrows, transpose. simpl. rewrite length_fmap, length_seq.
  unfold nf. lia.
Qed.

(** A cleaned table: the table of the instance where there is one,
    which fits when that one does, and a table without rows that fits
    where there is none. *)
Lemma cleaned_round_fits s x k f n_features :
  (∀ m, x0 x !! k = Some (Some m) →
        l_n_features s !! k = Some (N.of_nat (ncols m))) →
  _get_node_features s x true !! k = Some f →
  l_n_features s !! k = Some n_features →
  ∃ m, f = Some m ∧ N.of_nat (ncols m) = n_features ∧
       nrows m = node_count x k ∧
       (x0 x !! k = Some None → m = empty_rows (N.to_nat n_features)).
Proof.
  intros Hfit. unfold _get_node_features, node_count.
  rewrite list_lookup_fmap, lookup_zip_with.
  destruct (x0 x !! k) as [[m|]|] eqn:Hx; simpl; [| |done];
    intros Hf Hnf; rewrite Hnf in Hf; simpl in Hf; injection Hf as <-.
  - exists m. pose proof (Hfit m eq_refl) as Hc. rewrite Hnf in Hc.
    injection Hc as ->. done.
  - eexists. split; [done|]. simpl. split; [lia | done].
Qed.

Lemma cleaned_idem s x :
  _get_node_features s
    (mk_instance (_get_node_features s x true) (x1 x)) true
  = _get_node_features s x true.
Proof.
  unfold _get_node_features. simpl. apply list_eq. intros typ.
  rewrite !list_lookup_fmap, !lookup_zip_with, list_lookup_fmap.
  rewrite lookup_zip_with.
  destruct (x0 x !! typ) as [nf|]; simpl; [|done].
  destruct (l_n_features s !! typ) as [n|]; simpl; [|done].
  by destruct nf.
Qed.

(** The rounds of the loop of [_get_unary_potentials]: one per table
    that has a type. *)
Lemma unary_rounds s x :
  constructed rone s →
  let rounds := zip3 (_get_node_features s x true) (l_n_states s)
                  (l_n_features s) in
  let len := length (x0 x) `min` n_types s in
  length rounds = len ∧
  weights_of_round <$> rounds = weights_of_type s <$> seq 0 len ∧
  ∀ k, k < len →
    ∃ f ns nf, rounds !! k = Some (f, ns, nf) ∧
      _get_node_features s x true !! k = Some f ∧
      l_n_states s !! k = Some ns ∧ l_n_features s !! k = Some nf.
Proof.
  intros Hs rounds len.
  destruct (constructed_lengths rone s Hs) as [Hst Hft].
  assert (length (_get_node_features s x true) = len) as Hcl.
  { unfold _get_node_features, len.
    rewrite length_fmap, length_zip_with. lia. }
  assert (∀ k, k < len →
            ∃ f ns nf, rounds !! k = Some (f, ns, nf) ∧
              _get_node_features s x true !! k = Some f ∧
              l_n_states s !! k = Some ns ∧ l_n_features s !! k = Some nf)
    as Hrounds.
  { intros k Hk.
    destruct (lookup_lt_is_Some_2 (_get_node_features s x true) k)
      as [f Hf]; [lia|].
    destruct (lookup_lt_is_Some_2 (l_n_states s) k) as [ns Hns];
      [unfold len in Hk; lia|].
    destruct (lookup_lt_is_Some_2 (l_n_features s) k) as [nf Hnf];
      [unfold len in Hk; lia|].
    exists f, ns, nf. split; [by apply zip3_lookup | done]. }
  assert (length rounds = len) as Hlen.
  { unfold rounds, zip3. rewrite !length_zip_with.
    unfold len in *. lia. }
  split; [done|]. split; [|done].
  apply list_eq. intros k. rewrite !list_lookup_fmap.
  destruct (decide (k < len)) as [Hk|Hk].
  - destruct (Hrounds k Hk) as (f & ns & nf & -> & _ & Hns & Hnf).
    rewrite lookup_seq_lt by done. simpl.
    unfold weights_of_type. by rewrite Hns, Hnf.
  - rewrite lookup_seq_ge by lia.
    by rewrite (lookup_ge_None_2 rounds) by lia.
Qed.

(** The run of the loop on any number of tables, each of them
    missing or with its type's number of columns. *)
Lemma unary_potentials_run_prefix s x w :
  constructed rone s → present_tables_fit s x →
  N.of_nat (length w) = size_unaries s →
  let len := length (x0 x) `min` n_types s in
  ∃ pots,
    unary_potentials_loop dot_entry s
      (_get_node_features s x true) w
    = Ok (pots, weight_offset s len) ∧
    length pots = len ∧
    ∀ typ f ns nf,
      _get_node_features s x true !! typ = Some f →
      l_n_states s !! typ = Some ns → l_n_features s !! typ = Some nf →
      ∃ P, pots !! typ = Some P ∧
           potentials_of_type dot_entry w (weight_offset s typ)
             f ns nf = Ok P.
Proof.
  intros Hs Hfit Hw len. unfold unary_potentials_loop. cbv zeta.
  pose proof (unary_rounds s x Hs) as Hr. cbv zeta in Hr. fold len in Hr.
  destruct Hr as (Hlen & Hnw & Hrounds).
  set (l := zip3 (_get_node_features s x true) (l_n_states s)
              (l_n_features s)) in *.
  destruct (unary_loop_Ok dot_entry w l [] 0%N)
    as (Ps & Hloop & HPs & Hk).
  { intros k f ns nf Hk.
    pose proof (lookup_lt_Some _ _ _ Hk) as Hlt. rewrite Hlen in Hlt.
    apply zip3_lookup in Hk as (Hf & Hns & Hnf).
    destruct (cleaned_round_fits s x k f nf) as (m & -> & Hc & _);
      [intros m; apply Hfit | done..|].
    exists m. split; [done|]. split; [done|].
    rewrite Hnw, N.add_0_l, Hw, (size_unaries_sum rone s Hs).
    rewrite weight_offset_take_seq by lia.
    apply weight_offset_mono. unfold len in Hlt. lia. }
  exists Ps. rewrite Hloop. simpl. rewrite Hnw, N.add_0_l.
  split; [done|]. split; [congruence|].
  intros typ f ns nf Hf Hns Hnf.
  destruct (Hk typ f ns nf) as (P & HP & Hpot).
  { by apply zip3_lookup. }
  exists P. split; [done|].
  rewrite Hnw, N.add_0_l, weight_offset_take_seq in Hpot; [done|].
  apply lookup_lt_Some in Hf.
  unfold _get_node_features in Hf.
  rewrite length_fmap, length_zip_with in Hf.
  destruct (constructed_lengths rone s Hs) as [_ Hft].
  unfold len. lia.
Qed.

End PotentialsCases.

Section PotentialsMore.
Context {R : Type} (rone : R)
  (dot_entry : matrix R → matrix R → nat → nat → R).
Implicit Types (s : t R) (x : instance R) (w : list R).

(** A node table that is [None] stands for a type without nodes.  With
    one entry per type in [x[0]], each a table with the type's number
    of columns or [None], and a weight vector of the schema's size,
    [_get_unary_potentials] returns one table per type, with one row
    per node and one column per state of the type; for a type whose
    entry is [None] it is the table without rows.  The result is that
    of the instance with the cleaned tables. *)
Theorem unary_potentials_missing_tables s x w :
  constructed rone s →
  length (x0 x) = n_types s →
  present_tables_fit s x →
  N.of_nat (length w) = size_unaries s →
  ∃ pots,
    _get_unary_potentials dot_entry s x w = Ok pots ∧
    _get_unary_potentials dot_entry s
      (mk_instance (_get_node_features s x true) (x1 x)) w = Ok pots ∧
    length pots = n_types s ∧
    ∀ typ n_states,
      l_n_states s !! typ = Some n_states →
      ∃ P, pots !! typ = Some P ∧
           nrows P = node_count x typ ∧
           ncols P = N.to_nat n_states ∧
           (x0 x !! typ = Some None →
            P = empty_rows (N.to_nat n_states)).
Proof.
  intros Hs Hlen Hfit Hw.
  destruct (constructed_lengths rone s Hs) as [Hst Hft].
  destruct (unary_potentials_run_prefix rone dot_entry s x w
              Hs Hfit Hw) as (pots & Hloop & Hpl & Hpots).
  cbv zeta in Hloop, Hpl. rewrite Hlen, Nat.min_id in Hloop, Hpl.
  rewrite <- (size_unaries_sum rone s Hs) in Hloop.
  exists pots. split; [by apply get_unary_potentials_of_loop|].
  split.
  { apply get_unary_potentials_of_loop; [done|].
    by rewrite cleaned_idem. }
  split; [done|].
  intros typ ns Hns.
  pose proof (lookup_lt_Some _ _ _ Hns) as Htyp.
  destruct (lookup_lt_is_Some_2 (l_n_features s) typ) as [nf Hnf]; [lia|].
  destruct (lookup_lt_is_Some_2 (_get_node_features s x true) typ)
    as [f Hf].
  { unfold _get_node_features. rewrite length_fmap, length_zip_with. lia. }
  destruct (cleaned_round_fits s x typ f nf) as (m & -> & Hc & Hr & Hnone);
    [intros m'; apply Hfit | done..|].
  destruct (Hpots typ (Some m) ns nf Hf Hns Hnf) as (P & HP & Hpot).
  destruct (potentials_of_type_Ok dot_entry w
              (weight_offset s typ) ns nf m)
    as (P' & HP' & HrP & HcP & _).
  { done. }
  { rewrite Hw, (size_unaries_sum rone s Hs).
    assert (weight_offset s typ + ns * nf
            = weight_offset s (S typ))%N as ->.
    { rewrite weight_offset_S. unfold weights_of_type.
      by rewrite Hns, Hnf. }
    apply weight_offset_mono. lia. }
  rewrite Hpot in HP'. injection HP' as <-.
  exists P. split; [done|]. split; [congruence|]. split; [done|].
  intros Hx. rewrite (Hnone Hx) in HrP.
  destruct P as [c r]. unfold nrows in HrP. simpl in *.
  apply nil_length_inv in HrP. by subst.
Qed.

(** A node table with another number of columns than its type has
    features is not reported as such by [_get_unary_potentials]: with
    a weight vector of the schema's size, and the tables of the types
    before [typ] missing or with their numbers of columns, the error
    is numpy's, of the product of the table and the weights. *)
Theorem unary_potentials_misfit s x w typ m n_features :
  constructed rone s →
  N.of_nat (length w) = size_unaries s →
  x0 x !! typ = Some (Some m) →
  l_n_features s !! typ = Some n_features →
  N.of_nat (ncols m) ≠ n_features →
  (∀ typ' m', typ' < typ → x0 x !! typ' = Some (Some m') →
     l_n_features s !! typ' = Some (N.of_nat (ncols m'))) →
  _get_unary_potentials dot_entry s x w
  = Raise (ValueError MsgShapesNotAligned).
Proof.
  intros Hs Hw Hm Hnf Hne Hbefore.
  destruct (constructed_lengths rone s Hs) as [Hst Hft].
  pose proof (lookup_lt_Some _ _ _ Hm) as Htyp0.
  pose proof (lookup_lt_Some _ _ _ Hnf) as Htyp.
  pose proof (unary_rounds rone s x Hs) as Hr. cbv zeta in Hr.
  destruct Hr as (Hlen & Hnw & Hrounds).
  set (l := zip3 (_get_node_features s x true) (l_n_states s)
              (l_n_features s)) in *.
  set (len := length (x0 x) `min` n_types s) in *.
  assert (typ < len) as Hlt by (unfold len; lia).
  destruct (Hrounds typ Hlt) as (f & ns & nf & Hl & Hf & Hns & Hnf').
  assert (nf = n_features) as -> by congruence.
  assert (f = Some m) as ->.
  { unfold _get_node_features in Hf.
    rewrite list_lookup_fmap, lookup_zip_with, Hm, Hnf in Hf.
    simpl in Hf. by injection Hf as <-. }
  unfold _get_unary_potentials. apply bind_Raise. right. exists ().
  split.
  { unfold _check_size_w, raise_if.
    by rewrite bool_decide_false by (intros ?; done). }
  cbv zeta.
  assert (unary_potentials_loop dot_entry s
            (_get_node_features s x true) w
          = Raise (ValueError MsgShapesNotAligned)) as ->; [|done].
  unfold unary_potentials_loop. cbv zeta. fold l.
  rewrite <- (take_drop_middle l typ _ Hl), for_acc_app.
  destruct (unary_loop_Ok dot_entry w (take typ l) [] 0%N)
    as (Ps & -> & _).
  { intros k f' ns' nf' Hk.
    apply lookup_take_Some in Hk as [Hk Hklt].
    apply zip3_lookup in Hk as (Hf' & Hns' & Hnf'').
    destruct (cleaned_round_fits s x k f' nf') as (m' & -> & Hc & _);
      [intros m'; by apply Hbefore | done..|].
    exists m'. split; [done|]. split; [done|].
    rewrite <- fmap_take, take_take, fmap_take, Hnw, N.add_0_l.
    replace (S k `min` typ) with (S k) by lia.
    rewrite weight_offset_take_seq by lia.
    rewrite Hw, (size_unaries_sum rone s Hs).
    apply weight_offset_mono. lia. }
  simpl.
  rewrite fmap_take, Hnw, N.add_0_l.
  rewrite weight_offset_take_seq by lia.
  rewrite potentials_of_type_misfit; [done..|].
  rewrite Hw, (size_unaries_sum rone s Hs).
  assert (weight_offset s typ + ns * n_features
          = weight_offset s (S typ))%N as ->.
  { rewrite weight_offset_S. unfold weights_of_type.
    by rewrite Hns, Hnf. }
  apply weight_offset_mono. lia.
Qed.

(** Fewer node tables than types: [_check_size_x] is not called by
    [_get_unary_potentials], whose loop stops with the tables.  With
    tables that are missing or fit and a weight vector of the schema's
    size, the assertion on the weights consumed fails where a type
    without a table has weights; where none has, one table per entry
    of [x[0]] is returned. *)
Theorem unary_potentials_few_tables s x w :
  constructed rone s →
  length (x0 x) < n_types s →
  present_tables_fit s x →
  N.of_nat (length w) = size_unaries s →
  ((∃ typ, length (x0 x) ≤ typ < n_types s ∧
           weights_of_type s typ ≠ 0%N) →
   _get_unary_potentials dot_entry s x w = Raise AssertionError) ∧
  ((∀ typ, length (x0 x) ≤ typ < n_types s →
           weights_of_type s typ = 0%N) →
   ∃ pots, _get_unary_potentials dot_entry s x w = Ok pots ∧
           length pots = length (x0 x)).
Proof.
  intros Hs Hlen Hfit Hw.
  destruct (unary_potentials_run_prefix rone dot_entry s x w
              Hs Hfit Hw) as (pots & Hloop & Hpl & _).
  cbv zeta in Hloop, Hpl.
  replace (length (x0 x) `min` n_types s) with (length (x0 x))
    in Hloop, Hpl by lia.
  assert (_check_size_w s w = Ok ()) as Hcheck.
  { unfold _check_size_w, raise_if.
    by rewrite bool_decide_false by (intros ?; done). }
  split.
  - intros (typ & Htyp & Hne).
    unfold _get_unary_potentials. apply bind_Raise. right. exists ().
    split; [done|]. cbv zeta. rewrite Hloop. simpl. unfold raise_if.
    rewrite bool_decide_true; [done|].
    rewrite (size_unaries_sum rone s Hs).
    pose proof (weight_offset_mono s (length (x0 x)) typ) as H1.
    pose proof (weight_offset_mono s (S typ) (n_types s)) as H2.
    rewrite weight_offset_S in H2. lia.
  - intros Hzero. exists pots. split; [|done].
    unfold _get_unary_potentials. apply bind_Ok. exists ().
    split; [done|]. cbv zeta. rewrite Hloop. simpl. unfold raise_if.
    rewrite bool_decide_false; [done|].
    rewrite (size_unaries_sum rone s Hs).
    intros Hne. apply Hne. clear Hne Hloop.
    assert (∀ k, length (x0 x) + k ≤ n_types s →
              weight_offset s (length (x0 x) + k)
              = weight_offset s (length (x0 x))) as Hk.
    { induction k as [|k IH]; intros Hle.
      - by rewrite Nat.add_0_r.
      - rewrite Nat.add_succ_r, weight_offset_S, IH by lia.
        rewrite Hzero by lia. lia. }
    rewrite <- (Hk (n_types s - length (x0 x))) by lia.
    f_equal. lia.
Qed.

End PotentialsMore.

(** ** [initialize]: the two validators, one after the other *)

Lemma zip_longest_lookup {A B} (la : list A) (lb : list B) k a b :
  la !! k = Some a → lb !! k = Some b →
  zip_longest la lb !! k = Some (Some a, Some b).
Proof.
  revert lb k. induction la as [|a0 la IH]; intros lb k Ha Hb; [done|].
  destruct lb as [|b0 lb]; [done|]. destruct k as [|k]; simpl in *.
  - by injection Ha as ->; injection Hb as ->.
  - by apply IH.
Qed.

Section Initialize.
Context {R : Type}.
Implicit Types (s : t R) (x : instance R) (X : list (instance R)).
Implicit Types (Y : list Z) (Ys : list (list Z)).

(** On a label vector, [_check_size_xy] returns [True] or raises. *)
Lemma check_size_xy_Some_Ok s x Y r :
  _check_size_xy s x (Some Y) = Ok r → r = Some true.
Proof.
  unfold _check_size_xy. intros H.
  apply bind_Ok in H as (counts & _ & H). cbv zeta in H.
  repeat (apply bind_Ok in H as (? & _ & H)). by injection H as <-.
Qed.

(** The pass over the instances. *)
Lemma map1_check_size_x s X :
  (∃ l, map1 (_check_size_x s) X = Ok l) ↔
  Forall (λ x, _check_size_x s x = Ok true) X.
Proof.
  unfold map1. split.
  - intros [l Hl]. apply mapM_Ok in Hl.
    induction Hl as [|x b X l Hx _ IH]; constructor; [|done].
    destruct (check_size_x_cases s x) as [Hok|[e He]]; [done | congruence].
  - intros H. exists ((λ _, true) <$> X). by apply mapM_Ok_fmap.
Qed.

(** The pass over the instances and their label vectors, side by
    side, where there are no more label vectors than instances. *)
Lemma map2_check_size_xy s X : ∀ Ys,
  length Ys ≤ length X →
  (∃ l, map2 (λ ox oy,
                match ox, oy with
                | Some x, _ => _check_size_xy s x oy
                | None, None => Ok None
                | None, Some _ => Raise TypeError
                end) X Ys = Ok l) ↔
  Forall2 (λ x Y, _check_size_xy s x (Some Y) = Ok (Some true))
    (take (length Ys) X) Ys.
Proof.
  unfold map2. induction X as [|x X IH]; intros Ys Hlen.
  - destruct Ys as [|Y Ys]; [|simpl in Hlen; lia]. simpl. split.
    + intros _. constructor.
    + intros _. by eexists.
  - destruct Ys as [|Y Ys]; simpl zip_longest; rewrite mapM_cons.
    + simpl. split; [intros _; constructor|]. intros _.
      destruct (proj2 (IH [] (Nat.le_0_l _))) as [l Hl]; [constructor|].
      rewrite Hl. by eexists.
    + simpl in Hlen. simpl take. split.
      * intros [l Hl]. apply bind_Ok in Hl as (r & Hr & Hl).
        apply bind_Ok in Hl as (k & Hk & _).
        pose proof (check_size_xy_Some_Ok s x Y r Hr) as ->.
        constructor; [done|]. apply IH; [lia|]. by exists k.
      * intros H. inversion H as [|? ? ? ? Hx Hrest]; subst.
        apply IH in Hrest as [l Hl]; [|lia].
        rewrite Hx. simpl. rewrite Hl. by eexists.
Qed.

(** [initialize] returns when the checks it makes all pass.  On one
    instance: [_check_size_x] returns [True] and [_check_size_xy] does
    not raise.  On a list of instances without labels: [_check_size_x]
    returns [True] on each.  On a list of instances and a list of
    label vectors that is not longer: moreover [_check_size_xy]
    returns [True] on each instance that has a label vector, with
    that vector; the instances left without one are not checked
    against labels. *)
Theorem initialize_checks s :
  (∀ x (oY : option (list Z)),
     initialize s (One x oY) = Ok () ↔
     _check_size_x s x = Ok true ∧ ∃ r, _check_size_xy s x oY = Ok r) ∧
  (∀ X, initialize s (Many X None) = Ok () ↔
        Forall (λ x, _check_size_x s x = Ok true) X) ∧
  (∀ X Ys, length Ys ≤ length X →
     (initialize s (Many X (Some Ys)) = Ok () ↔
      Forall (λ x, _check_size_x s x = Ok true) X ∧
      Forall2 (λ x Y, _check_size_xy s x (Some Y) = Ok (Some true))
        (take (length Ys) X) Ys)).
Proof.
  split; [|split].
  - intros x Y. unfold initialize. split.
    + intros H. apply bind_Ok in H as (b & Hb & H).
      apply bind_Ok in H as (r & Hr & _).
      destruct (check_size_x_cases s x) as [Hok|[e He]]; [|congruence].
      split; [done | by exists r].
    + intros [Hx [r Hr]]. by rewrite Hx, Hr.
  - intros X. unfold initialize. rewrite <- map1_check_size_x. split.
    + intros H. apply bind_Ok in H as (l & Hl & _). by exists l.
    + intros [l Hl]. by rewrite Hl.
  - intros X Ys Hlen. unfold initialize.
    rewrite <- map1_check_size_x, <- (map2_check_size_xy s X Ys Hlen).
    split.
    + intros H. apply bind_Ok in H as (l & Hl & H).
      apply bind_Ok in H as (k & Hk & _).
      split; [by exists l | by exists k].
    + intros [[l Hl] [k Hk]]. rewrite Hl. simpl. by rewrite Hk.
Qed.

(** The order of the checks in [initialize].  The instances are all
    checked before any label: the error of the first instance that
    [_check_size_x] refuses is raised, whatever the labels are.  Where
    all instances are accepted, the error is that of the first label
    vector that [_check_size_xy] refuses. *)
Theorem initialize_instances_first s :
  (∀ x (oY : option (list Z)) e,
     _check_size_x s x = Raise e → initialize s (One x oY) = Raise e) ∧
  (∀ X (oYs : option (list (list Z))) k x e,
     X !! k = Some x → _check_size_x s x = Raise e →
     (∀ j x', j < k → X !! j = Some x' → _check_size_x s x' = Ok true) →
     initialize s (Many X oYs) = Raise e) ∧
  (∀ X Ys k x Y e,
     Forall (λ x, _check_size_x s x = Ok true) X →
     X !! k = Some x → Ys !! k = Some Y →
     _check_size_xy s x (Some Y) = Raise e →
     (∀ j x' Y', j < k → X !! j = Some x' → Ys !! j = Some Y' →
        _check_size_xy s x' (Some Y') = Ok (Some true)) →
     initialize s (Many X (Some Ys)) = Raise e).
Proof.
  split; [|split].
  - intros x Y e He. unfold initialize. by rewrite He.
  - intros X Ys k x e Hk He Hbefore. unfold initialize, map1.
    rewrite (mapM_first_Raise _ X k x e); [done..| |done].
    intros j x' Hj Hx'. exists true. by eapply Hbefore.
  - intros X Ys k x Y e HX Hx HY He Hbefore. unfold initialize.
    apply map1_check_size_x in HX as [l ->]. simpl. unfold map2.
    rewrite (mapM_first_Raise _ (zip_longest X Ys) k (Some x, Some Y) e);
      [done | by apply zip_longest_lookup | | done].
    intros j [x' Y'] Hj Hl.
    pose proof (lookup_lt_Some _ _ _ Hx) as HkX.
    pose proof (lookup_lt_Some _ _ _ HY) as HkY.
    destruct (lookup_lt_is_Some_2 X j) as [x'' Hx'']; [lia|].
    destruct (lookup_lt_is_Some_2 Ys j) as [Y'' HY'']; [lia|].
    rewrite (zip_longest_lookup X Ys j x'' Y'' Hx'' HY'') in Hl.
    injection Hl as <- <-. exists (Some true). by eapply Hbefore.
Qed.

End Initialize.

(** ** The errors of the two validators *)

(** The loop raises at a round, and the rounds before it pass. *)
Lemma for_acc_offsets_Raise_first {X} (step : nat → X → result nat)
    (cnt : X → nat) (l : list X) : ∀ i e,
  (∀ j a j', step j a = Ok j' → j' = j + cnt a) →
  for_acc l i step = Raise e →
  ∃ k a, l !! k = Some a ∧
         step (i + sum_counts (take k (cnt <$> l))) a = Raise e ∧
         ∀ j b, j < k → l !! j = Some b →
           step (i + sum_counts (take j (cnt <$> l))) b
           = Ok (i + sum_counts (take j (cnt <$> l)) + cnt b).
Proof.
  induction l as [|a0 l IH]; intros i e Hstep Hl; [done|].
  csimpl in Hl. apply bind_Raise in Hl as [H0|(i1 & H0 & Hl)].
  - exists 0, a0. csimpl. change (sum_counts []) with 0.
    rewrite Nat.add_0_r. repeat split; [done|]. intros j b Hj. lia.
  - pose proof (Hstep _ _ _ H0) as ->.
    destruct (IH _ _ Hstep Hl) as (k & a & Hk & Hraise & Hbefore).
    exists (S k), a. csimpl. rewrite sum_counts_cons, !Nat.add_assoc.
    repeat split; [done..|].
    intros [|j] b Hj Hb; csimpl in *.
    + injection Hb as <-. change (sum_counts []) with 0.
      by rewrite Nat.add_0_r.
    + rewrite sum_counts_cons, !Nat.add_assoc. apply Hbefore; [lia|done].
Qed.

Section ValidatorErrors.
Context {R : Type}.
Implicit Types (s : t R) (x : instance R).

(** The loop over the node tables passes: the tables fit. *)
Lemma features_loop_fits s x :
  length (x0 x) = n_types s →
  for_ (enumerate (x0 x)) (λ '(typ, nf),
    check_features_of_type s typ nf) = Ok () →
  node_tables_fit s x.
Proof.
  intros Hlen Hcols. split; [done|].
  intros typ nf Hnf. apply for_Ok in Hcols.
  eapply (Forall_lookup_1 _ _ typ (typ, nf)) in Hcols; cycle 1.
  { by apply enumerate_lookup. }
  unfold check_features_of_type, getitem, raise_if in Hcols.
  destruct nf as [m|]; [|done]. simpl in Hcols.
  destruct (l_n_features s !! typ) as [n|]; [|done]. simpl in Hcols.
  case_bool_decide as Hn; [done|]. exists m. split; [done|].
  f_equal. by destruct (decide (N.of_nat (ncols m) = n)).
Qed.

(** The loop over the edge tables passes: the tables, arrays as numpy
    makes them, are tables of pairs. *)
Lemma shape_loop_shaped x :
  edge_tables_wf x →
  for_ (x1 x) check_edge_shape = Ok () →
  Forall edge_table_shaped (x1 x).
Proof.
  intros Hwf Hshapes. apply for_Ok in Hshapes.
  apply Forall_lookup_2. intros k [e|] Hk; [|done].
  pose proof (Forall_lookup_1 _ _ _ _ Hshapes Hk) as He.
  apply check_edge_shape_Ok in He as [m Hm].
  pose proof (Forall_lookup_1 _ _ _ _ Hwf Hk) as Hw.
  simpl in Hw. unfold wf_ndarray in Hw. rewrite Hm in Hw.
  simpl in Hw. exists m. split; [done | lia].
Qed.

Lemma dangling_message_Some_inv x typ1 typ2 e m :
  dangling_message x typ1 typ2 e = Some m →
  negative_endpoint e ∨ source_out_of_range x typ1 e ∨
  target_out_of_range x typ2 e.
Proof.
  unfold dangling_message. repeat case_decide; try done; tauto.
Qed.

(** The errors of [_check_size_x], on edge tables that are arrays as
    numpy makes them and a schema with one number of features per
    type: an error of the structure of the instance; the
    [AttributeError] of a node table that is [None]; the [IndexError]
    of a list [x[1]] with fewer tables than pairs of types; or a
    dangling-edge error, for a pair of types that has an edge with a
    negative endpoint, a source or a target that is not a node.  It
    raises nothing else. *)
Theorem check_size_x_errors s x e :
  edge_tables_wf x →
  length (l_n_features s) = n_types s →
  _check_size_x s x = Raise e →
  kind_of e = Some StructuralMismatch ∨
  (e = AttributeError ∧ ∃ typ, x0 x !! typ = Some None) ∨
  (e = IndexError ∧ length (x1 x) < n_types s * n_types s) ∨
  (kind_of e = Some DanglingEdge ∧
   ∃ typ1 typ2 edges,
     typ1 < n_types s ∧ typ2 < n_types s ∧
     has_edges s x typ1 typ2 edges ∧
     (negative_endpoint edges ∨ source_out_of_range x typ1 edges ∨
      target_out_of_range x typ2 edges)).
Proof.
  intros Hwf Hft H.
  unfold _check_size_x, _get_node_features, _get_edges, _iter_type_pairs
    in H.
  apply bind_Raise in H as [H|([] & Hlen & H)].
  { unfold raise_if in H. case_bool_decide; [|done].
    injection H as <-. by left. }
  assert (length (x0 x) = n_types s) as Hlen'.
  { unfold raise_if in Hlen. case_bool_decide as Hne; [done|].
    by destruct (decide (length (x0 x) = n_types s)). }
  apply bind_Raise in H as [H|([] & Hcols & H)].
  { apply for_Raise in H as (l1 & [typ nf] & l2 & Hsplit & _ & Hraise).
    assert (enumerate (x0 x) !! length l1 = Some (typ, nf)) as Hl.
    { rewrite Hsplit. by apply list_lookup_middle. }
    apply enumerate_lookup in Hl as [Htyp Hnf]. simpl in Htyp, Hnf.
    unfold check_features_of_type, getitem, raise_if in Hraise.
    destruct nf as [m|]; simpl in Hraise.
    - destruct (lookup_lt_is_Some_2 (l_n_features s) typ) as [n Hn].
      { apply lookup_lt_Some in Hnf. lia. }
      rewrite Hn in Hraise. simpl in Hraise.
      case_bool_decide; [|done]. injection Hraise as <-. by left.
    - injection Hraise as <-. right. left. split; [done|].
      by exists (length l1). }
  pose proof (features_loop_fits s x Hlen' Hcols) as Hfit.
  apply bind_Raise in H as [H|(l_edges & [= <-] & H)]; [done|].
  apply bind_Raise in H as [H|([] & Hshapes & H)].
  { destruct (for_cases (λ err, kind_of err = Some StructuralMismatch)
                (x1 x) check_edge_shape) as [Hok|(err & Herr & Hkind)].
    - intros a _. apply check_edge_shape_cases.
    - congruence.
    - left. congruence. }
  pose proof (shape_loop_shaped x Hwf Hshapes) as Hshaped.
  apply bind_Raise in H as [H|([] & _ & [=])].
  apply for_Raise in H as (l1 & [typ1 typ2] & l2 & Hsplit & _ & Hraise).
  assert (iter_pairs (n_types s) !! length l1 = Some (typ1, typ2)) as Hl.
  { rewrite Hsplit. by apply list_lookup_middle. }
  apply iter_pairs_lookup_inv in Hl as (_ & H1 & H2).
  right. right.
  destruct (decide (typ1 * n_types s + typ2 < length (x1 x)))
    as [Hlt|Hge].
  - right.
    destruct (check_edges_of_pair_present_cases s x typ1 typ2)
      as [[Hok _]|(edges & m & He & Hm & Hr)]; [done..|congruence|].
    rewrite Hr in Hraise. injection Hraise as <-.
    split; [by eapply dangling_message_kind|].
    exists typ1, typ2, edges. do 3 (split; [done|]).
    by eapply dangling_message_Some_inv.
  - left.
    unfold check_edges_of_pair, _get_edges_by_type, getitem in Hraise.
    rewrite (lookup_ge_None_2 (x1 x)) in Hraise by lia.
    injection Hraise as <-. split; [done|].
    assert ((typ1 + 1) * n_types s ≤ n_types s * n_types s)
      by (apply Nat.mul_le_mono_r; lia).
    lia.
Qed.

End ValidatorErrors.

Section LabelErrors.
Context {R : Type} (rone : R).
Implicit Types (s : t R) (x : instance R) (Y : list Z).

(** The errors of [_check_size_xy] on a label vector with one label
    per node: the error is about the first type whose run of labels
    is not accepted, the runs of the types before being within their
    bounds.  It is numpy's error where that run is empty, the
    [ValueError] of a negative label where the run has one, and
    otherwise [InconsistentLabel], about the first state of the type
    where a label is below it, and about the last state of the type
    where a label is above it. *)
Theorem check_size_xy_errors s x Y e :
  constructed rone s →
  length Y = sum_counts (node_counts s x) →
  _check_size_xy s x (Some Y) = Raise e →
  ∃ typ lo hi,
    typ < length (node_counts s x) ∧
    _l_type_startindex s !! typ = Some lo ∧
    _l_type_startindex s !! (typ + 1) = Some hi ∧
    (∀ typ', typ' < typ → run_in_bounds s x Y typ') ∧
    let run := label_run s x Y typ in
    (run = [] ∧ e = ValueError MsgZeroSizeReduction) ∨
    (Exists (λ v, v < 0)%Z run ∧ e = ValueError (MsgNegativeLabel typ)) ∨
    (Forall (λ v, 0 ≤ v)%Z run ∧ Exists (λ v, v < Z.of_N lo)%Z run ∧
     e = InconsistentLabel (MsgLabelsStartAt typ lo)) ∨
    (Forall (λ v, Z.of_N lo ≤ v)%Z run ∧
     Exists (λ v, Z.of_N hi ≤ v)%Z run ∧
     e = InconsistentLabel (MsgLabelsEndAt typ (Z.of_N hi - 1))).
Proof.
  intros Hs Hlen H. rewrite check_size_xy_loop in H by done.
  set (rounds := zip3 (seq 0 (n_types s)) (_get_node_features s x true)
                   (l_n_states s)) in *.
  set (step := λ i_start '(typ, nf, n_states),
                 check_labels_of_type s Y i_start typ nf n_states) in *.
  set (cnt := (λ '(typ, nf, st), from_option nrows 0 nf)
              : nat * option (matrix R) * N → nat).
  assert (cnt <$> rounds = node_counts s x) as Hcnt
    by apply (label_rounds_counts rone s x Hs).
  assert (∀ j a j', step j a = Ok j' → j' = j + cnt a) as Hstep.
  { intros j [[typ' nf] st'] j' Hj.
    by apply check_labels_of_type_Ok_inv in Hj. }
  apply bind_Raise in H as [H|(i' & _ & [=])].
  destruct (for_acc_offsets_Raise_first step cnt rounds 0 e Hstep H)
    as (k & [[typ nf] st] & Hk & Hraise & Hbefore).
  rewrite Hcnt in Hraise. simpl in Hraise.
  pose proof Hk as Hk'.
  apply (label_rounds_lookup rone) in Hk' as (-> & Hnf & Hst); [|done].
  destruct (cleaned_lookup s x k nf Hnf) as [m ->].
  assert (node_counts s x !! k = Some (nrows m)) as Hc.
  { unfold node_counts. by rewrite list_lookup_fmap, Hnf. }
  destruct (constructed_lengths rone s Hs) as [Hstl _].
  pose proof (lookup_lt_Some _ _ _ Hst) as Hklt.
  exists k, (Py.sum (take k (l_n_states s))),
    (Py.sum (take (k + 1) (l_n_states s))).
  split; [by eapply lookup_lt_Some|].
  split; [apply (startindex_lookup rone); [done | lia]|].
  split; [apply (startindex_lookup rone); [done | lia]|].
  split.
  { intros j Hj.
    destruct (lookup_lt_is_Some_2 rounds j) as [[[typj nfj] stj] Hjl].
    { apply lookup_lt_Some in Hk. lia. }
    pose proof (Hbefore j _ Hj Hjl) as Hok. rewrite Hcnt in Hok.
    apply (label_rounds_lookup rone) in Hjl as (-> & Hnfj & Hstj);
      [|done].
    destruct (cleaned_lookup s x j nfj Hnfj) as [mj ->].
    assert (node_counts s x !! j = Some (nrows mj)) as Hcj.
    { unfold node_counts. by rewrite list_lookup_fmap, Hnfj. }
    simpl in Hok.
    apply check_labels_of_type_Ok_bounds in Hok
      as (lo & hi & Hlo & Hhi & Hne & Hall).
    exists lo, hi. unfold label_run, run_start. rewrite Hcj. simpl.
    done. }
  cbv zeta.
  assert (label_run s x Y k
          = Py.slice Y (run_start s x k) (run_start s x k + nrows m))
    as Hrun.
  { unfold label_run. by rewrite Hc. }
  rewrite Hrun. fold (run_start s x k) in Hraise.
  set (run := Py.slice Y (run_start s x k) (run_start s x k + nrows m))
    in *.
  destruct (decide (run = [])) as [Hnil|Hne].
  { left. split; [done|].
    rewrite (check_labels_of_type_empty s Y _ k m st Hnil) in Hraise.
    by injection Hraise as <-. }
  destruct (decide (Exists (λ v, v < 0)%Z run)) as [Hneg|Hpos].
  { right. left. split; [done|].
    rewrite (check_labels_of_type_negative s Y _ k m st Hneg) in Hraise.
    by injection Hraise as <-. }
  assert (Forall (λ v, 0 ≤ v)%Z run) as Hall.
  { apply Forall_forall. intros v Hv.
    destruct (decide (0 ≤ v)%Z) as [|Hlt]; [done|].
    exfalso. apply Hpos, Exists_exists. exists v. split; [done | lia]. }
  right. right.
  rewrite (check_labels_of_type_bounds s Y _ k m st
             (Py.sum (take k (l_n_states s)))
             (Py.sum (take (k + 1) (l_n_states s)))) in Hraise;
    [|apply (startindex_lookup rone); [done | lia]
     |apply (startindex_lookup rone); [done | lia]
     |done|done].
  fold run in Hraise.
  destruct (decide (Exists _ run)) as [Hlo|Hlo].
  { left. injection Hraise as <-. done. }
  destruct (decide (Exists _ run)) as [Hhi|Hhi]; [|done].
  right. injection Hraise as <-. split; [|done].
  apply Forall_forall. intros v Hv.
  destruct (decide (Z.of_N (Py.sum (take k (l_n_states s))) ≤ v)%Z)
    as [|Hlt]; [done|].
  exfalso. apply Hlo, Exists_exists. exists v. split; [done | lia].
Qed.

End LabelErrors.

End TypedCRFFacts.

(** * The scenarios *)

Module Scenarios.
Import Np TypedCRF Examples PyFacts TypedCRFFacts.

Lemma schema_constructed n states feats :
  __init__ 1%Z n states (Some feats) "ad3+" None
  = Ok (schema n states feats) →
  constructed 1%Z (schema n states feats).
Proof. intros H. by exists n, states, (Some feats), "ad3+"%string, None. Qed.

Lemma schema_2_3_constructed : constructed 1%Z schema_2_3.
Proof. by apply schema_constructed. Qed.

(** ** The constructor *)

(** With the feature counts omitted and no state count for the one
    type, the constructor raises the [ValueError] of its first check, not
    the [TypeError] of the sum. *)
Lemma init_without_features_states_mismatch :
  __init__ 1%Z 1 [] None "ad3+" None = Raise (ValueError MsgStatesPerType) ∧
  __init__ 1%Z 1 [] None "ad3+" None ≠ Raise TypeError.
Proof. split; [reflexivity | discriminate]. Qed.

(** One type with one state, class weights omitted: none of the three
    conditions on the states and class weights holds, and yet the
    constructor does not return, for want of feature counts of the
    right length; with the feature counts omitted the error is not one
    of the schema. *)
Lemma init_fails_on_features :
  length [1%N] = 1 ∧ truthy (@None (list (list Z))) = false ∧
  __init__ 1%Z 1 [1%N] (Some []) "ad3+" None
  = Raise (ValueError MsgFeaturesPerType) ∧
  __init__ 1%Z 1 [1%N] None "ad3+" None = Raise TypeError ∧
  kind_of TypeError = None.
Proof. repeat split. Qed.

(** Two types with 2 and 3 states: class weights for one type only are
    refused; without class weights the schema is built and its class
    weights are five ones. *)
Lemma init_schema_checks_2_3 :
  (∃ e, __init__ 1%Z 2 [2; 3]%N (Some [1; 1]%N) "ad3+" (Some [[1; 1]%Z])
        = Raise e ∧ kind_of e = Some InvalidSchema) ∧
  (∃ s, __init__ 1%Z 2 [2; 3]%N (Some [1; 1]%N) "ad3+" None = Ok s ∧
        _n_states s = 5%N ∧
        class_weight s = [1; 1; 1; 1; 1]%Z ∧
        length (class_weight s) = 5).
Proof.
  split.
  - apply (init_schema_checks 1%Z 2 [2; 3]%N [1; 1]%N "ad3+"
             (Some [[1; 1]%Z])).
    right. right. left. split; [reflexivity | simpl; lia].
  - destruct (proj2 (init_schema_checks 1%Z 2 [2; 3]%N [1; 1]%N "ad3+"
                       None))
      as (s & Hs & Hn & Hcw & Hlen); [lia | reflexivity..|].
    exists s. rewrite Hlen, Hcw, Hn. by repeat split.
Defined.

(** ** The offsets of the pairs of types *)

(** The schema is not evaluated: its vector of class weights has 65537
    entries.  What is needed of it follows from the constructor's
    lemmas. *)
Lemma schema_fields n states feats :
  0 < n → length states = n → length feats = n →
  constructed 1%Z (schema n states feats) ∧
  n_types (schema n states feats) = n ∧
  l_n_states (schema n states feats) = states.
Proof.
  intros Hn Hst Hf.
  destruct (init_default_Ok 1%Z n states feats "ad3+" None)
    as (s & Hs & Hstates & _ & Htypes & _); [done..|].
  unfold schema. rewrite Hs. simpl. split; [|done].
  by exists n, states, (Some feats), "ad3+"%string, None.
Qed.

(** With 65536 states for type 0, the offset of the pair (0, 1),
    2^32, is stored as 0: the sub-ranges of the pairs (0, 0) and (0, 1)
    both start at 0 and share the value 0. *)
Lemma edge_offsets_wrap :
  constructed 1%Z schema_65536_1 ∧
  edge_states_before (l_n_states schema_65536_1) 0 1 = (2 ^ 32)%N ∧
  edge_pair_start_offset schema_65536_1 0 1 = Ok 0%N ∧
  in_sub_range schema_65536_1 0 0 0 ∧
  in_sub_range schema_65536_1 0 1 0.
Proof.
  destruct (schema_fields 2 [65536; 1]%N [0; 0]%N)
    as (Hs & Hn & Hst); [lia | done..|].
  fold schema_65536_1 in Hs, Hn, Hst.
  assert (∀ t1 t2, t1 < 2 → t2 < 2 →
            edge_pair_start_offset schema_65536_1 t1 t2
            = Ok (uint32 (edge_states_before [65536; 1]%N t1 t2)))
    as Hoff.
  { intros t1 t2 H1 H2. rewrite <- Hst.
    apply (edge_pair_start_offset_eq 1%Z); [done | lia..]. }
  split; [done|]. rewrite Hst. split; [by vm_compute|].
  split; [by rewrite Hoff by lia|]. split.
  - exists 0%N, 65536%N, 65536%N. rewrite Hst, Hoff by lia.
    repeat split; by vm_compute.
  - exists 0%N, 65536%N, 1%N. rewrite Hst, Hoff by lia.
    repeat split; by vm_compute.
Qed.

(** With 2 and 3 states the offsets are 0, 4, 10 and 16, and the four
    sub-ranges tile [[0, 25)]. *)
Lemma edge_offsets_tile_2_3 :
  (∀ t1 t2, t1 < 2 → t2 < 2 →
     edge_pair_start_offset schema_2_3 t1 t2
     = Ok (edge_states_before [2; 3]%N t1 t2)) ∧
  (∀ k, (k < 25)%N ↔ ∃ t1 t2, in_sub_range schema_2_3 t1 t2 k) ∧
  (∀ k t1 t2 t1' t2',
     in_sub_range schema_2_3 t1 t2 k → in_sub_range schema_2_3 t1' t2' k →
     t1 = t1' ∧ t2 = t2').
Proof.
  apply (edge_offsets_tile 1%Z schema_2_3 schema_2_3_constructed).
  intros [|[|t1]] [|[|t2]] H1 H2; simpl in *; try lia; by vm_compute.
Defined.

(** ** The instance validator *)

Ltac lookup_cases H :=
  repeat match type of H with
         | (_ :: _) !! ?i = Some _ => destruct i; simpl in H
         | [] !! _ = Some _ => discriminate H
         end.

Lemma instance_2_3_fits edges : node_tables_fit schema_2_3 (instance_2_3 edges).
Proof.
  split; [reflexivity|]. intros typ nf H. simpl in H. lookup_cases H;
    injection H as <-; by eexists.
Qed.

Lemma instance_with_edges_shaped :
  edge_tables_shaped schema_2_3 instance_with_edges.
Proof.
  split; [vm_compute; lia|].
  repeat (constructor; [simpl; try done; by eexists|]). constructor.
Qed.

Lemma instance_dangling_shaped :
  edge_tables_shaped schema_2_3 instance_dangling.
Proof.
  split; [vm_compute; lia|].
  repeat (constructor; [simpl; try done; by eexists|]). constructor.
Qed.

(** An instance with edges between existing nodes, a missing table and
    an empty one is accepted. *)
Lemma check_size_x_accepts_edges :
  node_tables_fit schema_2_3 instance_with_edges ∧
  edge_tables_shaped schema_2_3 instance_with_edges ∧
  _check_size_x schema_2_3 instance_with_edges = Ok true.
Proof.
  split; [apply instance_2_3_fits|].
  split; [apply instance_with_edges_shaped|].
  apply check_size_x_accepts;
    [apply instance_2_3_fits | apply instance_with_edges_shaped |].
  intros typ1 typ2 H1 H2 e [Hl Hlen].
  change (n_types schema_2_3) with 2 in *.
  destruct typ1 as [|[|typ1]], typ2 as [|[|typ2]]; try lia;
    vm_compute in Hl; try discriminate Hl;
    injection Hl as Hl; subst e; try (by exfalso; apply Hlen);
    split; vm_compute; repeat constructor; done.
Defined.

(** An empty table of shape (0, 0), which is what [_get_edges] itself
    puts in the place of a missing table when asked to clean, is
    refused for its shape, where [None] in the same place is accepted. *)
Lemma check_size_x_refuses_empty_0_0 :
  len (@empty_0_0 Z) = Ok 0 ∧
  _check_size_x schema_2_3 (instance_2_3 [None; None; None; None])
  = Ok true ∧
  _check_size_x schema_2_3
    (instance_2_3 [None; Some empty_0_0; None; None])
  = Raise (ValueError MsgEdge2Columns) ∧
  kind_of (ValueError MsgEdge2Columns) = Some StructuralMismatch.
Proof. repeat split. Qed.

(** In the accepted instance the table of the pair (0, 1) may be
    replaced by [None] and by an empty table of pairs; and where a
    table is the one-dimensional empty array, the instance is refused
    for the table's shape. *)
Lemma check_size_x_missing_or_empty_2_3 :
  _check_size_x schema_2_3 (with_edge_table instance_with_edges 1 None)
  = Ok true ∧
  _check_size_x schema_2_3
    (with_edge_table instance_with_edges 1 (edge_table []))
  = Ok true ∧
  ∃ err,
    _check_size_x schema_2_3
      (instance_2_3 [None; Some (mk_ndarray [0] []); None; None])
    = Raise err ∧ kind_of err = Some StructuralMismatch.
Proof.
  assert (_check_size_x schema_2_3 instance_with_edges = Ok true) as Hok
    by reflexivity.
  split; [|split].
  - apply (proj1 (check_size_x_missing_or_empty schema_2_3
                    instance_with_edges 1 None empty_0_0)); [done|].
    by left.
  - apply (proj1 (check_size_x_missing_or_empty schema_2_3
                    instance_with_edges 1 (edge_table []) empty_0_0));
      [done|].
    right. by eexists.
  - apply (proj2 (check_size_x_missing_or_empty schema_2_3
                    (instance_2_3 [None; Some (mk_ndarray [0] []); None;
                                   None])
                    1 None (mk_ndarray [0] []))).
    + apply instance_2_3_fits.
    + reflexivity.
    + by intros [m [=]].
Defined.

(** A table of type 0 with two columns where the schema has one
    feature: the instance is refused for its shape although its edge
    (0, 99) has no target.  And a negative source, or a negative target,
    are reported by the same message. *)
Lemma check_size_x_shape_before_edges :
  _check_size_x schema_2_3
    (mk_instance [Some (mk_matrix 2 [[1; 1]; [1; 1]]%Z); nodes 3]
       [None; edge_table [(0, 99)]%Z; None; None])
  = Raise (ValueError (MsgExpectedFeatures 1 0)) ∧
  kind_of (ValueError (MsgExpectedFeatures 1 0)) = Some StructuralMismatch ∧
  _check_size_x schema_2_3
    (instance_2_3 [None; edge_table [(-1, 0)]%Z; None; None])
  = Raise (ValueError (MsgEdgeNegativeIndex 0 1)) ∧
  _check_size_x schema_2_3
    (instance_2_3 [None; edge_table [(0, -1)]%Z; None; None])
  = Raise (ValueError (MsgEdgeNegativeIndex 0 1)).
Proof. repeat split. Qed.

(** The edge (0, 99) from type 0 to type 1, which has 3 nodes: a
    dangling-edge error for the pair (0, 1), on the target side. *)
Lemma check_size_x_dangling_0_99 :
  has_edges schema_2_3 instance_dangling 0 1
    (mk_ndarray [1; 2] [0; 99]%Z) ∧
  target_out_of_range instance_dangling 1 (mk_ndarray [1; 2] [0; 99]%Z) ∧
  (∃ err, _check_size_x schema_2_3 instance_dangling = Raise err ∧
          kind_of err = Some DanglingEdge) ∧
  _check_size_x schema_2_3 instance_dangling
  = Raise (ValueError (MsgEdgePointsNonExisting 0 1)).
Proof.
  assert (has_edges schema_2_3 instance_dangling 0 1
            (mk_ndarray [1; 2] [0; 99]%Z)) as He.
  { split; [reflexivity | by intros [=]]. }
  assert (target_out_of_range instance_dangling 1
            (mk_ndarray [1; 2] [0; 99]%Z)) as Hout.
  { vm_compute. constructor. by intros [=]. }
  destruct (check_size_x_dangling schema_2_3 instance_dangling 0 1
              (mk_ndarray [1; 2] [0; 99]%Z)) as [Hraise Hfirst].
  - apply instance_2_3_fits.
  - apply instance_dangling_shaped.
  - vm_compute; lia.
  - vm_compute; lia.
  - exact He.
  - right. right. exact Hout.
  - split; [exact He|]. split; [exact Hout|]. split; [exact Hraise|].
    rewrite Hfirst; [reflexivity|].
    intros a b Ha Hb Hbefore e [Hl Hlen].
    change (n_types schema_2_3) with 2 in *. unfold pair_before in Hbefore.
    change (n_types schema_2_3) with 2 in *.
    destruct a as [|[|a]], b as [|[|b]]; try lia.
    vm_compute in Hl. discriminate Hl.
Defined.

(** ** The label validator *)

(** The scenario of the labels: with bounds [0, 2, 5], 2 nodes of type 0
    and 3 of type 1, the labels [0, 1, 2, 4, 3] are accepted and the
    labels [0, 1, 1, 4, 3] raise [InconsistentLabel]. *)
Lemma check_size_xy_scenario :
  _l_type_startindex schema_2_3 = [0; 2; 5]%N ∧
  _check_size_xy schema_2_3 (instance_2_3 [None; None; None; None])
    (Some [0; 1; 2; 4; 3]%Z) = Ok (Some true) ∧
  _check_size_xy schema_2_3 (instance_2_3 [None; None; None; None])
    (Some [0; 1; 1; 4; 3]%Z)
  = Raise (InconsistentLabel (MsgLabelsStartAt 1 2)).
Proof. repeat split. Qed.

(** C3 (the code at the failing input): no node of type 0, one node of
    type 1 labelled 0.  The label vector has the right length and no
    negative entry, and the run of type 1 holds a label below the
    type's bound 2; but the empty run of type 0 comes first, numpy
    cannot take its minimum, and what is raised is numpy's
    [ValueError], not [InconsistentLabel]. *)
Theorem check_size_xy_empty_run :
  length [0%Z] = sum_counts (node_counts schema_2_3 instance_0_1) ∧
  Forall (λ v, 0 ≤ v)%Z [0%Z] ∧
  label_run schema_2_3 instance_0_1 [0%Z] 0 = [] ∧
  run_out_of_bounds schema_2_3 instance_0_1 [0%Z] 1 ∧
  _check_size_xy schema_2_3 instance_0_1 (Some [0%Z])
  = Raise (ValueError MsgZeroSizeReduction).
Proof.
  split; [reflexivity|]. split; [by repeat constructor|].
  split; [reflexivity|]. split; [|reflexivity].
  exists 2%N, 5%N. split; [reflexivity|]. split; [reflexivity|].
  vm_compute. constructor. left. reflexivity.
Qed.

(** No node of type 0 and one node of type 1, labelled 2, a state of
    type 1: the labels are refused all the same. *)
Lemma check_size_xy_empty_type_0_1 :
  node_counts schema_2_3 instance_0_1 !! 0 = Some 0 ∧
  run_in_bounds schema_2_3 instance_0_1 [2%Z] 1 ∧
  (∃ e, _check_size_xy schema_2_3 instance_0_1 (Some [2%Z]) = Raise e) ∧
  _check_size_xy schema_2_3 instance_0_1 (Some [2%Z])
  = Raise (ValueError MsgZeroSizeReduction).
Proof.
  destruct (check_size_xy_empty_type 1%Z schema_2_3 instance_0_1 [2%Z] 0
              schema_2_3_constructed eq_refl eq_refl) as [Hraise Hwhich].
  split; [reflexivity|]. split; [|split; [exact Hraise|]].
  - exists 2%N, 5%N. split; [reflexivity|]. split; [reflexivity|].
    split; [by vm_compute|]. vm_compute. repeat constructor; by intros [=].
  - apply Hwhich. intros typ' Hlt. lia.
Defined.

(** A negative label among the nodes of type 0: the error raised is the
    [ValueError] of line 201, which is not an [InconsistentLabel]. *)
Lemma check_size_xy_negative_is_ValueError :
  length [0; -1; 2; 4; 3]%Z
  = sum_counts (node_counts schema_2_3
                  (instance_2_3 [None; None; None; None])) ∧
  Exists (λ v, v < 0)%Z [0; -1; 2; 4; 3]%Z ∧
  _check_size_xy schema_2_3 (instance_2_3 [None; None; None; None])
    (Some [0; -1; 2; 4; 3]%Z)
  = Raise (ValueError (MsgNegativeLabel 0)) ∧
  kind_of (ValueError (MsgNegativeLabel 0)) ≠ Some InconsistentLabelKind.
Proof.
  split; [reflexivity|]. split; [|split; [reflexivity | discriminate]].
  apply Exists_cons_tl, Exists_cons_hd. reflexivity.
Qed.

(** A negative label among the nodes of type 1, after labels of type 0
    that are within bounds. *)
Lemma check_size_xy_negative_2_3 :
  constructed 1%Z schema_2_3 ∧
  Exists (λ v, v < 0)%Z [0; 1; 2; -4; 3]%Z ∧
  (∃ e, _check_size_xy schema_2_3 (instance_2_3 [None; None; None; None])
          (Some [0; 1; 2; -4; 3]%Z) = Raise e) ∧
  _check_size_xy schema_2_3 (instance_2_3 [None; None; None; None])
    (Some [0; 1; 2; -4; 3]%Z)
  = Raise (ValueError (MsgNegativeLabel 1)).
Proof.
  assert (Exists (λ v, v < 0)%Z [0; 1; 2; -4; 3]%Z) as Hex.
  { do 3 apply Exists_cons_tl. apply Exists_cons_hd. reflexivity. }
  destruct (check_size_xy_negative 1%Z schema_2_3
              (instance_2_3 [None; None; None; None]) [0; 1; 2; -4; 3]%Z
              schema_2_3_constructed eq_refl Hex) as [Hraise Hwhich].
  split; [exact schema_2_3_constructed|]. split; [exact Hex|].
  split; [exact Hraise|]. apply Hwhich.
  - vm_compute. apply Exists_cons_tl, Exists_cons_hd. reflexivity.
  - intros [|typ'] Hlt; [|lia].
    exists 0%N, 2%N. split; [reflexivity|]. split; [reflexivity|].
    split; [by vm_compute|]. vm_compute. repeat constructor; by intros [=].
Defined.

(** With 2 nodes of type 0 and 3 of type 1, the labels [0, 1, 1, 4, 3]
    put the label 1 in the run of type 1, whose bounds are 2 and 5. *)
Lemma check_size_xy_inconsistent_2_3 :
  run_out_of_bounds schema_2_3 (instance_2_3 [None; None; None; None])
    [0; 1; 1; 4; 3]%Z 1 ∧
  ∃ m, _check_size_xy schema_2_3 (instance_2_3 [None; None; None; None])
         (Some [0; 1; 1; 4; 3]%Z) = Raise (InconsistentLabel m).
Proof.
  assert (run_out_of_bounds schema_2_3
            (instance_2_3 [None; None; None; None])
            [0; 1; 1; 4; 3]%Z 1) as Hout.
  { exists 2%N, 5%N. split; [reflexivity|]. split; [reflexivity|].
    vm_compute. apply Exists_cons_hd. left. reflexivity. }
  split; [exact Hout|].
  apply (check_size_xy_inconsistent 1%Z schema_2_3
           (instance_2_3 [None; None; None; None]) [0; 1; 1; 4; 3]%Z).
  - exact schema_2_3_constructed.
  - reflexivity.
  - repeat constructor; by intros [=].
  - intros typ Htyp. change (length _) with 2 in Htyp.
    destruct typ as [|[|typ]]; [by vm_compute.. | lia].
  - by exists 1.
Defined.

(** ** The potential computer *)

Lemma schema_1_1_constructed : constructed 1%float schema_1_1.
Proof. by exists 2, [1; 1]%N, (Some [1; 1]%N), "ad3+"%string, None. Qed.



(** In binary64 a dot product is not one number: summed from the first
    to the last, the same three products give 0 in one order and 1 in
    another. *)
Lemma binary64_dot_product_order :
  dot_product 0%float PrimFloat.add PrimFloat.mul
    [1e16; 1; -1e16]%float [1; 1; 1]%float = 0%float ∧
  dot_product 0%float PrimFloat.add PrimFloat.mul
    [1e16; -1e16; 1]%float [1; 1; 1]%float = 1%float.
Proof. split; reflexivity. Qed.

(** In the same scenario the schema has two weights, the loop consumes
    both, and the assertion holds. *)
Lemma unary_weights_consumed_scenario :
  size_unaries schema_1_1 = 2%N ∧
  ∃ pots,
    unary_potentials_loop binary64_dot_entry schema_1_1
      (_get_node_features schema_1_1 instance_1_1 true) weights_3_5
    = Ok (pots, 2%N) ∧
    _get_unary_potentials binary64_dot_entry schema_1_1
      instance_1_1 weights_3_5 = Ok pots.
Proof.
  destruct (unary_weights_consumed 1%float binary64_dot_entry
              schema_1_1 instance_1_1 weights_3_5
              schema_1_1_constructed eq_refl eq_refl)
    as (Hsize & pots & Hloop & Hpots).
  split; [reflexivity|]. by exists pots.
Defined.

(** ** The constructor's tables *)

(** Class weights 1, 2 for the first type and 3, 4, 5 for the second:
    the schema is built with the five weights in a row, those of the
    second type from position 2 to position 5. *)
Lemma init_with_class_weights_2_3 :
  ∃ s, __init__ 1%Z 2 [2; 3]%N (Some [1; 1]%N) "ad3+"
         (Some class_weights_2_3) = Ok s ∧
       l_class_weight s = class_weights_2_3 ∧
       class_weight s = [1; 2; 3; 4; 5]%Z ∧
       length (class_weight s) = N.to_nat (_n_states s) ∧
       ∀ typ c lo hi,
         class_weights_2_3 !! typ = Some c →
         _l_type_startindex s !! typ = Some lo →
         _l_type_startindex s !! (typ + 1) = Some hi →
         Py.slice (class_weight s) (N.to_nat lo) (N.to_nat hi) = c.
Proof.
  apply (init_with_class_weights 1%Z 2 [2; 3]%N [1; 1]%N "ad3+"
           class_weights_2_3); [done..|].
  by repeat constructor.
Defined.

(** With 2 and 3 states the first states are 0, 2 and 5. *)
Lemma type_startindex_tile_2_3 :
  _l_type_startindex schema_2_3 = [0; 2; 5]%N ∧
  length (_l_type_startindex schema_2_3) = n_types schema_2_3 + 1 ∧
  _l_type_startindex schema_2_3 !! 0 = Some 0%N ∧
  _l_type_startindex schema_2_3 !! n_types schema_2_3
  = Some (_n_states schema_2_3) ∧
  (∀ k, (k < _n_states schema_2_3)%N →
     ∃ typ lo hi,
       _l_type_startindex schema_2_3 !! typ = Some lo ∧
       _l_type_startindex schema_2_3 !! (typ + 1) = Some hi ∧
       (lo ≤ k < hi)%N).
Proof.
  destruct (type_startindex_tile 1%Z schema_2_3 schema_2_3_constructed)
    as (Hlen & H0 & Hn & _ & Hcover & _).
  by repeat split.
Defined.

(** With one feature per type the slices are 0:1 and 1:2. *)
Lemma feature_slices_tile_2_3 :
  _a_feature_slice_by_typ schema_2_3 = [(0, 1); (1, 2)]%N ∧
  length (_a_feature_slice_by_typ schema_2_3) = n_types schema_2_3 ∧
  (∀ typ start stop start' stop',
     _a_feature_slice_by_typ schema_2_3 !! typ = Some (start, stop) →
     _a_feature_slice_by_typ schema_2_3 !! (typ + 1)
     = Some (start', stop') →
     start' = stop).
Proof.
  destruct (feature_slices_tile 1%Z schema_2_3 schema_2_3_constructed)
    as (Hlen & _ & _ & Hnext & _).
  by repeat split.
Defined.

(** With 2 and 3 states the pairs of types have 4, 6, 6 and 9 edge
    states, 25 in all. *)
Lemma edge_states_total_2_3 :
  l_n_edge_states schema_2_3 = [4; 6; 6; 9]%N ∧
  length (l_n_edge_states schema_2_3)
  = n_types schema_2_3 * n_types schema_2_3 ∧
  Py.sum (l_n_edge_states schema_2_3)
  = (_n_states schema_2_3 * _n_states schema_2_3)%N.
Proof.
  destruct (edge_states_total 1%Z schema_2_3 schema_2_3_constructed)
    as (Hlen & _ & Hsum).
  by repeat split.
Defined.

(** The table of first edge states for 2 and 3 states: 0, 4, 10, 16;
    there is no entry (0, 2). *)
Lemma startindex_table_entries_2_3 :
  rows (a_startindex_by_typ_typ schema_2_3) = [[0; 4]; [10; 16]]%N ∧
  nrows (a_startindex_by_typ_typ schema_2_3) = n_types schema_2_3 ∧
  edge_pair_start_offset schema_2_3 1 0
  = Ok (Py.sum (take (1 * n_types schema_2_3 + 0)
                  (l_n_edge_states schema_2_3)) mod 2 ^ 32)%N ∧
  edge_pair_start_offset schema_2_3 0 2 = Raise IndexError.
Proof.
  destruct (startindex_table_entries 1%Z schema_2_3
              schema_2_3_constructed) as (Hrows & _ & Hin & Hout).
  split; [done|]. split; [done|]. split.
  - apply Hin; simpl; lia.
  - apply Hout. simpl. lia.
Defined.

(** ** The instance validator: what it accepts, and its other errors *)

(** The instance with edges is accepted, and is valid. *)
Lemma check_size_x_sound_edges :
  edge_tables_wf instance_with_edges ∧
  _check_size_x schema_2_3 instance_with_edges = Ok true ∧
  node_tables_fit schema_2_3 instance_with_edges ∧
  edge_tables_shaped schema_2_3 instance_with_edges ∧
  ∀ typ1 typ2, typ1 < n_types schema_2_3 → typ2 < n_types schema_2_3 →
               endpoints_in_range schema_2_3 instance_with_edges typ1 typ2.
Proof.
  assert (edge_tables_wf instance_with_edges) as Hwf.
  { repeat (constructor; [done|]). constructor. }
  assert (_check_size_x schema_2_3 instance_with_edges = Ok true) as Hok
    by reflexivity.
  split; [done|]. split; [done|].
  exact (check_size_x_sound schema_2_3 instance_with_edges Hwf Hok).
Defined.

(** One table for two types, and a table of two columns for a type
    of one feature. *)
Lemma check_size_x_node_tables_2_3 :
  _check_size_x schema_2_3 instance_one_table
  = Raise (ValueError MsgNodeFeatureArrayPerType) ∧
  _check_size_x schema_2_3 instance_misfit
  = Raise (ValueError (MsgExpectedFeatures 1 1)).
Proof.
  split.
  - apply (proj1 (check_size_x_node_tables schema_2_3 instance_one_table)).
    simpl. lia.
  - apply (proj2 (check_size_x_node_tables schema_2_3 instance_misfit)
             1 (mk_matrix 2 [[1; 1]%Z]) 1%N); try done.
    intros [|typ'] Hlt; [|lia]. by eexists.
Defined.

(** No table for type 0: the instance is refused with the
    [AttributeError]. *)
Lemma check_size_x_missing_node_table_0 :
  x0 instance_missing !! 0 = Some None ∧
  (∃ e, _check_size_x schema_2_3 instance_missing = Raise e) ∧
  _check_size_x schema_2_3 instance_missing = Raise AttributeError.
Proof.
  destruct (check_size_x_missing_node_table schema_2_3 instance_missing 0)
    as [Hraise Hfirst]; [done|].
  split; [done|]. split; [done|].
  apply Hfirst; [done|]. intros typ' Hlt. lia.
Defined.

(** Two edge tables for four pairs of types. *)
Lemma check_size_x_few_edge_tables_2 :
  length (x1 (instance_2_3 [None; None]))
  < n_types schema_2_3 * n_types schema_2_3 ∧
  (∃ e, _check_size_x schema_2_3 (instance_2_3 [None; None]) = Raise e) ∧
  _check_size_x schema_2_3 (instance_2_3 [None; None]) = Raise IndexError.
Proof.
  destruct (check_size_x_few_edge_tables schema_2_3
              (instance_2_3 [None; None])) as [Hraise Hfirst].
  - apply instance_2_3_fits.
  - by repeat constructor.
  - simpl. lia.
  - split; [simpl; lia|]. split; [done|]. apply Hfirst.
    intros typ1 typ2 H1 H2 e [He _]. simpl in He.
    destruct typ1 as [|[|typ1]], typ2 as [|[|typ2]]; simpl in *;
      try done; lia.
Defined.

(** ** Cleaning the tables of an instance *)

(** The edge tables of the instance with edges, cleaned: the two
    tables with edges are kept, the table that is [None] and the table
    without edges become the array of shape (0, 0). *)
Lemma get_edges_clean_edges :
  ∃ l, _get_edges schema_2_3 instance_with_edges true = Ok l ∧
       length l = length (x1 instance_with_edges) ∧
       l !! 0 = Some (edge_table [(0, 1)]%Z) ∧
       l !! 2 = Some (Some Np.empty_0_0) ∧
       l !! 3 = Some (Some Np.empty_0_0) ∧
       _get_edges schema_2_3 (mk_instance (x0 instance_with_edges) l) true
       = Ok l.
Proof.
  destruct (proj1 (proj2 (get_edges_clean schema_2_3 instance_with_edges)))
    as (l & Hl & Hlen & Hnone & Hempty & Hkept & Hidem).
  { repeat (constructor; [by intros e [= <-]|]). constructor. }
  exists l. split; [done|]. split; [done|]. split; [|split; [|split]].
  - by apply (Hkept 0 _ 0).
  - by apply Hnone.
  - by apply (Hempty 3 (mk_ndarray [0; 2] [])).
  - done.
Defined.

(** The instance with edges is accepted; with its edge tables cleaned
    it is not, for the shape of an edge table. *)
Lemma check_size_x_cleaned_edges_2 :
  ∃ l, _get_edges schema_2_3 instance_with_edges true = Ok l ∧
       _check_size_x schema_2_3 instance_with_edges = Ok true ∧
       ∃ err,
         _check_size_x schema_2_3
           (mk_instance (x0 instance_with_edges) l) = Raise err ∧
         kind_of err = Some StructuralMismatch.
Proof.
  eexists. split; [reflexivity|]. split; [reflexivity|].
  eapply (check_size_x_cleaned_edges schema_2_3 instance_with_edges _ 2
            None); [reflexivity | reflexivity | by left |].
  apply instance_2_3_fits.
Defined.

(** ** The label validator: the count, and what it accepts *)

(** Two labels for five nodes. *)
Lemma check_size_xy_count_2_5 :
  node_counts schema_2_3 (instance_2_3 []) = [2; 3] ∧
  _check_size_xy schema_2_3 (instance_2_3 []) (Some [0; 1]%Z)
  = Raise (ValueError (MsgLabelPerNode 5 2)).
Proof.
  split; [reflexivity|].
  apply (proj2 (proj2 (check_size_xy_count schema_2_3 (instance_2_3 [])
                         [0; 1]%Z))).
  vm_compute. lia.
Defined.

(** The labels 0, 1 for the nodes of type 0 and 2, 4, 3 for those of
    type 1 are accepted, and are states of the schema. *)
Lemma check_size_xy_accepts_2_3 :
  _check_size_xy schema_2_3 (instance_2_3 []) (Some [0; 1; 2; 4; 3]%Z)
  = Ok (Some true) ∧
  (length [0; 1; 2; 4; 3]%Z
   = sum_counts (node_counts schema_2_3 (instance_2_3 [])) ∧
   ∀ typ, typ < length (node_counts schema_2_3 (instance_2_3 [])) →
          run_in_bounds schema_2_3 (instance_2_3 []) [0; 1; 2; 4; 3]%Z typ) ∧
  Forall (λ v, 0 ≤ v < Z.of_N (_n_states schema_2_3))%Z [0; 1; 2; 4; 3]%Z.
Proof.
  destruct (check_size_xy_accepts_iff 1%Z schema_2_3 (instance_2_3 [])
              [0; 1; 2; 4; 3]%Z schema_2_3_constructed) as [Hiff Hstates].
  assert (_check_size_xy schema_2_3 (instance_2_3 [])
            (Some [0; 1; 2; 4; 3]%Z) = Ok (Some true)) as Hok
    by reflexivity.
  split; [done|]. split; [by apply Hiff | by apply Hstates].
Defined.

(** ** The potential computer: missing, misfit and too few tables *)

Ltac tables_fit :=
  let H := fresh in
  intros ? ? H; simpl in H; lookup_cases H; vm_compute in H;
  simplify_eq; reflexivity.

(** No table for type 0: a table without rows and with 2 columns for
    it, and the potentials of the 3 nodes of type 1. *)
Lemma unary_potentials_missing_tables_0 :
  ∃ pots,
    _get_unary_potentials int64_dot_entry schema_2_3 instance_missing
      weights_1_5 = Ok pots ∧
    pots = [Np.empty_rows 2;
            Np.mk_matrix 3 [[3; 4; 5]; [3; 4; 5]; [3; 4; 5]]%Z] ∧
    length pots = n_types schema_2_3.
Proof.
  destruct (unary_potentials_missing_tables 1%Z int64_dot_entry schema_2_3
              instance_missing weights_1_5)
    as (pots & Hpots & _ & Hlen & _).
  - exact schema_2_3_constructed.
  - reflexivity.
  - tables_fit.
  - reflexivity.
  - exists pots. split; [done|]. split; [|done].
    assert (_get_unary_potentials int64_dot_entry schema_2_3
              instance_missing weights_1_5
            = Ok [Np.empty_rows 2;
                  Np.mk_matrix 3 [[3; 4; 5]; [3; 4; 5]; [3; 4; 5]]%Z])
      as Heq by reflexivity.
    congruence.
Defined.

(** A table of two columns for the one feature of type 1. *)
Lemma unary_potentials_misfit_1 :
  _get_unary_potentials int64_dot_entry schema_2_3 instance_misfit
    weights_1_5 = Raise (ValueError MsgShapesNotAligned).
Proof.
  apply (unary_potentials_misfit 1%Z int64_dot_entry schema_2_3
           instance_misfit weights_1_5 1 (mk_matrix 2 [[1; 1]%Z]) 1%N);
    try done.
  - exact schema_2_3_constructed.
  - intros typ' m' Hlt H. destruct typ' as [|typ']; [|lia].
    simpl in H. by injection H as <-.
Defined.

Lemma schema_no_feature_constructed : constructed 1%Z schema_no_feature.
Proof. by apply schema_constructed. Qed.

(** One table for two types: with weights for the second type the
    assertion fails; with no feature, and so no weight, for the second
    type, the one table of potentials is returned. *)
Lemma unary_potentials_few_tables_1 :
  _get_unary_potentials int64_dot_entry schema_2_3 instance_one_table
    weights_1_5 = Raise AssertionError ∧
  ∃ pots,
    _get_unary_potentials int64_dot_entry schema_no_feature
      instance_one_table [1; 2]%Z = Ok pots ∧
    length pots = length (x0 instance_one_table).
Proof.
  split.
  - apply (proj1 (unary_potentials_few_tables 1%Z int64_dot_entry
                    schema_2_3 instance_one_table weights_1_5
                    schema_2_3_constructed ltac:(simpl; lia)
                    ltac:(tables_fit)
                    eq_refl)).
    exists 1. split; [simpl; lia | done].
  - apply (proj2 (unary_potentials_few_tables 1%Z int64_dot_entry
                    schema_no_feature instance_one_table [1; 2]%Z
                    schema_no_feature_constructed ltac:(simpl; lia)
                    ltac:(tables_fit)
                    eq_refl)).
    intros typ Htyp. simpl in Htyp.
    assert (typ = 1) as -> by lia. done.
Defined.

(** ** [initialize] *)

(** The instance with edges and its labels, alone and in a list with
    the instance without edges, which is left without labels. *)
Lemma initialize_checks_2_3 :
  initialize schema_2_3 (One instance_with_edges (Some [0; 1; 2; 4; 3]%Z))
  = Ok () ∧
  initialize schema_2_3
    (Many [instance_with_edges; instance_2_3 [None; None; None; None]] None)
  = Ok () ∧
  initialize schema_2_3
    (Many [instance_with_edges; instance_2_3 [None; None; None; None]]
       (Some [[0; 1; 2; 4; 3]%Z])) = Ok ().
Proof.
  destruct (initialize_checks schema_2_3) as (Hone & Hmany & Hlabels).
  split; [|split].
  - apply Hone. split; [reflexivity|]. by eexists.
  - apply Hmany. by repeat constructor.
  - apply Hlabels; [simpl; lia|]. split; by repeat constructor.
Defined.

(** The second instance has a dangling edge and the labels of the
    first are one too few: the error is that of the instance.  With
    the two instances valid, it is that of the labels. *)
Lemma initialize_instances_first_2_3 :
  initialize schema_2_3
    (Many [instance_with_edges; instance_dangling]
       (Some [[0; 1; 2; 4]; [0; 1; 2; 4; 3]]%Z))
  = Raise (ValueError (MsgEdgePointsNonExisting 0 1)) ∧
  initialize schema_2_3
    (Many [instance_with_edges; instance_with_edges]
       (Some [[0; 1; 2; 4]; [0; 1; 2; 4; 3]]%Z))
  = Raise (ValueError (MsgLabelPerNode 5 4)).
Proof.
  destruct (initialize_instances_first schema_2_3)
    as (_ & Hinstance & Hlabels).
  split.
  - apply (Hinstance _ _ 1 instance_dangling); try done.
    intros [|j] x' Hj Hx'; [|lia]. by injection Hx' as <-.
  - apply (Hlabels _ _ 0 instance_with_edges [0; 1; 2; 4]%Z); try done.
    + by repeat constructor.
    + intros j x' Y' Hj. lia.
Defined.

(** ** The errors of the two validators *)

(** The error about the edge (0, 99) is one of those of
    [_check_size_x]: a dangling-edge error, of a pair that has an
    edge out of range. *)
Lemma check_size_x_errors_dangling :
  _check_size_x schema_2_3 instance_dangling
  = Raise (ValueError (MsgEdgePointsNonExisting 0 1)) ∧
  (kind_of (ValueError (MsgEdgePointsNonExisting 0 1))
   = Some StructuralMismatch ∨
   (ValueError (MsgEdgePointsNonExisting 0 1) = AttributeError ∧
    ∃ typ, x0 instance_dangling !! typ = Some None) ∨
   (ValueError (MsgEdgePointsNonExisting 0 1) = IndexError ∧
    length (x1 instance_dangling)
    < n_types schema_2_3 * n_types schema_2_3) ∨
   (kind_of (ValueError (MsgEdgePointsNonExisting 0 1))
    = Some DanglingEdge ∧
    ∃ typ1 typ2 edges,
      typ1 < n_types schema_2_3 ∧ typ2 < n_types schema_2_3 ∧
      has_edges schema_2_3 instance_dangling typ1 typ2 edges ∧
      (negative_endpoint edges ∨
       source_out_of_range instance_dangling typ1 edges ∨
       target_out_of_range instance_dangling typ2 edges))).
Proof.
  split; [reflexivity|].
  apply (check_size_x_errors schema_2_3 instance_dangling).
  - repeat (constructor; [done|]). constructor.
  - reflexivity.
  - reflexivity.
Defined.

(** The label 1 in the run of type 1, whose states start at 2: the
    error is about type 1, the run of type 0 being within bounds. *)
Lemma check_size_xy_errors_2_3 :
  _check_size_xy schema_2_3 (instance_2_3 []) (Some [0; 1; 1; 4; 3]%Z)
  = Raise (InconsistentLabel (MsgLabelsStartAt 1 2)) ∧
  ∃ typ lo hi,
    typ < length (node_counts schema_2_3 (instance_2_3 [])) ∧
    _l_type_startindex schema_2_3 !! typ = Some lo ∧
    _l_type_startindex schema_2_3 !! (typ + 1) = Some hi ∧
    (∀ typ', typ' < typ →
       run_in_bounds schema_2_3 (instance_2_3 []) [0; 1; 1; 4; 3]%Z typ') ∧
    let run := label_run schema_2_3 (instance_2_3 [])
                 [0; 1; 1; 4; 3]%Z typ in
    (run = [] ∧
     InconsistentLabel (MsgLabelsStartAt 1 2)
     = ValueError MsgZeroSizeReduction) ∨
    (Exists (λ v, v < 0)%Z run ∧
     InconsistentLabel (MsgLabelsStartAt 1 2)
     = ValueError (MsgNegativeLabel typ)) ∨
    (Forall (λ v, 0 ≤ v)%Z run ∧ Exists (λ v, v < Z.of_N lo)%Z run ∧
     InconsistentLabel (MsgLabelsStartAt 1 2)
     = InconsistentLabel (MsgLabelsStartAt typ lo)) ∨
    (Forall (λ v, Z.of_N lo ≤ v)%Z run ∧
     Exists (λ v, Z.of_N hi ≤ v)%Z run ∧
     InconsistentLabel (MsgLabelsStartAt 1 2)
     = InconsistentLabel (MsgLabelsEndAt typ (Z.of_N hi - 1))).
Proof.
  split; [reflexivity|].
  apply (check_size_xy_errors 1%Z schema_2_3 (instance_2_3 [])
           [0; 1; 1; 4; 3]%Z).
  - exact schema_2_3_constructed.
  - reflexivity.
  - reflexivity.
Defined.

End Scenarios.
